(** * ZumbaWithPooh gallery backend ([server.js]): model and properties

    A shallow embedding of the Express route handlers of [server.js]:
    the image upload, the gallery card store, the latest-offer singleton
    and the contact inquiries.  The Mongoose collections are lists of
    records in insertion order, the remote services (Cloudinary, the mail
    relay, the database itself) are an oracle carried by the handler
    monad, and every external call is logged in a trace so that the order
    of side effects can be stated. *)

From Stdlib Require Import String Ascii List Bool ZArith QArith Qabs Lia.
Import ListNotations.

Local Open Scope string_scope.
Local Open Scope Z_scope.
Local Open Scope list_scope.

(** ** JavaScript values used by the handlers *)

Module JS.

(** A JavaScript number: NaN, the two infinities, or a finite double given
    by its exact value in lowest terms (the two zeros are identified, as
    [===] and [JSON.stringify] do). *)
Inductive jsnum : Type :=
| NaN
| Infinity (negative : bool)
| Finite (q : Q).

(** Strings are sequences of code units below 256; a form or query field
    is [Some s] when present and [None] when it is [undefined]. *)
Definition field := option string.

(** [!!v] for a field: [undefined] and the empty string are falsy. *)
Definition truthy (v : field) : bool :=
  match v with
  | None => false
  | Some s => negb (String.eqb s "")
  end.

(** The value of a field that passed a truthiness guard. *)
Definition str (v : field) : string :=
  match v with
  | None => ""
  | Some s => s
  end.

(** [v || ''] read on a field, and a destructuring default [v = '']. *)
Definition or_empty (v : field) : string := str v.

(** *** [Number(string)]: the StringNumericLiteral grammar *)

(** StrWhiteSpaceChar, restricted to code units below 256:
    TAB, LF, VT, FF, CR, SP and NBSP. *)
Definition is_ws (c : ascii) : bool :=
  let n := Z.of_nat (nat_of_ascii c) in
  ((9 <=? n) && (n <=? 13)) || (n =? 32) || (n =? 160).

Fixpoint drop_ws (l : list ascii) : list ascii :=
  match l with
  | c :: r => if is_ws c then drop_ws r else l
  | [] => []
  end.

Definition trim (l : list ascii) : list ascii :=
  rev (drop_ws (rev (drop_ws l))).

(** The value of a digit in the given base, if the code unit is one. *)
Definition digit_of (base : Z) (c : ascii) : option Z :=
  let n := Z.of_nat (nat_of_ascii c) in
  let v :=
    if (48 <=? n) && (n <=? 57) then n - 48
    else if (97 <=? n) && (n <=? 102) then n - 87
    else if (65 <=? n) && (n <=? 70) then n - 55
    else base in
  if v <? base then Some v else None.

(** The longest prefix of digits, and what follows it. *)
Fixpoint span_digits (base : Z) (l : list ascii) : list Z * list ascii :=
  match l with
  | c :: r =>
      match digit_of base c with
      | Some d => let (ds, rest) := span_digits base r in (d :: ds, rest)
      | None => ([], l)
      end
  | [] => ([], [])
  end.

Definition digits_value (base : Z) (ds : list Z) : Z :=
  fold_left (fun acc d => acc * base + d) ds 0.

Definition is_nil {A : Type} (l : list A) : bool :=
  match l with [] => true | _ => false end.

(** [2^k] for any integer [k]. *)
Definition pow2 (k : Z) : Q :=
  if 0 <=? k then inject_Z (2 ^ k) else 1 # Z.to_pos (2 ^ (- k)).

(** [10^k] for any integer [k]. *)
Definition pow10 (k : Z) : Q :=
  if 0 <=? k then inject_Z (10 ^ k) else 1 # Z.to_pos (10 ^ (- k)).

(** [floor (log2 a)] for a positive rational [a]. *)
Definition floor_log2 (a : Q) : Z :=
  let e0 := Z.log2 (Qnum a) - Z.log2 (Zpos (Qden a)) in
  if Qle_bool (pow2 e0) a then e0 else e0 - 1.

(** The nearest integer, ties to even. *)
Definition round_half_even (a : Q) : Z :=
  let n := Qnum a in
  let d := Zpos (Qden a) in
  let fl := n / d in
  match (2 * (n mod d)) ?= d with
  | Lt => fl
  | Gt => fl + 1
  | Eq => if Z.even fl then fl else fl + 1
  end.

(** Rounding of an exact value to the nearest binary64 double
    (53-bit significand, exponents from -1022, overflow to infinity). *)
Definition round_double (q : Q) : jsnum :=
  if Qeq_bool q 0 then Finite (0 # 1)
  else
    let a := Qabs q in
    let e := Z.max (floor_log2 a) (-1022) in
    let ulp := pow2 (e - 52) in
    let m := round_half_even (a / ulp)%Q in
    let r := (inject_Z m * ulp)%Q in
    if Qle_bool (pow2 1024) r then Infinity (Qnum q <? 0)
    else Finite (Qred (if Qnum q <? 0 then (- r)%Q else r)).

(** ExponentPart_opt followed by the end of the literal. *)
Definition parse_exponent (l : list ascii) : option Z :=
  match l with
  | [] => Some 0
  | c :: r =>
      if (Ascii.eqb c "e" || Ascii.eqb c "E")%char then
        let '(neg, r') :=
          match r with
          | s :: r' =>
              if Ascii.eqb s "-" then (true, r')
              else if Ascii.eqb s "+" then (false, r')
              else (false, r)
          | [] => (false, r)
          end in
        let (ds, rest) := span_digits 10 r' in
        if is_nil ds || negb (is_nil rest) then None
        else Some (if neg then - digits_value 10 ds else digits_value 10 ds)
      else None
  end.

(** StrUnsignedDecimalLiteral: its exact value, or [None] on a syntax
    error.  [Infinity] is handled by the caller. *)
Definition parse_unsigned_decimal (l : list ascii) : option Q :=
  let (ip, r1) := span_digits 10 l in
  match r1 with
  | c :: r2 =>
      if Ascii.eqb c "." then
        let (fp, r3) := span_digits 10 r2 in
        if is_nil ip && is_nil fp then None
        else
          match parse_exponent r3 with
          | Some e =>
              Some (inject_Z (digits_value 10 (ip ++ fp))
                    * pow10 (e - Z.of_nat (length fp)))%Q
          | None => None
          end
      else if is_nil ip then None
      else
        match parse_exponent r1 with
        | Some e => Some (inject_Z (digits_value 10 ip) * pow10 e)%Q
        | None => None
        end
  | [] => if is_nil ip then None else Some (inject_Z (digits_value 10 ip))
  end.

(** NonDecimalIntegerLiteral: [0x], [0o] or [0b] and at least one digit. *)
Definition parse_non_decimal (l : list ascii) : option Q :=
  match l with
  | z :: p :: r =>
      let base :=
        if (Ascii.eqb p "x" || Ascii.eqb p "X")%char then 16
        else if (Ascii.eqb p "o" || Ascii.eqb p "O")%char then 8
        else if (Ascii.eqb p "b" || Ascii.eqb p "B")%char then 2
        else 0 in
      if Ascii.eqb z "0" && negb (base =? 0) then
        let (ds, rest) := span_digits base r in
        if is_nil ds || negb (is_nil rest) then None
        else Some (inject_Z (digits_value base ds))
      else None
  | _ => None
  end.

Definition list_ascii_eqb (a b : list ascii) : bool :=
  String.eqb (string_of_list_ascii a) (string_of_list_ascii b).

Definition infinity_lit : list ascii := list_ascii_of_string "Infinity".

(** StrDecimalLiteral: an optional sign, then [Infinity] or a decimal. *)
Definition parse_decimal (l : list ascii) : jsnum :=
  let '(neg, body) :=
    match l with
    | s :: r =>
        if Ascii.eqb s "-" then (true, r)
        else if Ascii.eqb s "+" then (false, r)
        else (false, l)
    | [] => (false, l)
    end in
  if list_ascii_eqb body infinity_lit then Infinity neg
  else
    match parse_unsigned_decimal body with
    | Some q => round_double (if neg then (- q)%Q else q)
    | None => NaN
    end.

(** StringToNumber. *)
Definition StringToNumber (s : string) : jsnum :=
  let l := trim (list_ascii_of_string s) in
  if is_nil l then Finite (0 # 1)
  else
    match parse_non_decimal l with
    | Some q => round_double q
    | None => parse_decimal l
    end.

(** [Number(v)] on a field: [Number(undefined)] is NaN. *)
Definition Number (v : field) : jsnum :=
  match v with
  | None => NaN
  | Some s => StringToNumber s
  end.

(** [Number.isFinite]. *)
Definition Number_isFinite (n : jsnum) : bool :=
  match n with
  | Finite _ => true
  | _ => false
  end.

(** [a === b] on numbers: NaN equals nothing. *)
Definition num_eq (a b : jsnum) : bool :=
  match a, b with
  | Finite p, Finite q => Qeq_bool p q
  | Infinity s, Infinity t => Bool.eqb s t
  | _, _ => false
  end.

End JS.

Import JS.

Example Number_12 : Number (Some "12") = Finite (12 # 1).
Proof. vm_compute. reflexivity. Qed.
Example Number_pad : Number (Some " 7 ") = Finite (7 # 1).
Proof. vm_compute. reflexivity. Qed.
Example Number_hex : Number (Some "0x1F") = Finite (31 # 1).
Proof. vm_compute. reflexivity. Qed.
Example Number_frac : Number (Some "-1.5e1") = Finite (-15 # 1).
Proof. vm_compute. reflexivity. Qed.
Example Number_half : Number (Some ".5") = Finite (1 # 2).
Proof. vm_compute. reflexivity. Qed.
Example Number_abc : Number (Some "abc") = NaN.
Proof. vm_compute. reflexivity. Qed.
Example Number_12px : Number (Some "12px") = NaN.
Proof. vm_compute. reflexivity. Qed.
Example Number_inf : Number (Some "-Infinity") = Infinity true.
Proof. vm_compute. reflexivity. Qed.
Example Number_big : Number (Some "1e309") = Infinity false.
Proof. vm_compute. reflexivity. Qed.
Example Number_max : Number_isFinite (Number (Some "1.7976931348623157e308")) = true.
Proof. vm_compute. reflexivity. Qed.
Example Number_2p53 : Number (Some "9007199254740993") = Finite (9007199254740992 # 1).
Proof. vm_compute. reflexivity. Qed.
Example Number_tenth : Number (Some "0.1") = Finite (3602879701896397 # 36028797018963968).
Proof. vm_compute. reflexivity. Qed.

(** ** The Mongoose schemas *)

(** A [String] path with [required: true]: Mongoose rejects the empty
    string as well as a missing value. *)
Definition required_string (s : string) : bool := negb (String.eqb s "").

(** Mongoose's cast of a string to a [Number] path: the empty string
    becomes [null] ([Some None]), another string goes through [Number]
    and NaN is a CastError ([None]). *)
Definition castNumber (s : string) : option (option jsnum) :=
  if String.eqb s "" then Some None
  else match StringToNumber s with
       | NaN => None
       | n => Some (Some n)
       end.

(** The card sub-document of [cardDataSchema].  Every path is optional and
    a path without value ([undefined] or [null]) is [None]; Mongoose gives
    each card an [_id]. *)
Module cardSchema.

(** The [_id] of a card.  No handler looks at it or compares it, and the
    model keeps that a card has one, not which one. *)
Inductive ObjectId : Type := an_id.

Record doc : Type := Build {
  _id : ObjectId;
  cardNum : option jsnum;
  beforeImg : field;
  afterImg : field;
  details : field;
  name : field;
  beforeWeight : field;
  afterWeight : field
}.

(** The sub-document made from [{ cardNum: n }]. *)
Definition of_cardNum (n : jsnum) : doc :=
  Build an_id (Some n) None None None None None None.

Definition set_beforeImg (u : string) (c : doc) : doc :=
  Build (_id c) (cardNum c) (Some u) (afterImg c) (details c) (name c)
        (beforeWeight c) (afterWeight c).

Definition set_afterImg (u : string) (c : doc) : doc :=
  Build (_id c) (cardNum c) (beforeImg c) (Some u) (details c) (name c)
        (beforeWeight c) (afterWeight c).

(** [c.cardNum === n]; a card without number equals none. *)
Definition has_cardNum (n : jsnum) (c : doc) : bool :=
  match cardNum c with
  | Some m => num_eq m n
  | None => false
  end.

(** What a JSON body holds at [cardNum]: a number, a string or a
    boolean. *)
Inductive number_like : Type :=
| JNumber (n : jsnum)
| JString (s : string)
| JBoolean (b : bool).

(** A card as a JSON body holds it, an element of the [cards] array: an
    object with an [_id] when the client sends back one that the server
    gave, with a number, a string or a boolean at [cardNum] and with
    strings at the other paths of the schema; a key that is missing or
    holds [null] is [None].  [sent_others] says whether the object has
    further keys, which name no path of the schema (such as [note]). *)
Record json : Type := Json {
  sent_id : option ObjectId;
  sent_cardNum : option number_like;
  sent_beforeImg : field;
  sent_afterImg : field;
  sent_details : field;
  sent_name : field;
  sent_beforeWeight : field;
  sent_afterWeight : field;
  sent_others : bool
}.

(** Mongoose's cast to the [Number] path: a number is kept unless it is
    NaN, a string goes through [castNumber], a boolean through [Number];
    [None] is a CastError. *)
Definition cast_cardNum (v : number_like) : option (option jsnum) :=
  match v with
  | JNumber NaN => None
  | JNumber n => Some (Some n)
  | JString s => castNumber s
  | JBoolean b => Some (Some (Finite (if b then 1 # 1 else 0 # 1)%Q))
  end.

(** The sub-document Mongoose makes of a card of the body: [cardNum] is
    cast to a number, the strings are kept, a card sent without [_id]
    gets a new one, and the keys that name no path are dropped (the
    schema is strict).  [None] when [cardNum] cannot be cast: the
    document then fails its validation. *)
Definition cast (c : json) : option doc :=
  let id := match sent_id c with Some i => i | None => an_id end in
  match sent_cardNum c with
  | None =>
      Some (Build id None (sent_beforeImg c) (sent_afterImg c)
                  (sent_details c) (sent_name c)
                  (sent_beforeWeight c) (sent_afterWeight c))
  | Some v =>
      match cast_cardNum v with
      | Some n =>
          Some (Build id n (sent_beforeImg c) (sent_afterImg c)
                      (sent_details c) (sent_name c)
                      (sent_beforeWeight c) (sent_afterWeight c))
      | None => None
      end
  end.

(** The cast of the whole array: [None] as soon as one card fails. *)
Fixpoint cast_all (cs : list json) : option (list doc) :=
  match cs with
  | [] => Some []
  | c :: r =>
      match cast c, cast_all r with
      | Some d, Some ds => Some (d :: ds)
      | _, _ => None
      end
  end.

(** The JSON of a stored card, as [/api/load-cards] prints it and as a
    client sends it back: [JSON.stringify] prints a number that is not
    finite as [null]. *)
Definition to_json (d : doc) : json :=
  Json (Some (_id d))
       (match cardNum d with
        | Some (Finite q) => Some (JNumber (Finite q))
        | _ => None
        end)
       (beforeImg d) (afterImg d) (details d) (name d)
       (beforeWeight d) (afterWeight d) false.
End cardSchema.

Module cardDataSchema.
Record doc : Type := Build {
  branch : string;
  cards : list cardSchema.doc
}.

(** The validation of a document: it fails when a card could not be cast
    as the document was made ([cast_error], see [cardSchema.cast]), and
    when the required [branch] is empty. *)
Definition valid (cast_error : bool) (d : doc) : bool :=
  negb cast_error && required_string (branch d).
End cardDataSchema.

Module imageSchema.
Record doc : Type := Build {
  url : string;
  cardNum : jsnum;
  slot : string;
  createdAt : Z
}.

(** [enum: ['before', 'after']]. *)
Definition slot_enum : list string := ["before"; "after"].

Definition in_enum (s : string) : bool :=
  existsb (String.eqb s) slot_enum.

(** [url] and [slot] are required strings, [slot] is in the enum, and
    [cardNum] is a number that Mongoose can cast (NaN is not). *)
Definition valid (d : doc) : bool :=
  required_string (url d)
  && match cardNum d with NaN => false | _ => true end
  && required_string (slot d) && in_enum (slot d).
End imageSchema.

Module offerSchema.
Record doc : Type := Build {
  key : string;
  title : string;
  details : string;
  imageUrl : string;
  updatedAt : Z
}.
End offerSchema.

Module contactInquirySchema.
Record doc : Type := Build {
  name : string;
  email : string;
  phone : string;
  message : string;
  createdAt : Z
}.

Definition valid (d : doc) : bool :=
  required_string (name d) && required_string (email d)
  && required_string (message d).
End contactInquirySchema.

(** ** The document store and the handler monad *)

(** The collections, each in insertion order. *)
Record Store : Type := mkStore {
  images : list imageSchema.doc;
  cardDatas : list cardDataSchema.doc;
  offers : list offerSchema.doc;
  inquiries : list contactInquirySchema.doc
}.

Definition empty_store : Store := mkStore [] [] [] [].

(** The external calls a handler makes. *)
Inductive Call : Type :=
| CloudinaryUpload
| ImageDeleteMany
| ImageSave
| ImageFind
| CardDataDeleteMany
| CardDataSave
| CardDataFindOne
| OfferFindOne
| OfferFindOneAndUpdate
| OfferDeleteOne
| ContactInquiryCreate
| SendMail.

(** How a call ended: it was carried out, the remote side rejected it, or
    Mongoose refused the document or the filter before sending it. *)
Inductive Outcome : Type := Done | Rejected | Invalid.

Definition Event : Type := Call * Outcome.

(** Calls that change a collection when they are carried out. *)
Definition is_write (c : Call) : bool :=
  match c with
  | ImageDeleteMany | ImageSave | CardDataDeleteMany | CardDataSave
  | OfferFindOneAndUpdate | OfferDeleteOne | ContactInquiryCreate => true
  | _ => false
  end.

(** What the outside world does during one request: the result of the
    Cloudinary upload ([Some secure_url], or [None] when it fails), which
    store calls reject (by their position in the request's trace), whether
    the mail relay rejects, and the clock. *)
Record Env : Type := mkEnv {
  cloud : option string;
  db_rejects : nat -> bool;
  mail_rejects : bool;
  now : Z
}.

Record Run : Type := mkRun {
  store : Store;
  trace : list Event
}.

Inductive Result (A : Type) : Type :=
| Ok (a : A)
| Throw.
Arguments Ok {A} a.
Arguments Throw {A}.

(** A computation of a handler: it reads the environment, changes the
    store, logs its calls and returns or throws. *)
Definition M (A : Type) : Type := Env -> Run -> Result A * Run.

Definition ret {A : Type} (a : A) : M A := fun _ r => (Ok a, r).

Definition bind {A B : Type} (m : M A) (k : A -> M B) : M B :=
  fun env r =>
    match m env r with
    | (Ok a, r') => k a env r'
    | (Throw, r') => (Throw, r')
    end.

Notation "x <- m ;; k" := (bind m (fun x => k))
  (at level 61, m at next level, right associativity).
Notation "m ;;; k" := (bind m (fun _ => k))
  (at level 61, right associativity).

(** [try { body } catch (err) { handler }]. *)
Definition try_catch {A : Type} (body handler : M A) : M A :=
  fun env r =>
    match body env r with
    | (Ok a, r') => (Ok a, r')
    | (Throw, r') => handler env r'
    end.

Definition log (c : Call) (o : Outcome) (r : Run) : Run :=
  mkRun (store r) (trace r ++ [(c, o)]).

(** [Date.now()] *)
Definition Date_now : M Z := fun env r => (Ok (now env), r).

(** A store call: rejected when the environment says so, otherwise carried
    out on the store. *)
Definition db_call {A : Type} (c : Call) (f : Store -> A * Store) : M A :=
  fun env r =>
    if db_rejects env (length (trace r)) then (Throw, log c Rejected r)
    else
      let (a, s') := f (store r) in
      (Ok a, mkRun s' (trace r ++ [(c, Done)])).

(** A document or filter that Mongoose refuses: nothing is sent. *)
Definition refuse {A : Type} (c : Call) : M A :=
  fun _ r => (Throw, log c Invalid r).

(** An error thrown where no call is made, such as the TypeError of
    destructuring [undefined]. *)
Definition throw {A : Type} : M A := fun _ r => (Throw, r).

(** ** List helpers for the collections *)

(** Index of the first element that satisfies [p]. *)
Fixpoint find_index {A : Type} (p : A -> bool) (l : list A) : option nat :=
  match l with
  | [] => None
  | x :: r =>
      if p x then Some 0%nat
      else match find_index p r with
           | Some i => Some (S i)
           | None => None
           end
  end.

(** The list with position [i] replaced (unchanged when out of range). *)
Fixpoint replace_at {A : Type} (i : nat) (x : A) (l : list A) : list A :=
  match l, i with
  | [], _ => []
  | _ :: r, O => x :: r
  | y :: r, S j => y :: replace_at j x r
  end.

(** The list without its first element that satisfies [p]. *)
Fixpoint remove_first {A : Type} (p : A -> bool) (l : list A) : list A :=
  match l with
  | [] => []
  | x :: r => if p x then r else x :: remove_first p r
  end.

(** The list without the elements that satisfy [p]. *)
Definition remove_all {A : Type} (p : A -> bool) (l : list A) : list A :=
  filter (fun x => negb (p x)) l.

(** Stable insertion sort by an integer key, ascending. *)
Fixpoint insert_by {A : Type} (k : A -> Z) (x : A) (l : list A) : list A :=
  match l with
  | [] => [x]
  | y :: r => if k y <=? k x then y :: insert_by k x r else x :: l
  end.

Definition sort_by {A : Type} (k : A -> Z) (l : list A) : list A :=
  fold_left (fun acc x => insert_by k x acc) l [].

(** ** The Mongoose models and the remote services *)

Module Image.
Import imageSchema.

Definition matches (n : jsnum) (s : string) (d : doc) : bool :=
  num_eq (cardNum d) n && String.eqb (slot d) s.

(** [Image.deleteMany({ cardNum: n, slot: s })] *)
Definition deleteMany (n : jsnum) (s : string) : M unit :=
  db_call ImageDeleteMany (fun st =>
    (tt, mkStore (remove_all (matches n s) (images st))
                 (cardDatas st) (offers st) (inquiries st))).

(** [new Image({ url, cardNum, slot })]: [createdAt] defaults to
    [Date.now]. *)
Definition new (u : string) (n : jsnum) (s : string) : M doc :=
  t <- Date_now ;; ret (Build u n s t).

(** [image.save()]: validation, then the insert. *)
Definition save (d : doc) : M unit :=
  if valid d then
    db_call ImageSave (fun st =>
      (tt, mkStore (images st ++ [d])
                   (cardDatas st) (offers st) (inquiries st)))
  else refuse ImageSave.

(** One path of a query filter after the cast: absent, or a test. *)
Definition path_test (A : Type) : Type := option (A -> bool).

Definition passes {A : Type} (t : path_test A) (a : A) : bool :=
  match t with
  | None => true
  | Some p => p a
  end.

(** The cast of a [cardNum] entry of a filter given as a string. *)
Definition cast_cardNum (f : field) : option (path_test jsnum) :=
  match f with
  | None => Some None
  | Some s =>
      match castNumber s with
      | None => None
      | Some None => Some (Some (fun _ => false))
      | Some (Some n) => Some (Some (fun m => num_eq m n))
      end
  end.

Definition cast_slot (f : field) : path_test string :=
  match f with
  | None => None
  | Some s => Some (fun t => String.eqb t s)
  end.

(** [Image.find(filter).sort({ createdAt: 1 })], the filter holding the
    [cardNum] and [slot] entries that are [Some]. *)
Definition find_sorted (f_cardNum f_slot : field) : M (list doc) :=
  match cast_cardNum f_cardNum with
  | None => refuse ImageFind
  | Some tn =>
      db_call ImageFind (fun st =>
        (sort_by createdAt
           (filter (fun d => passes tn (cardNum d)
                             && passes (cast_slot f_slot) (slot d))
                   (images st)),
         st))
  end.
End Image.

Module CardData.
Import cardDataSchema.

Definition of_branch (b : string) (d : doc) : bool :=
  String.eqb (branch d) b.

(** A Mongoose document in the handler: where it sits in the collection
    ([None] for a document made with [new]), its current value, and
    whether setting its paths left a cast error on it. *)
Record handle : Type := mkHandle {
  position : option nat;
  value : doc;
  cast_error : bool
}.

(** [new CardData({ branch, cards })] on cards that are sub-documents
    already. *)
Definition new (b : string) (cs : list cardSchema.doc) : handle :=
  mkHandle None (Build b cs) false.

(** [new CardData({ branch, cards })] on the cards of a JSON body: every
    card is cast to a sub-document; when one cannot be, the document
    carries the error and is never stored (its cards are left out
    here). *)
Definition of_json (b : string) (cs : list cardSchema.json) : handle :=
  match cardSchema.cast_all cs with
  | Some ds => mkHandle None (Build b ds) false
  | None => mkHandle None (Build b []) true
  end.

(** [CardData.deleteMany({ branch })] *)
Definition deleteMany (b : string) : M unit :=
  db_call CardDataDeleteMany (fun st =>
    (tt, mkStore (images st) (remove_all (of_branch b) (cardDatas st))
                 (offers st) (inquiries st))).

(** [CardData.findOne({ branch })]: the first match, if any. *)
Definition findOne (b : string) : M (option handle) :=
  db_call CardDataFindOne (fun st =>
    (match find_index (of_branch b) (cardDatas st) with
     | Some i =>
         match nth_error (cardDatas st) i with
         | Some d => Some (mkHandle (Some i) d false)
         | None => None
         end
     | None => None
     end, st)).

(** [doc.save()]: validation, then an insert for a new document and an
    update in place for a loaded one. *)
Definition save (h : handle) : M unit :=
  if valid (cast_error h) (value h) then
    db_call CardDataSave (fun st =>
      (tt, mkStore (images st)
                   (match position h with
                    | Some i => replace_at i (value h) (cardDatas st)
                    | None => cardDatas st ++ [value h]
                    end)
                   (offers st) (inquiries st)))
  else refuse CardDataSave.
End CardData.

Module Offer.
Import offerSchema.

Definition of_key (k : string) (d : doc) : bool := String.eqb (key d) k.

(** [Offer.findOne({ key })] *)
Definition findOne (k : string) : M (option doc) :=
  db_call OfferFindOne (fun st => (find (of_key k) (offers st), st)).

(** [Offer.findOneAndUpdate({ key }, d, { upsert: true, new: true })]
    with an update [d] that sets every path of the schema: the first
    match is overwritten, or [d] is inserted; the new document is
    returned. *)
Definition findOneAndUpdate (k : string) (d : doc) : M doc :=
  db_call OfferFindOneAndUpdate (fun st =>
    (d, mkStore (images st) (cardDatas st)
                (match find_index (of_key k) (offers st) with
                 | Some i => replace_at i d (offers st)
                 | None => offers st ++ [d]
                 end)
                (inquiries st))).

(** [Offer.deleteOne({ key })]: removes the first match, if any. *)
Definition deleteOne (k : string) : M unit :=
  db_call OfferDeleteOne (fun st =>
    (tt, mkStore (images st) (cardDatas st)
                 (remove_first (of_key k) (offers st)) (inquiries st))).
End Offer.

Module ContactInquiry.
Import contactInquirySchema.

(** [ContactInquiry.create({ name, email, phone, message })] *)
Definition create (n e p m : string) : M doc :=
  t <- Date_now ;;
  let d := Build n e p m t in
  if valid d then
    db_call ContactInquiryCreate (fun st =>
      (d, mkStore (images st) (cardDatas st) (offers st)
                  (inquiries st ++ [d])))
  else refuse ContactInquiryCreate.
End ContactInquiry.

(** [uploadToCloudinary(buffer)]: resolves with the result's [secure_url]
    or rejects. *)
Definition uploadToCloudinary (buffer : string) : M string :=
  fun env r =>
    match cloud env with
    | Some secure_url => (Ok secure_url, log CloudinaryUpload Done r)
    | None => (Throw, log CloudinaryUpload Rejected r)
    end.

(** [mailTransporter.sendMail(...)] *)
Definition sendMail : M unit :=
  fun env r =>
    if mail_rejects env then (Throw, log SendMail Rejected r)
    else (Ok tt, log SendMail Done r).

(** The mail settings read from the process environment at start-up;
    [createTransport_ok] says that [nodemailer.createTransport] did not
    throw. *)
Record Config : Type := mkConfig {
  CONTACT_TO_EMAIL : string;
  CONTACT_FROM_EMAIL : string;
  SMTP_HOST : string;
  createTransport_ok : bool
}.

(** Whether [mailTransporter] is set (not [null]). *)
Definition mailTransporter (cfg : Config) : bool :=
  truthy (Some (SMTP_HOST cfg)) && truthy (Some (CONTACT_TO_EMAIL cfg))
  && createTransport_ok cfg.

(** ** Requests and responses *)

(** The JSON bodies the handlers send. *)
Inductive Body : Type :=
| JError (error : string)
| JUploaded (url : string) (cardNum : jsnum) (slot branch : string)
| JImages (images : list imageSchema.doc)
| JSuccess
| JCards (cards : list cardSchema.doc)
| JNull
| JOffer (title details imageUrl : string) (updatedAt : Z)
| JInquiry (inquiry : contactInquirySchema.doc) (emailSent : bool).

Record Response : Type := mkResponse {
  status : Z;
  body : Body
}.

(** [res.status(code).json(b)] and [res.json(b)]. *)
Definition status_json (code : Z) (b : Body) : M Response :=
  ret (mkResponse code b).
Definition json (b : Body) : M Response := status_json 200 b.

(** The request of [/api/upload] as the handler gets it: [req.file], the
    buffer of the [image] part when multer kept one, and [req.body], which
    is [undefined] ([None]) when no parser read a body, else an object
    with the text fields. *)
Module UploadReq.
Record fields : Type := Fields {
  the_branch : field;
  the_cardNum : field;
  the_slot : field
}.

Record t : Type := Make {
  file : option string;
  body : option fields
}.

(** A request whose body was read. *)
Definition Build (f : option string) (b c s : field) : t :=
  Make f (Some (Fields b c s)).

(** The fields as the handler reads them off the body. *)
Definition branch (r : t) : field :=
  match body r with Some x => the_branch x | None => None end.
Definition cardNum (r : t) : field :=
  match body r with Some x => the_cardNum x | None => None end.
Definition slot (r : t) : field :=
  match body r with Some x => the_slot x | None => None end.
End UploadReq.

(** A request to [/api/upload] as it arrives: a multipart form with its
    file parts in order, each with the name of its field and its content,
    and its text fields; or a request of another content type, with the
    body that [express.json] or [express.urlencoded] read, if any. *)
Module UploadForm.
Inductive t : Type :=
| Multipart (files : list (string * string)) (texts : UploadReq.fields)
| Plain (body : option UploadReq.fields).
End UploadForm.

(** [upload.single(name)], multer with its memory storage: a multipart
    form may hold one file part, under the field [name]; any other file
    part is an error (LIMIT_UNEXPECTED_FILE, [None]) passed to Express.
    The text fields become [req.body].  A request that is not multipart is
    let through as it is. *)
Definition upload_single (name : string) (form : UploadForm.t)
    : option UploadReq.t :=
  match form with
  | UploadForm.Multipart [] texts => Some (UploadReq.Make None (Some texts))
  | UploadForm.Multipart [(field_name, buffer)] texts =>
      if String.eqb field_name name
      then Some (UploadReq.Make (Some buffer) (Some texts))
      else None
  | UploadForm.Multipart _ _ => None
  | UploadForm.Plain body => Some (UploadReq.Make None body)
  end.

(** The query of [/api/images]. *)
Module ImagesQuery.
Record t : Type := Build {
  cardNum : field;
  slot : field
}.
End ImagesQuery.

(** The request of [/api/save-cards]: [req.body], which is [undefined]
    ([None]) when no parser read a body, else an object with [branch] and
    with [cards], which is [Some] exactly when the body holds an array
    there ([Array.isArray]). *)
Module SaveCardsReq.
Record fields : Type := Fields {
  the_branch : field;
  the_cards : option (list cardSchema.json)
}.

Record t : Type := Make {
  body : option fields
}.

(** The body [{ branch, cards }] with the cards as JSON. *)
Definition Json (b : field) (cs : option (list cardSchema.json)) : t :=
  Make (Some (Fields b cs)).

(** The body [{ branch, cards }] whose cards are stored cards, sent as
    their JSON. *)
Definition Build (b : field) (cs : option (list cardSchema.doc)) : t :=
  Json b (option_map (map cardSchema.to_json) cs).

(** The fields as the handler reads them off the body. *)
Definition branch (r : t) : field :=
  match body r with Some x => the_branch x | None => None end.
Definition cards (r : t) : option (list cardSchema.json) :=
  match body r with Some x => the_cards x | None => None end.
End SaveCardsReq.

(** The JSON body of [POST /api/offers/latest]. *)
Module OfferReq.
Record t : Type := Build {
  title : field;
  details : field;
  imageUrl : field
}.
End OfferReq.

(** The JSON body of [POST /api/contact/inquiries]. *)
Module InquiryReq.
Record t : Type := Build {
  name : field;
  email : field;
  phone : field;
  message : field
}.
End InquiryReq.

Definition is_some {A : Type} (o : option A) : bool :=
  match o with Some _ => true | None => false end.

(** ** The route handlers *)

(** The card the upload writes to: the first one with the number, or a
    new last one; then the slot's image is set.  Returns the new list. *)
Definition set_card_image (n : jsnum) (slot url : string)
    (cs : list cardSchema.doc) : list cardSchema.doc :=
  let '(cs1, i) :=
    match find_index (cardSchema.has_cardNum n) cs with
    | Some i => (cs, i)
    | None => (cs ++ [cardSchema.of_cardNum n], length cs)
    end in
  match nth_error cs1 i with
  | Some card =>
      let card1 :=
        if String.eqb slot "before" then cardSchema.set_beforeImg url card
        else card in
      let card2 :=
        if String.eqb slot "after" then cardSchema.set_afterImg url card1
        else card1 in
      replace_at i card2 cs1
  | None => cs1
  end.

(** The handler of [app.post('/api/upload', upload.single('image'), ...)].
    It takes [branch], [cardNum] and [slot] off [req.body] before its
    [try]: without a body that is a TypeError that no [catch] sees. *)
Definition post_api_upload (req : UploadReq.t) : M Response :=
  match UploadReq.body req with
  | None => throw
  | Some _ =>
  let branch := UploadReq.branch req in
  let cardNum := UploadReq.cardNum req in
  let slot := UploadReq.slot req in
  let cardNumNum := Number cardNum in
  if negb (is_some (UploadReq.file req)) || negb (truthy branch)
     || negb (Number_isFinite cardNumNum) || negb (truthy slot)
  then status_json 400 (JError "Missing image, branch, cardNum or slot")
  else
    try_catch
      (secure_url <- uploadToCloudinary (str (UploadReq.file req)) ;;
       Image.deleteMany cardNumNum (str slot) ;;;
       image <- Image.new secure_url cardNumNum (str slot) ;;
       Image.save image ;;;
       found <- CardData.findOne (str branch) ;;
       let cardData :=
         match found with
         | Some h => h
         | None => CardData.new (str branch) []
         end in
       let cardData' :=
         CardData.mkHandle (CardData.position cardData)
           (cardDataSchema.Build
              (cardDataSchema.branch (CardData.value cardData))
              (set_card_image cardNumNum (str slot) secure_url
                 (cardDataSchema.cards (CardData.value cardData))))
           (CardData.cast_error cardData) in
       CardData.save cardData' ;;;
       status_json 201 (JUploaded secure_url cardNumNum (str slot) (str branch)))
      (status_json 500 (JError "Image upload failed"))
  end.

(** The route [/api/upload]: multer's [upload.single('image')], then the
    handler; an error of multer goes to Express and the handler does not
    run. *)
Definition app_post_api_upload (form : UploadForm.t) : M Response :=
  match upload_single "image" form with
  | Some req => post_api_upload req
  | None => throw
  end.

(** [app.get('/api/images', ...)] *)
Definition get_api_images (q : ImagesQuery.t) : M Response :=
  try_catch
    (let f_cardNum :=
       if truthy (ImagesQuery.cardNum q) then ImagesQuery.cardNum q else None in
     let f_slot :=
       if truthy (ImagesQuery.slot q) then ImagesQuery.slot q else None in
     images <- Image.find_sorted f_cardNum f_slot ;;
     json (JImages images))
    (status_json 500 (JError "Failed to load images")).

(** [Array.isArray(cards)] and the array itself. *)
Definition Array_isArray {A : Type} (v : option (list A)) : bool := is_some v.
Definition elements {A : Type} (v : option (list A)) : list A :=
  match v with Some l => l | None => [] end.

(** [app.post('/api/save-cards', ...)].  It takes [branch] and [cards]
    off [req.body] before its [try]: without a body that is a TypeError
    that no [catch] sees.  The document is made, and its cards cast, after
    the delete. *)
Definition post_api_save_cards (req : SaveCardsReq.t) : M Response :=
  match SaveCardsReq.body req with
  | None => throw
  | Some _ =>
  let branch := SaveCardsReq.branch req in
  let cards := SaveCardsReq.cards req in
  if negb (truthy branch) || negb (Array_isArray cards)
  then status_json 400 (JError "Invalid payload")
  else
    try_catch
      (CardData.deleteMany (str branch) ;;;
       CardData.save (CardData.of_json (str branch) (elements cards)) ;;;
       json JSuccess)
      (status_json 500 (JError "Failed to save cards"))
  end.

(** [app.get('/api/load-cards', ...)], on the [branch] of the query. *)
Definition get_api_load_cards (branch : field) : M Response :=
  if negb (truthy branch) then status_json 400 (JError "Missing branch")
  else
    try_catch
      (data <- CardData.findOne (str branch) ;;
       json (JCards match data with
                    | Some h => cardDataSchema.cards (CardData.value h)
                    | None => []
                    end))
      (status_json 500 (JError "Failed to load cards")).

Definition latestOffer : string := "latestOffer".

(** The offer as the two offer routes print it. *)
Definition offer_json (offer : offerSchema.doc) : Body :=
  JOffer (or_empty (Some (offerSchema.title offer)))
         (or_empty (Some (offerSchema.details offer)))
         (or_empty (Some (offerSchema.imageUrl offer)))
         (offerSchema.updatedAt offer).

(** [app.get('/api/offers/latest', ...)] *)
Definition get_api_offers_latest : M Response :=
  try_catch
    (offer <- Offer.findOne latestOffer ;;
     match offer with
     | None => json JNull
     | Some o => json (offer_json o)
     end)
    (status_json 500 (JError "Failed to load offer")).

(** [app.post('/api/offers/latest', ...)] *)
Definition post_api_offers_latest (req : OfferReq.t) : M Response :=
  let title := or_empty (OfferReq.title req) in
  let details := or_empty (OfferReq.details req) in
  let imageUrl := or_empty (OfferReq.imageUrl req) in
  if negb (truthy (Some title)) && negb (truthy (Some details))
     && negb (truthy (Some imageUrl))
  then status_json 400 (JError "Nothing to save")
  else
    try_catch
      (t <- Date_now ;;
       offer <- Offer.findOneAndUpdate latestOffer
                  (offerSchema.Build latestOffer title details imageUrl t) ;;
       json (offer_json offer))
      (status_json 500 (JError "Failed to save offer")).

(** [app.delete('/api/offers/latest', ...)] *)
Definition delete_api_offers_latest : M Response :=
  try_catch
    (Offer.deleteOne latestOffer ;;; json JSuccess)
    (status_json 500 (JError "Failed to delete offer")).

(** [app.post('/api/contact/inquiries', ...)] *)
Definition post_api_contact_inquiries (cfg : Config) (req : InquiryReq.t)
    : M Response :=
  let name := InquiryReq.name req in
  let email := InquiryReq.email req in
  let phone := or_empty (InquiryReq.phone req) in
  let message := InquiryReq.message req in
  if negb (truthy name) || negb (truthy email) || negb (truthy message)
  then status_json 400 (JError "Missing required fields")
  else
    try_catch
      (inquiry <- ContactInquiry.create (str name) (str email) phone
                    (str message) ;;
       emailSent <-
         (if mailTransporter cfg && truthy (Some (CONTACT_TO_EMAIL cfg))
             && truthy (Some (CONTACT_FROM_EMAIL cfg))
          then try_catch (sendMail ;;; ret true) (ret false)
          else ret false) ;;
       status_json 201 (JInquiry inquiry emailSent))
      (status_json 500 (JError "Failed to save inquiry")).

(** ** Running a handler on a store *)

Definition exec (h : M Response) (env : Env) (s : Store)
    : Result Response * Run :=
  h env (mkRun s []).

(** The response sent, the store left behind and the calls made. *)
Definition reply (h : M Response) (env : Env) (s : Store) : Result Response :=
  fst (exec h env s).
Definition after (h : M Response) (env : Env) (s : Store) : Store :=
  store (snd (exec h env s)).
Definition calls (h : M Response) (env : Env) (s : Store) : list Event :=
  trace (snd (exec h env s)).

(** No store call of the request is rejected. *)
Definition db_ok (env : Env) : Prop := forall k, db_rejects env k = false.

(** An environment in which every service works. *)
Definition fine (u : string) (t : Z) : Env :=
  mkEnv (Some u) (fun _ => false) false t.

Definition status_of (x : Result Response) : option Z :=
  match x with
  | Ok r => Some (status r)
  | Throw => None
  end.

(** The status of the HTTP answer.  What a handler or a middleware throws
    goes to Express's error handler, which answers 500. *)
Definition http_status (x : Result Response) : Z :=
  match x with
  | Ok r => status r
  | Throw => 500
  end.

(** ** Basic facts *)

Lemma truthy_Some (s : string) : truthy (Some s) = true <-> s <> "".
Proof.
  unfold truthy. rewrite negb_true_iff. apply String.eqb_neq.
Qed.

Lemma truthy_false (v : field) :
  truthy v = false <-> v = None \/ v = Some "".
Proof.
  destruct v as [s|]; simpl.
  - rewrite negb_false_iff, String.eqb_eq. split.
    + intros ->. now right.
    + intros [H|H]; [discriminate | congruence].
  - split; [now left | reflexivity].
Qed.

Lemma truthy_or_empty (v : field) : truthy (Some (or_empty v)) = truthy v.
Proof.
  destruct v; reflexivity.
Qed.

Lemma required_string_true (s : string) : s <> "" -> required_string s = true.
Proof.
  intros H. unfold required_string. now rewrite (proj2 (String.eqb_neq s "") H).
Qed.

Lemma find_index_find {A : Type} (p : A -> bool) (l : list A) :
  match find_index p l with
  | Some i => nth_error l i = find p l
  | None => find p l = None
  end.
Proof.
  induction l as [|x l IH]; simpl; [reflexivity|].
  destruct (p x); [reflexivity|].
  destruct (find_index p l); simpl; exact IH.
Qed.

Lemma find_index_None {A : Type} (p : A -> bool) (l : list A) :
  find_index p l = None <-> forall x, In x l -> p x = false.
Proof.
  induction l as [|x l IH]; simpl.
  - split; [intros _ y [] | reflexivity].
  - destruct (p x) eqn:E.
    + split; [discriminate|]. intros H. specialize (H x (or_introl eq_refl)). congruence.
    + destruct (find_index p l).
      * split; [discriminate|]. intros H.
        assert (Some n = None) by (apply IH; intros y Hy; apply H; now right).
        discriminate.
      * split; [|reflexivity]. intros _ y [<-|Hy]; [exact E|].
        now apply (proj1 IH).
Qed.


Lemma remove_all_none {A : Type} (p : A -> bool) (l : list A) :
  forall y, In y (remove_all p l) -> p y = false.
Proof.
  intros y Hy. apply filter_In in Hy. destruct Hy as [_ Hy].
  now apply negb_true_iff.
Qed.

Lemma filter_remove_all {A : Type} (p : A -> bool) (l : list A) :
  filter p (remove_all p l) = [].
Proof.
  unfold remove_all. induction l as [|x l IH]; simpl; [reflexivity|].
  destruct (p x) eqn:E; simpl; [exact IH|]. now rewrite E.
Qed.

Lemma nth_error_app_last {A : Type} (l : list A) (x : A) :
  nth_error (l ++ [x]) (length l) = Some x.
Proof.
  induction l; simpl; auto.
Qed.

(** ** Gallery cards: [/api/save-cards] and [/api/load-cards] *)

Definition save_failed : Response :=
  mkResponse 500 (JError "Failed to save cards").











(** Cards that are the JSON of stored cards can always be cast. *)
Lemma cast_all_to_json (ds : list cardSchema.doc) :
  exists ds', cardSchema.cast_all (map cardSchema.to_json ds) = Some ds'.
Proof.
  induction ds as [|d ds [ds' IH]]; simpl; [now exists []|].
  rewrite IH. unfold cardSchema.cast. simpl.
  destruct (cardSchema.cardNum d) as [[|neg|q]|]; simpl; eexists; reflexivity.
Qed.

Section Cards.

Variables (env : Env) (st : Store).
Hypothesis Hdb : db_ok env.


(** What a load does on a working store, for a branch that is truthy. *)
Lemma exec_load_cards (b : string) :
  b <> "" ->
  exec (get_api_load_cards (Some b)) env st
  = (Ok (mkResponse 200
           (JCards match find (CardData.of_branch b) (cardDatas st) with
                   | Some d => cardDataSchema.cards d
                   | None => []
                   end)),
     mkRun st [(CardDataFindOne, Done)]).
Proof.
  intros Hb. unfold exec, get_api_load_cards. simpl.
  rewrite (proj2 (String.eqb_neq b "") Hb). simpl.
  unfold try_catch, bind, CardData.findOne, db_call. simpl.
  rewrite Hdb.
  pose proof (find_index_find (CardData.of_branch b) (cardDatas st)) as F.
  destruct (find_index (CardData.of_branch b) (cardDatas st)) as [i|].
  - rewrite F. destruct (find (CardData.of_branch b) (cardDatas st)); reflexivity.
  - rewrite F. reflexivity.
Qed.

End Cards.




Definition card1 : cardSchema.doc :=
  cardSchema.Build cardSchema.an_id (Some (Finite (1 # 1))) (Some "b.png") None
                   None (Some "Asha") (Some "80kg") (Some "65kg").
Definition card2 : cardSchema.doc :=
  cardSchema.Build cardSchema.an_id (Some (Finite (2 # 1))) None (Some "a.png")
                   (Some "note") None None None.


(** A store that already holds a set for ["branch1"] and one for
    ["branch2"]. *)
Definition store_two_branches : Store :=
  mkStore [] [cardDataSchema.Build "branch1" [card2];
              cardDataSchema.Build "branch2" [card2; card1]] [] [].

Lemma db_ok_fine (u : string) (t : Z) : db_ok (fine u t).
Proof. intros k. reflexivity. Qed.



(** C8 (as amended): GET /api/load-cards with a non-empty branch query for
    which no BranchCardSet exists answers {cards: []} with status 200 when
    the store call succeeds; without a branch query, or with an empty one,
    it answers 400. *)
Theorem load_cards_unknown_branch (b : string) (env : Env) (st : Store) :
  b <> "" -> db_ok env ->
  (forall d, In d (cardDatas st) -> cardDataSchema.branch d <> b) ->
  reply (get_api_load_cards (Some b)) env st = Ok (mkResponse 200 (JCards []))
  /\ reply (get_api_load_cards None) env st
     = Ok (mkResponse 400 (JError "Missing branch"))
  /\ reply (get_api_load_cards (Some "")) env st
     = Ok (mkResponse 400 (JError "Missing branch")).
Proof.
  intros Hb Hdb Hno. split; [|split; reflexivity].
  unfold reply. rewrite (exec_load_cards env st Hdb b Hb). simpl.
  destruct (find (CardData.of_branch b) (cardDatas st)) as [d|] eqn:F;
    [|reflexivity].
  apply find_some in F. destruct F as [Hin Hd].
  apply String.eqb_eq in Hd. now destruct (Hno d Hin).
Qed.

Lemma load_cards_unknown_branch_witness :
  reply (get_api_load_cards (Some "unknown")) (fine "" 3) store_two_branches
  = Ok (mkResponse 200 (JCards []))
  /\ reply (get_api_load_cards None) (fine "" 3) store_two_branches
     = Ok (mkResponse 400 (JError "Missing branch"))
  /\ reply (get_api_load_cards (Some "")) (fine "" 3) store_two_branches
     = Ok (mkResponse 400 (JError "Missing branch")).
Proof.
  apply (load_cards_unknown_branch "unknown" (fine "" 3) store_two_branches).
  - discriminate.
  - apply db_ok_fine.
  - intros d [<-|[<-|[]]]; discriminate.
Defined.

(** C8, as stated, fails for the query [?branch=]: the branch query is
    there, no BranchCardSet exists for it, and the answer is 400. *)
Lemma load_cards_empty_branch_refused :
  (forall d, In d (cardDatas store_two_branches) ->
             cardDataSchema.branch d <> "")
  /\ reply (get_api_load_cards (Some "")) (fine "" 3) store_two_branches
     = Ok (mkResponse 400 (JError "Missing branch"))
  /\ reply (get_api_load_cards (Some "")) (fine "" 3) store_two_branches
     <> Ok (mkResponse 200 (JCards [])).
Proof.
  repeat split.
  - intros d [<-|[<-|[]]]; discriminate.
  - discriminate.
Qed.

(** ** The latest offer: [/api/offers/latest] *)

Lemma find_replace_at {A : Type} (p : A -> bool) (l : list A) (i : nat) (d : A) :
  find_index p l = Some i -> p d = true -> find p (replace_at i d l) = Some d.
Proof.
  revert i. induction l as [|x l IH]; simpl; intros i Hi Hd; [discriminate|].
  destruct (p x) eqn:E.
  - injection Hi as <-. simpl. now rewrite Hd.
  - destruct (find_index p l) as [j|]; [|discriminate].
    injection Hi as <-. simpl. rewrite E. now apply IH.
Qed.

Lemma find_app_first_hit {A : Type} (p : A -> bool) (l : list A) (d : A) :
  find_index p l = None -> p d = true -> find p (l ++ [d]) = Some d.
Proof.
  intros Hl Hd. induction l as [|x l IH]; simpl in *.
  - now rewrite Hd.
  - destruct (p x); [discriminate|].
    destruct (find_index p l); [discriminate|]. now apply IH.
Qed.

(** The collection after the upsert of [d] under key [k]. *)
Definition upserted (k : string) (d : offerSchema.doc)
    (l : list offerSchema.doc) : list offerSchema.doc :=
  match find_index (Offer.of_key k) l with
  | Some i => replace_at i d l
  | None => l ++ [d]
  end.

Lemma find_upserted (k : string) (d : offerSchema.doc) (l : list offerSchema.doc) :
  offerSchema.key d = k -> find (Offer.of_key k) (upserted k d l) = Some d.
Proof.
  intros Hk. unfold upserted.
  assert (Hd : Offer.of_key k d = true)
    by (unfold Offer.of_key; rewrite Hk; apply String.eqb_refl).
  destruct (find_index (Offer.of_key k) l) as [i|] eqn:E.
  - now apply find_replace_at.
  - now apply find_app_first_hit.
Qed.

(** The unique index on [key]: no two offers share a key. *)
Definition offers_unique (st : Store) : Prop :=
  NoDup (map offerSchema.key (offers st)).

Lemma map_key_replace_at (k : string) (d : offerSchema.doc)
    (l : list offerSchema.doc) (i : nat) :
  find_index (Offer.of_key k) l = Some i -> offerSchema.key d = k ->
  map offerSchema.key (replace_at i d l) = map offerSchema.key l.
Proof.
  revert i. induction l as [|x l IH]; simpl; intros i Hi Hd; [discriminate|].
  destruct (Offer.of_key k x) eqn:E.
  - injection Hi as <-. simpl. apply String.eqb_eq in E. congruence.
  - destruct (find_index (Offer.of_key k) l) as [j|]; [|discriminate].
    injection Hi as <-. simpl. f_equal. now apply IH.
Qed.

Lemma NoDup_upserted (k : string) (d : offerSchema.doc) (l : list offerSchema.doc) :
  offerSchema.key d = k ->
  NoDup (map offerSchema.key l) -> NoDup (map offerSchema.key (upserted k d l)).
Proof.
  intros Hk Hl. unfold upserted.
  destruct (find_index (Offer.of_key k) l) as [i|] eqn:E.
  - now rewrite (map_key_replace_at k d l i E Hk).
  - rewrite map_app. simpl. apply NoDup_rev in Hl. rewrite <- (rev_involutive (_ ++ _)).
    apply NoDup_rev. rewrite rev_app_distr. simpl. constructor; [|exact Hl].
    rewrite <- in_rev. intros Hin. apply in_map_iff in Hin.
    destruct Hin as [x [Hx Hin]].
    pose proof (proj1 (find_index_None _ _) E x Hin) as F.
    unfold Offer.of_key in F. apply String.eqb_neq in F. congruence.
Qed.

Lemma NoDup_remove_first (k : string) (l : list offerSchema.doc) :
  NoDup (map offerSchema.key l) ->
  NoDup (map offerSchema.key (remove_first (Offer.of_key k) l)).
Proof.
  induction l as [|x l IH]; simpl; intros H; [exact H|].
  inversion H as [|? ? Hx Hl]; subst.
  destruct (Offer.of_key k x); [exact Hl|]. simpl. constructor.
  - intros Hin. apply Hx. clear -Hin.
    induction l as [|y l IH]; simpl in *; [exact Hin|].
    destruct (Offer.of_key k y); [now right|].
    destruct Hin as [H|H]; [now left | right; now apply IH].
  - now apply IH.
Qed.

(** Under the unique index, nothing is left under a key once its first
    offer is removed. *)
Lemma find_remove_first (k : string) (l : list offerSchema.doc) :
  NoDup (map offerSchema.key l) ->
  find (Offer.of_key k) (remove_first (Offer.of_key k) l) = None.
Proof.
  induction l as [|x l IH]; simpl; intros H; [reflexivity|].
  inversion H as [|? ? Hx Hl]; subst.
  destruct (Offer.of_key k x) eqn:E.
  - apply String.eqb_eq in E.
    destruct (find (Offer.of_key k) l) as [y|] eqn:F; [|reflexivity].
    apply find_some in F. destruct F as [Hin Hy].
    apply String.eqb_eq in Hy. destruct Hx. rewrite E, <- Hy.
    now apply in_map.
  - simpl. rewrite E. now apply IH.
Qed.

Section Offers.

Variables (env : Env) (st : Store).
Hypothesis Hdb : db_ok env.

Lemma exec_get_offer :
  exec get_api_offers_latest env st
  = (Ok (mkResponse 200
           match find (Offer.of_key latestOffer) (offers st) with
           | Some o => offer_json o
           | None => JNull
           end),
     mkRun st [(OfferFindOne, Done)]).
Proof.
  unfold exec, get_api_offers_latest, try_catch, bind, Offer.findOne, db_call.
  simpl. rewrite Hdb.
  destruct (find (Offer.of_key latestOffer) (offers st)); reflexivity.
Qed.

Lemma exec_delete_offer :
  exec delete_api_offers_latest env st
  = (Ok (mkResponse 200 JSuccess),
     mkRun (mkStore (images st) (cardDatas st)
              (remove_first (Offer.of_key latestOffer) (offers st))
              (inquiries st))
           [(OfferDeleteOne, Done)]).
Proof.
  unfold exec, delete_api_offers_latest, try_catch, bind, Offer.deleteOne,
    db_call.
  simpl. now rewrite Hdb.
Qed.

Lemma exec_post_offer (req : OfferReq.t) :
  truthy (OfferReq.title req) || truthy (OfferReq.details req)
  || truthy (OfferReq.imageUrl req) = true ->
  let d := offerSchema.Build latestOffer
             (or_empty (OfferReq.title req)) (or_empty (OfferReq.details req))
             (or_empty (OfferReq.imageUrl req)) (now env) in
  exec (post_api_offers_latest req) env st
  = (Ok (mkResponse 200 (offer_json d)),
     mkRun (mkStore (images st) (cardDatas st)
              (upserted latestOffer d (offers st)) (inquiries st))
           [(OfferFindOneAndUpdate, Done)]).
Proof.
  intros Hreq d. unfold exec, post_api_offers_latest.
  assert (G : negb (truthy (Some (or_empty (OfferReq.title req))))
              && negb (truthy (Some (or_empty (OfferReq.details req))))
              && negb (truthy (Some (or_empty (OfferReq.imageUrl req))))
              = false).
  { rewrite !truthy_or_empty.
    destruct (truthy (OfferReq.title req)), (truthy (OfferReq.details req)),
      (truthy (OfferReq.imageUrl req)); simpl in *; congruence. }
  rewrite G.
  unfold try_catch, bind, Date_now, Offer.findOneAndUpdate, db_call. simpl.
  now rewrite Hdb.
Qed.

End Offers.

(** C5: POST /api/offers/latest answers 400 exactly when title, details and
    imageUrl are all empty or absent; otherwise, when the store call
    succeeds, the singleton under the fixed key is upserted with
    [updatedAt] set to the current time, the saved shape is answered, and a
    following GET /api/offers/latest answers exactly the saved title,
    details and imageUrl with that [updatedAt]. *)
Theorem post_offer_then_get_offer (req : OfferReq.t) (env : Env) (st : Store) :
  let post := post_api_offers_latest req in
  let title := or_empty (OfferReq.title req) in
  let details := or_empty (OfferReq.details req) in
  let imageUrl := or_empty (OfferReq.imageUrl req) in
  (status_of (reply post env st) = Some 400
   <-> truthy (OfferReq.title req) = false
       /\ truthy (OfferReq.details req) = false
       /\ truthy (OfferReq.imageUrl req) = false)
  /\ (truthy (OfferReq.title req) || truthy (OfferReq.details req)
      || truthy (OfferReq.imageUrl req) = true ->
      db_ok env ->
      let saved := offerSchema.Build latestOffer title details imageUrl (now env) in
      reply post env st
      = Ok (mkResponse 200 (JOffer title details imageUrl (now env)))
      /\ offers (after post env st) = upserted latestOffer saved (offers st)
      /\ find (Offer.of_key latestOffer) (offers (after post env st)) = Some saved
      /\ forall env2, db_ok env2 ->
           reply get_api_offers_latest env2 (after post env st)
           = Ok (mkResponse 200 (JOffer title details imageUrl (now env)))).
Proof.
  intros post title details imageUrl. split.
  - unfold post, reply, exec, post_api_offers_latest.
    rewrite !truthy_or_empty.
    destruct (truthy (OfferReq.title req)), (truthy (OfferReq.details req)),
      (truthy (OfferReq.imageUrl req)); simpl;
      unfold try_catch, bind, Date_now, Offer.findOneAndUpdate, db_call; simpl;
      try (destruct (db_rejects env 0); simpl);
      split; try discriminate; try tauto;
      intros (? & ? & ?); discriminate.
  - intros Hreq Hdb saved. unfold post, reply, after.
    rewrite (exec_post_offer env st Hdb req Hreq). simpl.
    repeat split.
    + now apply find_upserted.
    + intros env2 H2. rewrite (exec_get_offer env2 _ H2). simpl.
      now rewrite find_upserted.
Qed.

Definition old_offer : offerSchema.doc :=
  offerSchema.Build latestOffer "Summer" "10% off" "s.png" 100.

Definition store_with_offer : Store := mkStore [] [] [old_offer] [].

Lemma post_offer_then_get_offer_witness :
  let req := OfferReq.Build (Some "Monsoon") None (Some "") in
  let post := post_api_offers_latest req in
  reply post (fine "" 200) store_with_offer
  = Ok (mkResponse 200 (JOffer "Monsoon" "" "" 200))
  /\ offers (after post (fine "" 200) store_with_offer)
     = [offerSchema.Build latestOffer "Monsoon" "" "" 200]
  /\ reply get_api_offers_latest (fine "" 300)
       (after post (fine "" 200) store_with_offer)
     = Ok (mkResponse 200 (JOffer "Monsoon" "" "" 200)).
Proof.
  pose proof (post_offer_then_get_offer
                (OfferReq.Build (Some "Monsoon") None (Some ""))
                (fine "" 200) store_with_offer) as [_ H].
  destruct (H eq_refl (db_ok_fine "" 200)) as (H1 & H2 & _ & H4).
  split; [exact H1 | split; [exact H2|]].
  exact (H4 (fine "" 300) (db_ok_fine "" 300)).
Defined.

(** C6: when the store calls succeed, DELETE /api/offers/latest answers
    {success: true} whether or not an offer is stored, and under the unique
    index on [key] a following GET /api/offers/latest answers JSON null. *)
Theorem delete_offer_then_get_offer (env env2 : Env) (st : Store) :
  db_ok env -> db_ok env2 -> offers_unique st ->
  reply delete_api_offers_latest env st = Ok (mkResponse 200 JSuccess)
  /\ reply get_api_offers_latest env2 (after delete_api_offers_latest env st)
     = Ok (mkResponse 200 JNull).
Proof.
  intros H1 H2 Hu. unfold reply, after.
  rewrite (exec_delete_offer env st H1). simpl. split; [reflexivity|].
  rewrite (exec_get_offer env2 _ H2). simpl.
  now rewrite (find_remove_first latestOffer (offers st) Hu).
Qed.

Lemma delete_offer_then_get_offer_witness :
  (reply delete_api_offers_latest (fine "" 1) store_with_offer
   = Ok (mkResponse 200 JSuccess)
   /\ reply get_api_offers_latest (fine "" 2)
        (after delete_api_offers_latest (fine "" 1) store_with_offer)
      = Ok (mkResponse 200 JNull))
  /\ (reply delete_api_offers_latest (fine "" 1) empty_store
      = Ok (mkResponse 200 JSuccess)
      /\ reply get_api_offers_latest (fine "" 2)
           (after delete_api_offers_latest (fine "" 1) empty_store)
         = Ok (mkResponse 200 JNull)).
Proof.
  split.
  - apply (delete_offer_then_get_offer (fine "" 1) (fine "" 2) store_with_offer).
    + apply db_ok_fine.
    + apply db_ok_fine.
    + unfold offers_unique. simpl. constructor; [intros [] | constructor].
  - apply (delete_offer_then_get_offer (fine "" 1) (fine "" 2) empty_store).
    + apply db_ok_fine.
    + apply db_ok_fine.
    + unfold offers_unique. simpl. constructor.
Defined.

(** ** The image upload: [/api/upload] and [/api/images] *)

(** The checks that stand before the [try] block of the upload. *)
Definition upload_checks (req : UploadReq.t) : bool :=
  is_some (UploadReq.file req) && truthy (UploadReq.branch req)
  && Number_isFinite (Number (UploadReq.cardNum req))
  && truthy (UploadReq.slot req).

(** Reads the fields off a request that is given by its parts. *)
Ltac upload_fields :=
  cbn [UploadReq.file UploadReq.branch UploadReq.cardNum UploadReq.slot
       UploadReq.body UploadReq.Build UploadReq.the_branch
       UploadReq.the_cardNum UploadReq.the_slot str].
Ltac upload_fields_in H :=
  cbn [UploadReq.file UploadReq.branch UploadReq.cardNum UploadReq.slot
       UploadReq.body UploadReq.Build UploadReq.the_branch
       UploadReq.the_cardNum UploadReq.the_slot str] in H.

Definition missing_fields : Response :=
  mkResponse 400 (JError "Missing image, branch, cardNum or slot").
Definition upload_failed : Response :=
  mkResponse 500 (JError "Image upload failed").

(** Without a body the handler throws before it does anything. *)
Lemma upload_unparsed (req : UploadReq.t) (env : Env) (st : Store) :
  UploadReq.body req = None ->
  exec (post_api_upload req) env st = (Throw, mkRun st []).
Proof.
  unfold exec, post_api_upload. now intros ->.
Qed.

Lemma upload_checks_unparsed (req : UploadReq.t) :
  UploadReq.body req = None -> upload_checks req = false.
Proof.
  unfold upload_checks, UploadReq.branch. intros ->. simpl.
  now rewrite andb_false_r.
Qed.

Lemma upload_refused (req : UploadReq.t) (env : Env) (st : Store) :
  UploadReq.body req <> None -> upload_checks req = false ->
  exec (post_api_upload req) env st = (Ok missing_fields, mkRun st []).
Proof.
  unfold upload_checks, exec, post_api_upload. intros Hbody H.
  destruct (UploadReq.body req) as [x|] eqn:E; [clear Hbody | congruence].
  destruct (is_some (UploadReq.file req)), (truthy (UploadReq.branch req)),
    (Number_isFinite (Number (UploadReq.cardNum req))),
    (truthy (UploadReq.slot req)); simpl in *; try reflexivity; discriminate.
Qed.

(** A request that fails a check makes no call and leaves the store: it
    is answered 400, or the handler throws when there is no body. *)
Lemma upload_stopped (req : UploadReq.t) (env : Env) (st : Store) :
  upload_checks req = false ->
  exec (post_api_upload req) env st
  = (if is_some (UploadReq.body req) then Ok missing_fields else Throw,
     mkRun st []).
Proof.
  intros H. destruct (UploadReq.body req) as [x|] eqn:E; simpl.
  - apply upload_refused; congruence.
  - now apply upload_unparsed.
Qed.

Lemma find_index_nth {A : Type} (p : A -> bool) (l : list A) (i : nat) :
  find_index p l = Some i -> exists d, nth_error l i = Some d /\ p d = true.
Proof.
  revert i. induction l as [|x l IH]; simpl; intros i H; [discriminate|].
  destruct (p x) eqn:E.
  - injection H as <-. now exists x.
  - destruct (find_index p l) as [j|]; [|discriminate].
    injection H as <-. now apply IH.
Qed.

Section Upload.

Variables (env : Env) (st : Store).
Variables (buf b s : string) (c : field) (q : Q).

Let n : jsnum := Finite q.

(** The collections as the steps of the upload leave them. *)
Definition images_purged : list imageSchema.doc :=
  remove_all (Image.matches n s) (images st).
Definition new_image (u : string) : imageSchema.doc :=
  imageSchema.Build u n s (now env).
Definition card_sets_updated (u : string) : list cardDataSchema.doc :=
  match find_index (CardData.of_branch b) (cardDatas st) with
  | Some i =>
      match nth_error (cardDatas st) i with
      | Some d =>
          replace_at i
            (cardDataSchema.Build (cardDataSchema.branch d)
               (set_card_image n s u (cardDataSchema.cards d)))
            (cardDatas st)
      | None =>
          cardDatas st ++ [cardDataSchema.Build b (set_card_image n s u [])]
      end
  | None => cardDatas st ++ [cardDataSchema.Build b (set_card_image n s u [])]
  end.

Definition st_purged : Store :=
  mkStore images_purged (cardDatas st) (offers st) (inquiries st).
Definition st_image (u : string) : Store :=
  mkStore (images_purged ++ [new_image u]) (cardDatas st) (offers st)
          (inquiries st).
Definition st_uploaded (u : string) : Store :=
  mkStore (images_purged ++ [new_image u]) (card_sets_updated u) (offers st)
          (inquiries st).

(** Every way an upload that passed the checks can go. *)
Inductive upload_run : Result Response * Run -> Prop :=
| cloud_fails :
    cloud env = None ->
    upload_run (Ok upload_failed, mkRun st [(CloudinaryUpload, Rejected)])
| purge_fails u :
    cloud env = Some u -> db_rejects env 1 = true ->
    upload_run (Ok upload_failed,
                mkRun st [(CloudinaryUpload, Done); (ImageDeleteMany, Rejected)])
| image_invalid u :
    cloud env = Some u -> db_rejects env 1 = false ->
    imageSchema.valid (new_image u) = false ->
    upload_run (Ok upload_failed,
                mkRun st_purged
                  [(CloudinaryUpload, Done); (ImageDeleteMany, Done);
                   (ImageSave, Invalid)])
| image_fails u :
    cloud env = Some u -> db_rejects env 1 = false ->
    imageSchema.valid (new_image u) = true -> db_rejects env 2 = true ->
    upload_run (Ok upload_failed,
                mkRun st_purged
                  [(CloudinaryUpload, Done); (ImageDeleteMany, Done);
                   (ImageSave, Rejected)])
| find_fails u :
    cloud env = Some u -> db_rejects env 1 = false ->
    imageSchema.valid (new_image u) = true -> db_rejects env 2 = false ->
    db_rejects env 3 = true ->
    upload_run (Ok upload_failed,
                mkRun (st_image u)
                  [(CloudinaryUpload, Done); (ImageDeleteMany, Done);
                   (ImageSave, Done); (CardDataFindOne, Rejected)])
| cards_fail u :
    cloud env = Some u -> db_rejects env 1 = false ->
    imageSchema.valid (new_image u) = true -> db_rejects env 2 = false ->
    db_rejects env 3 = false -> db_rejects env 4 = true ->
    upload_run (Ok upload_failed,
                mkRun (st_image u)
                  [(CloudinaryUpload, Done); (ImageDeleteMany, Done);
                   (ImageSave, Done); (CardDataFindOne, Done);
                   (CardDataSave, Rejected)])
| uploaded u :
    cloud env = Some u -> db_rejects env 1 = false ->
    imageSchema.valid (new_image u) = true -> db_rejects env 2 = false ->
    db_rejects env 3 = false -> db_rejects env 4 = false ->
    upload_run (Ok (mkResponse 201 (JUploaded u n s b)),
                mkRun (st_uploaded u)
                  [(CloudinaryUpload, Done); (ImageDeleteMany, Done);
                   (ImageSave, Done); (CardDataFindOne, Done);
                   (CardDataSave, Done)]).

Hypothesis Hb : b <> "".
Hypothesis Hs : s <> "".
Hypothesis Hc : Number c = Finite q.

Lemma upload_runs :
  upload_run
    (exec (post_api_upload (UploadReq.Build (Some buf) (Some b) c (Some s)))
          env st).
Proof.
  unfold exec, post_api_upload, UploadReq.branch, UploadReq.cardNum,
    UploadReq.slot, UploadReq.Build.
  simpl. rewrite Hc. simpl.
  rewrite (proj2 (String.eqb_neq b "") Hb), (proj2 (String.eqb_neq s "") Hs).
  simpl.
  unfold try_catch, bind, uploadToCloudinary. simpl.
  destruct (cloud env) as [u|] eqn:Hu; [|now apply cloud_fails].
  unfold Image.deleteMany, db_call at 1. simpl.
  destruct (db_rejects env 1) eqn:R1; [now apply (purge_fails u)|].
  unfold Image.new, bind, Date_now, ret. simpl. unfold Image.save.
  fold n. fold (new_image u).
  destruct (imageSchema.valid (new_image u)) eqn:V;
    [|now apply (image_invalid u)].
  unfold db_call at 1. simpl.
  destruct (db_rejects env 2) eqn:R2; [now apply (image_fails u)|].
  unfold CardData.findOne, db_call at 1. simpl.
  destruct (db_rejects env 3) eqn:R3; [now apply (find_fails u)|].
  simpl.
  pose proof (uploaded u Hu R1 V R2 R3) as Fin.
  unfold st_uploaded, card_sets_updated in Fin.
  destruct (find_index (CardData.of_branch b) (cardDatas st)) as [i|] eqn:F.
  - destruct (find_index_nth _ _ _ F) as [d [Hd Hp]]. rewrite Hd in *. simpl.
    unfold CardData.save, cardDataSchema.valid. simpl.
    apply String.eqb_eq in Hp. rewrite Hp, (required_string_true b Hb).
    unfold db_call. simpl.
    destruct (db_rejects env 4) eqn:R4; [now apply (cards_fail u)|].
    rewrite Hp in Fin. now apply Fin.
  - simpl. unfold CardData.save, cardDataSchema.valid. simpl.
    rewrite (required_string_true b Hb). unfold db_call. simpl.
    destruct (db_rejects env 4) eqn:R4; [now apply (cards_fail u)|].
    now apply Fin.
Qed.

End Upload.

(** A request that passes the checks has all its parts. *)
Lemma upload_checks_true (req : UploadReq.t) :
  upload_checks req = true ->
  exists buf b s q,
    req = UploadReq.Build (Some buf) (Some b) (UploadReq.cardNum req) (Some s)
    /\ b <> "" /\ s <> "" /\ Number (UploadReq.cardNum req) = Finite q.
Proof.
  unfold upload_checks, UploadReq.branch, UploadReq.cardNum, UploadReq.slot,
    UploadReq.Build.
  destruct req as [[buf|] [[[b|] c [s|]]|]]; simpl;
    rewrite ?andb_false_r; try discriminate.
  intros H. apply andb_prop in H. destruct H as [H Hs].
  apply andb_prop in H. destruct H as [Hb Hc].
  destruct (Number c) as [| |q] eqn:E; try discriminate.
  exists buf, b, s, q. repeat split; try (now apply truthy_Some).
Qed.


Lemma matches_new_image (env : Env) (s : string) (q : Q) (u : string) :
  Image.matches (Finite q) s (new_image env s q u) = true.
Proof.
  unfold Image.matches, new_image. simpl.
  rewrite String.eqb_refl, andb_true_r. apply Qeq_bool_iff. reflexivity.
Qed.

Lemma filter_purged (env : Env) (st : Store) (s : string) (q : Q) (u : string) :
  filter (Image.matches (Finite q) s)
         (images_purged st s q ++ [new_image env s q u])
  = [new_image env s q u].
Proof.
  unfold images_purged. rewrite filter_app, filter_remove_all. simpl.
  now rewrite matches_new_image.
Qed.

(** What the image listing does on a working store when both filters are
    given and the card number is a finite number. *)
Lemma exec_get_images (X s : string) (q : Q) (env : Env) (st : Store) :
  X <> "" -> s <> "" -> Number (Some X) = Finite q -> db_ok env ->
  exec (get_api_images (ImagesQuery.Build (Some X) (Some s))) env st
  = (Ok (mkResponse 200
           (JImages (sort_by imageSchema.createdAt
                       (filter (Image.matches (Finite q) s) (images st))))),
     mkRun st [(ImageFind, Done)]).
Proof.
  intros HX Hs HN Hdb. unfold exec, get_api_images. simpl.
  rewrite (proj2 (String.eqb_neq X "") HX), (proj2 (String.eqb_neq s "") Hs).
  simpl. unfold try_catch, bind, Image.find_sorted, Image.cast_cardNum,
    castNumber.
  rewrite (proj2 (String.eqb_neq X "") HX). simpl in HN. rewrite HN.
  unfold db_call. simpl. rewrite Hdb. reflexivity.
Qed.

(** The upload answers 400 exactly when it has a body and a check
    fails. *)
Lemma upload_status_400 (req : UploadReq.t) (env : Env) (st : Store) :
  status_of (reply (post_api_upload req) env st) = Some 400
  <-> UploadReq.body req <> None /\ upload_checks req = false.
Proof.
  unfold reply. destruct (upload_checks req) eqn:Hchk.
  - destruct (upload_checks_true req Hchk) as (buf & b & s & q & Hreq & Hb & Hs & Hq).
    rewrite Hreq.
    pose proof (upload_runs env st buf b s (UploadReq.cardNum req) q Hb Hs Hq) as R.
    inversion R; simpl; split; try discriminate; now intros [_ ?].
  - rewrite (upload_stopped req env st Hchk).
    destruct (UploadReq.body req); simpl.
    + split; [split; [discriminate | reflexivity] | reflexivity].
    + split; [discriminate | now intros [? _]].
Qed.

(** What an upload that answers 201 has done to the images. *)
Lemma upload_status_201 (req : UploadReq.t) (env : Env) (st : Store) :
  status_of (reply (post_api_upload req) env st) = Some 201 ->
  exists u q,
    Number (UploadReq.cardNum req) = Finite q
    /\ str (UploadReq.slot req) <> ""
    /\ cloud env = Some u
    /\ reply (post_api_upload req) env st
       = Ok (mkResponse 201
               (JUploaded u (Finite q) (str (UploadReq.slot req))
                  (str (UploadReq.branch req))))
    /\ images (after (post_api_upload req) env st)
       = images_purged st (str (UploadReq.slot req)) q
         ++ [new_image env (str (UploadReq.slot req)) q u].
Proof.
  intros H201. destruct (upload_checks req) eqn:Hchk.
  - destruct (upload_checks_true req Hchk) as (buf & b & s & q & Hreq & Hb & Hs & Hq).
    revert H201. rewrite Hq. rewrite Hreq. simpl.
    unfold reply, after.
    pose proof (upload_runs env st buf b s (UploadReq.cardNum req) q Hb Hs Hq) as R.
    inversion R as [ | | | | | |u Hu R1 V R2 R3 R4 E]; simpl;
      try discriminate.
    intros _. exists u, q. repeat split; assumption.
  - unfold reply in H201. rewrite (upload_stopped req env st Hchk) in H201.
    now destruct (UploadReq.body req).
Qed.

(** C2: after a successful POST /api/upload (status 201) for a pair
    (cardNum, slot), the image collection holds exactly one ImageSlot for
    the pair, the one with the URL the upload answered: the records
    stored before for the pair are deleted, the other records are kept;
    and a following GET /api/images?cardNum=X&slot=Y for that pair, on a
    working store, answers exactly that record. *)
Theorem upload_supersedes_image_slot (req : UploadReq.t) (env : Env) (st : Store) :
  status_of (reply (post_api_upload req) env st) = Some 201 ->
  let n := Number (UploadReq.cardNum req) in
  let s := str (UploadReq.slot req) in
  let st' := after (post_api_upload req) env st in
  exists u,
    reply (post_api_upload req) env st
    = Ok (mkResponse 201 (JUploaded u n s (str (UploadReq.branch req))))
    /\ images st'
       = remove_all (Image.matches n s) (images st)
         ++ [imageSchema.Build u n s (now env)]
    /\ filter (Image.matches n s) (images st')
       = [imageSchema.Build u n s (now env)]
    /\ forall (X : string) (env2 : Env),
         X <> "" -> Number (Some X) = n -> db_ok env2 ->
         reply (get_api_images (ImagesQuery.Build (Some X) (Some s))) env2 st'
         = Ok (mkResponse 200 (JImages [imageSchema.Build u n s (now env)])).
Proof.
  intros H201 n s st'. subst n s st'.
  destruct (upload_status_201 req env st H201) as (u & q & Hq & Hs & _ & H1 & H2).
  rewrite Hq in *. exists u. split; [exact H1|]. split; [exact H2|].
  rewrite H2. split; [apply filter_purged|].
  intros X env2 HX HN Hdb.
  unfold reply. rewrite (exec_get_images X _ q env2 _ HX Hs HN Hdb). simpl.
  rewrite H2. now rewrite filter_purged.
Qed.

Definition old_image : imageSchema.doc :=
  imageSchema.Build "https://res/old.png" (Finite (3 # 1)) "before" 10.
Definition other_image : imageSchema.doc :=
  imageSchema.Build "https://res/other.png" (Finite (3 # 1)) "after" 11.

Definition store_with_images : Store :=
  mkStore [old_image; other_image] [cardDataSchema.Build "branch1" [card1]] [] [].

Definition upload3 : UploadReq.t :=
  UploadReq.Build (Some "PNG") (Some "branch1") (Some "3") (Some "before").

Lemma upload_supersedes_image_slot_witness :
  exists u,
    reply (post_api_upload upload3) (fine "https://res/new.png" 50)
          store_with_images
    = Ok (mkResponse 201 (JUploaded u (Finite (3 # 1)) "before" "branch1"))
    /\ images (after (post_api_upload upload3) (fine "https://res/new.png" 50)
                 store_with_images)
       = [other_image; imageSchema.Build u (Finite (3 # 1)) "before" 50]
    /\ reply (get_api_images (ImagesQuery.Build (Some "3.0") (Some "before")))
         (fine "" 60)
         (after (post_api_upload upload3) (fine "https://res/new.png" 50)
            store_with_images)
       = Ok (mkResponse 200
               (JImages [imageSchema.Build u (Finite (3 # 1)) "before" 50])).
Proof.
  destruct (upload_supersedes_image_slot upload3 (fine "https://res/new.png" 50)
              store_with_images eq_refl) as (u & H1 & H2 & _ & H4).
  exists u. split; [exact H1 | split].
  - rewrite H2. reflexivity.
  - apply (H4 "3.0" (fine "" 60)).
    + discriminate.
    + vm_compute. reflexivity.
    + apply db_ok_fine.
Defined.

(** The calls of an upload: none, or the Cloudinary upload first, and more
    calls only after it succeeded. *)
Lemma upload_calls_shape (req : UploadReq.t) (env : Env) (st : Store) :
  calls (post_api_upload req) env st = []
  \/ calls (post_api_upload req) env st = [(CloudinaryUpload, Rejected)]
  \/ exists rest, calls (post_api_upload req) env st
                  = (CloudinaryUpload, Done) :: rest.
Proof.
  unfold calls. destruct (upload_checks req) eqn:Hchk.
  - destruct (upload_checks_true req Hchk) as (buf & b & s & q & Hreq & Hb & Hs & Hq).
    rewrite Hreq.
    pose proof (upload_runs env st buf b s (UploadReq.cardNum req) q Hb Hs Hq) as R.
    inversion R; simpl; eauto.
  - rewrite (upload_stopped req env st Hchk). now left.
Qed.

(** C3: in the upload handler every write to the document store comes
    after the remote upload, which has succeeded by then; and when the
    remote upload fails the handler answers 500 and leaves every
    collection as it was. *)
Theorem upload_remote_before_store (req : UploadReq.t) (env : Env) (st : Store) :
  (forall i c o,
      nth_error (calls (post_api_upload req) env st) i = Some (c, o) ->
      is_write c = true ->
      exists j, (j < i)%nat
                /\ nth_error (calls (post_api_upload req) env st) j
                   = Some (CloudinaryUpload, Done))
  /\ (In (CloudinaryUpload, Rejected) (calls (post_api_upload req) env st) ->
      reply (post_api_upload req) env st = Ok upload_failed
      /\ after (post_api_upload req) env st = st
      /\ calls (post_api_upload req) env st = [(CloudinaryUpload, Rejected)]).
Proof.
  split.
  - intros i c o Hi Hw.
    destruct (upload_calls_shape req env st) as [E|[E|[rest E]]];
      rewrite E in *.
    + destruct i; discriminate.
    + destruct i as [|[|i]]; simpl in Hi; try discriminate.
      injection Hi as <- <-. discriminate.
    + destruct i as [|i]; simpl in Hi.
      * injection Hi as <- <-. discriminate.
      * exists 0%nat. split; [lia | reflexivity].
  - unfold reply, after, calls. destruct (upload_checks req) eqn:Hchk.
    + destruct (upload_checks_true req Hchk) as (buf & b & s & q & Hreq & Hb & Hs & Hq).
      rewrite Hreq.
      pose proof (upload_runs env st buf b s (UploadReq.cardNum req) q Hb Hs Hq) as R.
      inversion R; simpl; intros Hin;
        try (repeat split; reflexivity);
        repeat (destruct Hin as [Hin|Hin]; [discriminate|]); destruct Hin.
    + rewrite (upload_stopped req env st Hchk). simpl. intros [].
Qed.

Definition cloud_down (t : Z) : Env := mkEnv None (fun _ => false) false t.

Lemma upload_remote_before_store_witness :
  (exists j, (j < 4)%nat
             /\ nth_error (calls (post_api_upload upload3)
                             (fine "https://res/new.png" 50) store_with_images) j
                = Some (CloudinaryUpload, Done))
  /\ (reply (post_api_upload upload3) (cloud_down 50) store_with_images
      = Ok upload_failed
      /\ after (post_api_upload upload3) (cloud_down 50) store_with_images
         = store_with_images
      /\ calls (post_api_upload upload3) (cloud_down 50) store_with_images
         = [(CloudinaryUpload, Rejected)]).
Proof.
  split.
  - apply (proj1 (upload_remote_before_store upload3
                    (fine "https://res/new.png" 50) store_with_images)
             4%nat CardDataSave Done); reflexivity.
  - apply (proj2 (upload_remote_before_store upload3 (cloud_down 50)
                    store_with_images)).
    left. reflexivity.
Defined.





(** C9: a non-empty slot string outside the enum passes the checks that
    answer 400.  The request then always ends in 500 and never touches
    the card sets, so neither [beforeImg] nor [afterImg] of any card is
    set; when the remote upload and the ImageSlot delete succeed, both are
    carried out, and the handler fails at the ImageSlot insert, which
    Mongoose refuses. *)
Theorem upload_slot_outside_enum
    (req : UploadReq.t) (s : string) (env : Env) (st : Store) :
  UploadReq.file req <> None ->
  truthy (UploadReq.branch req) = true ->
  Number_isFinite (Number (UploadReq.cardNum req)) = true ->
  UploadReq.slot req = Some s -> s <> "" -> imageSchema.in_enum s = false ->
  upload_checks req = true
  /\ status_of (reply (post_api_upload req) env st) <> Some 400
  /\ reply (post_api_upload req) env st = Ok upload_failed
  /\ cardDatas (after (post_api_upload req) env st) = cardDatas st
  /\ (forall u, cloud env = Some u -> db_rejects env 1 = false ->
        calls (post_api_upload req) env st
        = [(CloudinaryUpload, Done); (ImageDeleteMany, Done);
           (ImageSave, Invalid)]
        /\ images (after (post_api_upload req) env st)
           = remove_all (Image.matches (Number (UploadReq.cardNum req)) s)
                        (images st)).
Proof.
  intros Hf Hbr Hn Hslot Hs He.
  assert (Hchk : upload_checks req = true).
  { unfold upload_checks. rewrite Hbr, Hn, Hslot. simpl.
    rewrite (proj2 (String.eqb_neq s "") Hs).
    destruct (UploadReq.file req); [reflexivity | contradiction]. }
  split; [exact Hchk|].
  destruct (upload_checks_true req Hchk) as (buf & b & s' & q & Hreq & Hb & Hs' & Hq).
  assert (s' = s) by (rewrite Hreq in Hslot; cbv in Hslot; congruence).
  subst s'. unfold reply, after, calls. rewrite Hq. rewrite Hreq.
  pose proof (upload_runs env st buf b s (UploadReq.cardNum req) q Hb Hs Hq) as R.
  assert (V : forall u, imageSchema.valid (new_image env s q u) = false).
  { intros u. unfold imageSchema.valid, new_image. simpl. rewrite He.
    now rewrite andb_false_r. }
  inversion R as [Hu E|u Hu R1 E|u Hu R1 V' E|u Hu R1 V' R2 E|u Hu R1 V' R2 R3 E
                  |u Hu R1 V' R2 R3 R4 E|u Hu R1 V' R2 R3 R4 E]; simpl;
    try (rewrite V in V'; discriminate);
    (split; [discriminate|]); (split; [reflexivity|]); (split; [reflexivity|]);
    intros u' Hu' R1'; try congruence.
  split; reflexivity.
Qed.

Lemma upload_slot_outside_enum_witness :
  let req := UploadReq.Build (Some "PNG") (Some "branch1") (Some "3")
                             (Some "middle") in
  let env := fine "https://res/new.png" 50 in
  status_of (reply (post_api_upload req) env store_with_images) <> Some 400
  /\ reply (post_api_upload req) env store_with_images = Ok upload_failed
  /\ cardDatas (after (post_api_upload req) env store_with_images)
     = cardDatas store_with_images
  /\ calls (post_api_upload req) env store_with_images
     = [(CloudinaryUpload, Done); (ImageDeleteMany, Done); (ImageSave, Invalid)].
Proof.
  intros req env.
  destruct (upload_slot_outside_enum req "middle" env store_with_images)
    as (_ & H1 & H2 & H3 & H4); try reflexivity; try discriminate.
  split; [exact H1 | split; [exact H2 | split; [exact H3|]]].
  exact (proj1 (H4 "https://res/new.png" eq_refl eq_refl)).
Defined.

Lemma drop_ws_blank (l : list ascii) : forallb is_ws l = true -> drop_ws l = [].
Proof.
  induction l as [|c l IH]; simpl; [reflexivity|].
  destruct (is_ws c); simpl; [exact IH | discriminate].
Qed.

(** [Number] of a string of white space only, the empty string included,
    is 0. *)
Lemma Number_blank (ws : string) :
  forallb is_ws (list_ascii_of_string ws) = true ->
  Number (Some ws) = Finite (0 # 1).
Proof.
  intros H. unfold Number, StringToNumber, trim.
  now rewrite (drop_ws_blank _ H).
Qed.

Lemma Number_zero : Number (Some "0") = Finite (0 # 1).
Proof. vm_compute. reflexivity. Qed.

(** The upload depends on the cardNum field through its number only. *)
Lemma upload_by_number (f : option string) (br c1 c2 sl : field) :
  Number c1 = Number c2 ->
  post_api_upload (UploadReq.Build f br c1 sl)
  = post_api_upload (UploadReq.Build f br c2 sl).
Proof.
  intros E. unfold post_api_upload.
  upload_fields.
  now rewrite E.
Qed.

(** C10: a cardNum field that is the empty string or white space only is
    not rejected: its number is 0, which is finite, so with the other
    parts present the request passes the checks, and it is handled in all
    respects as the upload for card number 0; when it succeeds the answer
    and the stored ImageSlot carry card number 0. *)
Theorem upload_blank_cardNum
    (ws : string) (f : option string) (br sl : field) (env : Env) (st : Store) :
  forallb is_ws (list_ascii_of_string ws) = true ->
  let req := UploadReq.Build f br (Some ws) sl in
  Number (Some ws) = Finite (0 # 1)
  /\ Number_isFinite (Number (Some ws)) = true
  /\ (f <> None -> truthy br = true -> truthy sl = true ->
      upload_checks req = true
      /\ status_of (reply (post_api_upload req) env st) <> Some 400)
  /\ exec (post_api_upload req) env st
     = exec (post_api_upload (UploadReq.Build f br (Some "0") sl)) env st
  /\ (status_of (reply (post_api_upload req) env st) = Some 201 ->
      exists u,
        reply (post_api_upload req) env st
        = Ok (mkResponse 201 (JUploaded u (Finite (0 # 1)) (str sl) (str br)))
        /\ In (imageSchema.Build u (Finite (0 # 1)) (str sl) (now env))
              (images (after (post_api_upload req) env st))).
Proof.
  intros Hws req. pose proof (Number_blank ws Hws) as H0.
  split; [exact H0|]. split; [now rewrite H0|].
  assert (Hchk : f <> None -> truthy br = true -> truthy sl = true ->
                 upload_checks req = true).
  { intros Hf Hb Hs. unfold upload_checks, req.
    upload_fields.
    rewrite H0, Hb, Hs. destruct f; [reflexivity | contradiction]. }
  split; [|split].
  - intros Hf Hb Hs. split; [now apply Hchk|].
    intros E. apply upload_status_400 in E. destruct E as [_ E].
    rewrite (Hchk Hf Hb Hs) in E. discriminate.
  - unfold req. rewrite (upload_by_number f br (Some ws) (Some "0") sl);
      [reflexivity|]. now rewrite H0, Number_zero.
  - intros H201.
    destruct (upload_status_201 req env st H201)
      as (u & q & Hq & _ & _ & H1 & H2).
    unfold req in Hq.
    upload_fields_in Hq.
    rewrite H0 in Hq. injection Hq as <-.
    exists u. split; [exact H1|].
    rewrite H2. apply in_or_app. right. now left.
Qed.

Lemma upload_blank_cardNum_witness :
  let req := UploadReq.Build (Some "PNG") (Some "branch1") (Some "  ")
                             (Some "after") in
  let env := fine "https://res/new.png" 50 in
  Number (Some "  ") = Finite (0 # 1)
  /\ status_of (reply (post_api_upload req) env store_with_images) <> Some 400
  /\ exists u,
       reply (post_api_upload req) env store_with_images
       = Ok (mkResponse 201 (JUploaded u (Finite (0 # 1)) "after" "branch1"))
       /\ In (imageSchema.Build u (Finite (0 # 1)) "after" 50)
             (images (after (post_api_upload req) env store_with_images)).
Proof.
  intros req env.
  destruct (upload_blank_cardNum "  " (Some "PNG") (Some "branch1")
              (Some "after") env store_with_images eq_refl)
    as (H1 & _ & H2 & _ & H3).
  split; [exact H1|]. split.
  - apply H2; [discriminate | reflexivity | reflexivity].
  - apply H3. reflexivity.
Defined.

(** ** Contact inquiries: [/api/contact/inquiries] *)

(** Whether the handler tries to send the notification. *)
Definition notifies (cfg : Config) : bool :=
  mailTransporter cfg && truthy (Some (CONTACT_TO_EMAIL cfg))
  && truthy (Some (CONTACT_FROM_EMAIL cfg)).

Definition inquiry_checks (req : InquiryReq.t) : bool :=
  truthy (InquiryReq.name req) && truthy (InquiryReq.email req)
  && truthy (InquiryReq.message req).

(** The inquiry that a request stores. *)
Definition inquiry_of (req : InquiryReq.t) (t : Z) : contactInquirySchema.doc :=
  contactInquirySchema.Build (str (InquiryReq.name req))
    (str (InquiryReq.email req)) (or_empty (InquiryReq.phone req))
    (str (InquiryReq.message req)) t.

Lemma inquiry_refused (cfg : Config) (req : InquiryReq.t) (env : Env) (st : Store) :
  inquiry_checks req = false ->
  exec (post_api_contact_inquiries cfg req) env st
  = (Ok (mkResponse 400 (JError "Missing required fields")), mkRun st []).
Proof.
  unfold inquiry_checks, exec, post_api_contact_inquiries.
  destruct (truthy (InquiryReq.name req)), (truthy (InquiryReq.email req)),
    (truthy (InquiryReq.message req)); simpl; try reflexivity; discriminate.
Qed.

Lemma truthy_required (v : field) :
  truthy v = true -> required_string (str v) = true.
Proof.
  destruct v as [s|]; simpl; [|discriminate]. intros H. exact H.
Qed.

(** An inquiry that passed the checks, on a store that takes the insert:
    the notification decides the flag only. *)
Lemma exec_inquiry (cfg : Config) (req : InquiryReq.t) (env : Env) (st : Store) :
  inquiry_checks req = true -> db_rejects env 0 = false ->
  exec (post_api_contact_inquiries cfg req) env st
  = (Ok (mkResponse 201
           (JInquiry (inquiry_of req (now env))
                     (notifies cfg && negb (mail_rejects env)))),
     mkRun (mkStore (images st) (cardDatas st) (offers st)
              (inquiries st ++ [inquiry_of req (now env)]))
           ((ContactInquiryCreate, Done)
            :: if notifies cfg
               then [(SendMail, if mail_rejects env then Rejected else Done)]
               else [])).
Proof.
  unfold inquiry_checks, exec, post_api_contact_inquiries. intros Hchk Hdb.
  apply andb_prop in Hchk. destruct Hchk as [Hchk Hm].
  apply andb_prop in Hchk. destruct Hchk as [Hn He].
  rewrite Hn, He, Hm. fold (notifies cfg).
  cbn [negb orb].
  unfold try_catch at 1, bind at 1, ContactInquiry.create, bind at 1, Date_now.
  unfold contactInquirySchema.valid.
  cbn [contactInquirySchema.name contactInquirySchema.email
       contactInquirySchema.message].
  rewrite (truthy_required _ Hn), (truthy_required _ He), (truthy_required _ Hm).
  cbn [andb]. unfold db_call. cbn [trace length]. rewrite Hdb.
  unfold inquiry_of.
  destruct (notifies cfg); cbn [andb].
  - unfold bind, try_catch, sendMail, ret, status_json, log.
    destruct (mail_rejects env); reflexivity.
  - reflexivity.
Qed.

(** An inquiry that passed the checks, on a store that rejects the
    insert. *)
Lemma exec_inquiry_rejected
    (cfg : Config) (req : InquiryReq.t) (env : Env) (st : Store) :
  inquiry_checks req = true -> db_rejects env 0 = true ->
  exec (post_api_contact_inquiries cfg req) env st
  = (Ok (mkResponse 500 (JError "Failed to save inquiry")),
     mkRun st [(ContactInquiryCreate, Rejected)]).
Proof.
  unfold inquiry_checks, exec, post_api_contact_inquiries. intros Hchk Hdb.
  apply andb_prop in Hchk. destruct Hchk as [Hchk Hm].
  apply andb_prop in Hchk. destruct Hchk as [Hn He].
  rewrite Hn, He, Hm. simpl.
  unfold try_catch at 1, bind at 1, ContactInquiry.create, bind, Date_now.
  unfold contactInquirySchema.valid. simpl.
  rewrite (truthy_required _ Hn), (truthy_required _ He), (truthy_required _ Hm).
  simpl. unfold db_call. simpl. now rewrite Hdb.
Qed.

(** C7: POST /api/contact/inquiries answers 400 exactly when name, email
    or message is missing or empty.  On valid input, when the store takes
    the insert, the inquiry is persisted and the answer is 201 with the
    persisted inquiry and the [emailSent] flag, whatever the notification
    does: the flag is true exactly when a transport is configured and the
    send succeeds, and a failed send or no transport only makes it
    false. *)
Theorem post_inquiry_answers
    (cfg : Config) (req : InquiryReq.t) (env : Env) (st : Store) :
  let post := post_api_contact_inquiries cfg req in
  (status_of (reply post env st) = Some 400
   <-> truthy (InquiryReq.name req) = false
       \/ truthy (InquiryReq.email req) = false
       \/ truthy (InquiryReq.message req) = false)
  /\ (inquiry_checks req = true -> db_rejects env 0 = false ->
      exists emailSent : bool,
        reply post env st
        = Ok (mkResponse 201 (JInquiry (inquiry_of req (now env)) emailSent))
        /\ inquiries (after post env st)
           = inquiries st ++ [inquiry_of req (now env)]
        /\ (emailSent = true <-> notifies cfg = true /\ mail_rejects env = false)
        /\ (notifies cfg = false \/ mail_rejects env = true -> emailSent = false)).
Proof.
  intros post. split.
  - unfold post, reply. destruct (inquiry_checks req) eqn:Hchk.
    + assert (N : ~ (truthy (InquiryReq.name req) = false
                     \/ truthy (InquiryReq.email req) = false
                     \/ truthy (InquiryReq.message req) = false)).
      { unfold inquiry_checks in Hchk.
        destruct (truthy (InquiryReq.name req)),
          (truthy (InquiryReq.email req)), (truthy (InquiryReq.message req));
          simpl in Hchk; try discriminate. intuition discriminate. }
      destruct (db_rejects env 0) eqn:Hdb.
      * rewrite (exec_inquiry_rejected cfg req env st Hchk Hdb). simpl.
        split; [discriminate | tauto].
      * rewrite (exec_inquiry cfg req env st Hchk Hdb). simpl.
        split; [discriminate | tauto].
    + rewrite (inquiry_refused cfg req env st Hchk). simpl.
      split; [intros _ | reflexivity].
      unfold inquiry_checks in Hchk.
      destruct (truthy (InquiryReq.name req)),
        (truthy (InquiryReq.email req)), (truthy (InquiryReq.message req));
        simpl in Hchk; try discriminate; tauto.
  - intros Hchk Hdb. exists (notifies cfg && negb (mail_rejects env)).
    unfold post, reply, after.
    rewrite (exec_inquiry cfg req env st Hchk Hdb). simpl.
    split; [reflexivity|]. split; [reflexivity|].
    destruct (notifies cfg), (mail_rejects env); simpl;
      intuition discriminate.
Qed.

Definition no_relay : Config := mkConfig "" "" "" false.
Definition relay : Config :=
  mkConfig "owner@zumba.example" "site@zumba.example" "smtp.zumba.example" true.
Definition mail_down (t : Z) : Env := mkEnv None (fun _ => false) true t.

Definition inquiry_A : InquiryReq.t :=
  InquiryReq.Build (Some "A") (Some "a@b.com") None (Some "hi").

Lemma post_inquiry_answers_witness :
  (reply (post_api_contact_inquiries no_relay inquiry_A) (fine "" 9) empty_store
   = Ok (mkResponse 201
           (JInquiry (contactInquirySchema.Build "A" "a@b.com" "" "hi" 9) false)))
  /\ (reply (post_api_contact_inquiries relay inquiry_A) (mail_down 9) empty_store
      = Ok (mkResponse 201
              (JInquiry (contactInquirySchema.Build "A" "a@b.com" "" "hi" 9) false)))
  /\ (reply (post_api_contact_inquiries relay inquiry_A) (fine "" 9) empty_store
      = Ok (mkResponse 201
              (JInquiry (contactInquirySchema.Build "A" "a@b.com" "" "hi" 9) true))).
Proof.
  split; [|split].
  - destruct (proj2 (post_inquiry_answers no_relay inquiry_A (fine "" 9)
                       empty_store) eq_refl eq_refl) as (sent & H1 & _ & _ & H4).
    rewrite H1. now rewrite (H4 (or_introl eq_refl)).
  - destruct (proj2 (post_inquiry_answers relay inquiry_A (mail_down 9)
                       empty_store) eq_refl eq_refl) as (sent & H1 & _ & _ & H4).
    rewrite H1. now rewrite (H4 (or_intror eq_refl)).
  - destruct (proj2 (post_inquiry_answers relay inquiry_A (fine "" 9)
                       empty_store) eq_refl eq_refl) as (sent & H1 & _ & H3 & _).
    rewrite H1. now rewrite (proj2 H3 (conj eq_refl eq_refl)).
Defined.

(** ** Invariants of the store *)

(** The requests that reach the modelled routes, and their handlers.  A
    request to [/api/upload] is given as the handler gets it
    ([PostUpload]) or as it arrives, before multer ([PostUploadForm]).
    A request that a body parser of the application rejects (JSON that
    does not parse, say) reaches no route and is not among them. *)
Inductive Request : Type :=
| PostUpload (req : UploadReq.t)
| GetImages (q : ImagesQuery.t)
| PostSaveCards (req : SaveCardsReq.t)
| GetLoadCards (branch : field)
| GetOffer
| PostOffer (req : OfferReq.t)
| DeleteOffer
| PostInquiry (req : InquiryReq.t)
| PostUploadForm (form : UploadForm.t).

Definition route (cfg : Config) (r : Request) : M Response :=
  match r with
  | PostUpload req => post_api_upload req
  | GetImages q => get_api_images q
  | PostSaveCards req => post_api_save_cards req
  | GetLoadCards branch => get_api_load_cards branch
  | GetOffer => get_api_offers_latest
  | PostOffer req => post_api_offers_latest req
  | DeleteOffer => delete_api_offers_latest
  | PostInquiry req => post_api_contact_inquiries cfg req
  | PostUploadForm form => app_post_api_upload form
  end.

(** The stores the server can be in: it starts empty and serves requests
    one after the other, in any environment. *)
Inductive Reachable (cfg : Config) : Store -> Prop :=
| reach_start : Reachable cfg empty_store
| reach_step st r env :
    Reachable cfg st -> Reachable cfg (after (route cfg r) env st).

Section Keeps.

Variable P : Store -> Prop.

(** A computation keeps [P] when it holds of the store afterwards
    whenever it held before, whether the computation returns or
    throws. *)
Definition keeps {A : Type} (m : M A) : Prop :=
  forall env r, P (store r) -> P (store (snd (m env r))).

Lemma keeps_ret {A : Type} (a : A) : keeps (ret a).
Proof. intros env r H. exact H. Qed.

Lemma keeps_bind {A B : Type} (m : M A) (k : A -> M B) :
  keeps m -> (forall a, keeps (k a)) -> keeps (bind m k).
Proof.
  intros Hm Hk env r H. unfold bind. specialize (Hm env r H).
  destruct (m env r) as [[a|] r']; simpl in *; [now apply Hk | exact Hm].
Qed.

Lemma keeps_try_catch {A : Type} (body handler : M A) :
  keeps body -> keeps handler -> keeps (try_catch body handler).
Proof.
  intros Hb Hh env r H. unfold try_catch. specialize (Hb env r H).
  destruct (body env r) as [[a|] r']; simpl in *; [exact Hb | now apply Hh].
Qed.

Lemma keeps_db_call {A : Type} (c : Call) (f : Store -> A * Store) :
  (forall s, P s -> P (snd (f s))) -> keeps (db_call c f).
Proof.
  intros Hf env r H. unfold db_call.
  destruct (db_rejects env (length (trace r))); simpl; [exact H|].
  specialize (Hf (store r) H). destruct (f (store r)). exact Hf.
Qed.

Lemma keeps_refuse {A : Type} (c : Call) : keeps (@refuse A c).
Proof. intros env r H. exact H. Qed.

Lemma keeps_throw {A : Type} : keeps (@throw A).
Proof. intros env r H. exact H. Qed.

Lemma keeps_Date_now : keeps Date_now.
Proof. intros env r H. exact H. Qed.

Lemma keeps_uploadToCloudinary (buffer : string) :
  keeps (uploadToCloudinary buffer).
Proof.
  intros env r H. unfold uploadToCloudinary. destruct (cloud env); exact H.
Qed.

Lemma keeps_sendMail : keeps sendMail.
Proof.
  intros env r H. unfold sendMail. destruct (mail_rejects env); exact H.
Qed.

Lemma keeps_status_json (code : Z) (b : Body) : keeps (status_json code b).
Proof. apply keeps_ret. Qed.

(** [P] looks at some collections only: the hypotheses say which calls
    may change them. *)
Hypothesis P_cards :
  forall s c, P s -> P (mkStore (images s) c (offers s) (inquiries s)).
Hypothesis P_inquiries :
  forall s q, P s -> P (mkStore (images s) (cardDatas s) (offers s) q).
Hypothesis P_purge :
  forall s n sl, P s ->
    P (mkStore (remove_all (Image.matches n sl) (images s)) (cardDatas s)
               (offers s) (inquiries s)).
Hypothesis P_image :
  forall s d, P s -> imageSchema.valid d = true ->
    P (mkStore (images s ++ [d]) (cardDatas s) (offers s) (inquiries s)).
Hypothesis P_upsert :
  forall s d, P s -> offerSchema.key d = latestOffer ->
    P (mkStore (images s) (cardDatas s) (upserted latestOffer d (offers s))
               (inquiries s)).
Hypothesis P_delete :
  forall s, P s ->
    P (mkStore (images s) (cardDatas s)
               (remove_first (Offer.of_key latestOffer) (offers s))
               (inquiries s)).

Ltac keeps_step :=
  first
    [ apply keeps_status_json
    | apply keeps_ret
    | apply keeps_Date_now
    | apply keeps_uploadToCloudinary
    | apply keeps_sendMail
    | apply keeps_refuse
    | apply keeps_throw
    | apply keeps_try_catch
    | apply keeps_bind; [|intros ?]
    | match goal with
      | |- keeps (if ?c then _ else _) => destruct c eqn:?
      | |- keeps (match ?x with _ => _ end) => destruct x eqn:?
      end ].

Lemma keeps_upload (req : UploadReq.t) : keeps (post_api_upload req).
Proof.
  unfold post_api_upload, json, Image.deleteMany, Image.new, Image.save,
    CardData.findOne, CardData.save.
  repeat keeps_step; apply keeps_db_call; intros s Hs; simpl;
    try exact (P_purge s _ _ Hs);
    try (now apply P_image);
    try (destruct s; exact Hs);
    try (exact (P_cards s _ Hs)).
Qed.

Lemma keeps_route (cfg : Config) (r : Request) : keeps (route cfg r).
Proof.
  destruct r as [req|q|req|branch| |req| |req|form]; simpl.
  - apply keeps_upload.
  - unfold get_api_images, json, Image.find_sorted.
    repeat keeps_step; apply keeps_db_call; intros s Hs; exact Hs.
  - unfold post_api_save_cards, json, CardData.deleteMany, CardData.save.
    repeat keeps_step; apply keeps_db_call; intros s Hs; simpl;
      exact (P_cards s _ Hs).
  - unfold get_api_load_cards, json, CardData.findOne.
    repeat keeps_step; apply keeps_db_call; intros s Hs; exact Hs.
  - unfold get_api_offers_latest, json, Offer.findOne.
    repeat keeps_step; apply keeps_db_call; intros s Hs; exact Hs.
  - unfold post_api_offers_latest, json, Offer.findOneAndUpdate.
    repeat keeps_step; apply keeps_db_call; intros s Hs; simpl;
      now apply P_upsert.
  - unfold delete_api_offers_latest, json, Offer.deleteOne.
    repeat keeps_step; apply keeps_db_call; intros s Hs; simpl;
      now apply P_delete.
  - unfold post_api_contact_inquiries, json, ContactInquiry.create.
    repeat keeps_step; apply keeps_db_call; intros s Hs; simpl;
      now apply P_inquiries.
  - unfold app_post_api_upload.
    destruct (upload_single "image" form) as [req|];
      [apply keeps_upload | apply keeps_throw].
Qed.

Lemma reachable_keeps (cfg : Config) (st : Store) :
  P empty_store -> Reachable cfg st -> P st.
Proof.
  intros H0 R. induction R as [|st r env R IH]; [exact H0|].
  unfold after, exec. now apply (keeps_route cfg r env (mkRun st [])).
Qed.

End Keeps.

(** The unique index on the offer key holds in every reachable store: the
    offer routes only upsert and delete under the fixed key. *)
Lemma reachable_offers_unique (cfg : Config) (st : Store) :
  Reachable cfg st -> offers_unique st.
Proof.
  apply (reachable_keeps offers_unique); unfold offers_unique; simpl;
    try (intros; assumption).
  - intros s d H Hk. now apply NoDup_upserted.
  - intros s H. now apply NoDup_remove_first.
  - constructor.
Qed.

(** Every stored ImageSlot satisfies the image schema; in particular its
    slot is ["before"] or ["after"]. *)
Definition images_valid (st : Store) : Prop :=
  Forall (fun d => imageSchema.valid d = true) (images st).

Lemma reachable_images_valid (cfg : Config) (st : Store) :
  Reachable cfg st -> images_valid st.
Proof.
  apply (reachable_keeps images_valid); unfold images_valid; simpl;
    try (intros; assumption).
  - intros s n sl H. unfold remove_all. rewrite Forall_forall in *.
    intros d Hd. apply filter_In in Hd. now apply H.
  - intros s d H V. apply Forall_app. split; [exact H|]. now constructor.
  - constructor.
Qed.

(** At most one offer is stored under the fixed key in a reachable
    store. *)
Lemma reachable_offer_singleton (cfg : Config) (st : Store) :
  Reachable cfg st ->
  (length (filter (Offer.of_key latestOffer) (offers st)) <= 1)%nat.
Proof.
  intros R. pose proof (reachable_offers_unique cfg st R) as U.
  unfold offers_unique in U. induction (offers st) as [|x l IH]; simpl; [lia|].
  inversion U as [|? ? Hx Hl]; subst.
  destruct (Offer.of_key latestOffer x) eqn:E; [|now apply IH].
  simpl. assert (F : filter (Offer.of_key latestOffer) l = []).
  { destruct (filter (Offer.of_key latestOffer) l) as [|y r] eqn:Fy;
      [reflexivity|].
    assert (Hy : In y (filter (Offer.of_key latestOffer) l))
      by (rewrite Fy; now left).
    apply filter_In in Hy. destruct Hy as [Hin Hy].
    apply String.eqb_eq in E. apply String.eqb_eq in Hy.
    destruct Hx. rewrite E, <- Hy. now apply in_map. }
  rewrite F. simpl. lia.
Qed.

(** * Further properties of the handlers *)

From Stdlib Require Import Sorting.Sorted Sorting.Permutation.

(** ** Every way the simple routes can go *)

Definition load_failed : Response :=
  mkResponse 500 (JError "Failed to load cards").
Definition images_failed : Response :=
  mkResponse 500 (JError "Failed to load images").

(** The card sets without those of a branch, and with a fresh one. *)
Definition cards_purged (b : string) (st : Store) : Store :=
  mkStore (images st) (remove_all (CardData.of_branch b) (cardDatas st))
          (offers st) (inquiries st).
Definition cards_replaced (b : string) (cs : list cardSchema.doc) (st : Store)
    : Store :=
  mkStore (images st)
          (remove_all (CardData.of_branch b) (cardDatas st)
           ++ [cardDataSchema.Build b cs])
          (offers st) (inquiries st).

(** The checks that stand before the [try] block of the save. *)
Definition save_checks (req : SaveCardsReq.t) : bool :=
  truthy (SaveCardsReq.branch req) && Array_isArray (SaveCardsReq.cards req).

(** Without a body the handler throws before it does anything. *)
Lemma save_cards_unparsed (req : SaveCardsReq.t) (env : Env) (st : Store) :
  SaveCardsReq.body req = None ->
  exec (post_api_save_cards req) env st = (Throw, mkRun st []).
Proof.
  unfold exec, post_api_save_cards. now intros ->.
Qed.

Lemma save_cards_refused (req : SaveCardsReq.t) (env : Env) (st : Store) :
  SaveCardsReq.body req <> None -> save_checks req = false ->
  exec (post_api_save_cards req) env st
  = (Ok (mkResponse 400 (JError "Invalid payload")), mkRun st []).
Proof.
  unfold save_checks, exec, post_api_save_cards. intros Hbody H.
  destruct (SaveCardsReq.body req) as [x|] eqn:E; [clear Hbody | congruence].
  destruct (truthy (SaveCardsReq.branch req)),
    (Array_isArray (SaveCardsReq.cards req)); simpl in *;
    try reflexivity; discriminate.
Qed.

(** A request that fails a check makes no call and leaves the store: it
    is answered 400, or the handler throws when there is no body. *)
Lemma save_cards_stopped (req : SaveCardsReq.t) (env : Env) (st : Store) :
  save_checks req = false ->
  exec (post_api_save_cards req) env st
  = (if is_some (SaveCardsReq.body req)
     then Ok (mkResponse 400 (JError "Invalid payload")) else Throw,
     mkRun st []).
Proof.
  intros H. destruct (SaveCardsReq.body req) as [x|] eqn:E; simpl.
  - apply save_cards_refused; congruence.
  - now apply save_cards_unparsed.
Qed.

Lemma save_cards_accepted (req : SaveCardsReq.t) :
  save_checks req = true ->
  exists b cs, req = SaveCardsReq.Json (Some b) (Some cs) /\ b <> "".
Proof.
  unfold save_checks, SaveCardsReq.branch, SaveCardsReq.cards,
    SaveCardsReq.Json.
  destruct req as [[[[b|] [cs|]]|]]; simpl; rewrite ?andb_false_r;
    try discriminate.
  rewrite andb_true_r. intros H. exists b, cs. split; [reflexivity|].
  now apply truthy_Some.
Qed.

(** A save in any environment: the delete is rejected; or a card cannot
    be cast and nothing is inserted; or the insert is rejected; or both
    calls are carried out. *)
Lemma save_cards_runs (b : string) (cs : list cardSchema.json)
    (env : Env) (st : Store) :
  b <> "" ->
  exec (post_api_save_cards (SaveCardsReq.Json (Some b) (Some cs))) env st
  = if db_rejects env 0
    then (Ok save_failed, mkRun st [(CardDataDeleteMany, Rejected)])
    else match cardSchema.cast_all cs with
         | None =>
             (Ok save_failed,
              mkRun (cards_purged b st)
                    [(CardDataDeleteMany, Done); (CardDataSave, Invalid)])
         | Some ds =>
             if db_rejects env 1
             then (Ok save_failed,
                   mkRun (cards_purged b st)
                         [(CardDataDeleteMany, Done); (CardDataSave, Rejected)])
             else (Ok (mkResponse 200 JSuccess),
                   mkRun (cards_replaced b ds st)
                         [(CardDataDeleteMany, Done); (CardDataSave, Done)])
         end.
Proof.
  intros Hb. unfold exec, post_api_save_cards. simpl.
  rewrite (proj2 (String.eqb_neq b "") Hb). simpl.
  unfold try_catch, bind, CardData.deleteMany, CardData.save, db_call,
    CardData.of_json.
  simpl.
  destruct (db_rejects env 0); [reflexivity|]. simpl.
  destruct (cardSchema.cast_all cs) as [ds|]; simpl; [|reflexivity].
  unfold cardDataSchema.valid. simpl. rewrite (required_string_true b Hb).
  simpl. destruct (db_rejects env 1); reflexivity.
Qed.

(** The same for cards sent as the JSON of stored cards, which can always
    be cast. *)
Lemma save_cards_runs_stored (b : string) (cs : list cardSchema.doc)
    (env : Env) (st : Store) :
  b <> "" ->
  exists ds,
    cardSchema.cast_all (map cardSchema.to_json cs) = Some ds
    /\ exec (post_api_save_cards (SaveCardsReq.Build (Some b) (Some cs))) env st
       = if db_rejects env 0
         then (Ok save_failed, mkRun st [(CardDataDeleteMany, Rejected)])
         else if db_rejects env 1
         then (Ok save_failed,
               mkRun (cards_purged b st)
                     [(CardDataDeleteMany, Done); (CardDataSave, Rejected)])
         else (Ok (mkResponse 200 JSuccess),
               mkRun (cards_replaced b ds st)
                     [(CardDataDeleteMany, Done); (CardDataSave, Done)]).
Proof.
  intros Hb. destruct (cast_all_to_json cs) as [ds E]. exists ds.
  split; [exact E|].
  unfold SaveCardsReq.Build. cbn [option_map].
  now rewrite (save_cards_runs b _ env st Hb), E.
Qed.

Lemma load_cards_runs (b : string) (env : Env) (st : Store) :
  b <> "" ->
  exec (get_api_load_cards (Some b)) env st
  = if db_rejects env 0
    then (Ok load_failed, mkRun st [(CardDataFindOne, Rejected)])
    else (Ok (mkResponse 200
                (JCards match find (CardData.of_branch b) (cardDatas st) with
                        | Some d => cardDataSchema.cards d
                        | None => []
                        end)),
          mkRun st [(CardDataFindOne, Done)]).
Proof.
  intros Hb. unfold exec, get_api_load_cards. simpl.
  rewrite (proj2 (String.eqb_neq b "") Hb). simpl.
  unfold try_catch, bind, CardData.findOne, db_call. simpl.
  destruct (db_rejects env 0); [reflexivity|].
  pose proof (find_index_find (CardData.of_branch b) (cardDatas st)) as F.
  destruct (find_index (CardData.of_branch b) (cardDatas st)) as [i|].
  - rewrite F. destruct (find (CardData.of_branch b) (cardDatas st)); reflexivity.
  - rewrite F. reflexivity.
Qed.

Lemma load_cards_refused (v : field) (env : Env) (st : Store) :
  truthy v = false ->
  exec (get_api_load_cards v) env st
  = (Ok (mkResponse 400 (JError "Missing branch")), mkRun st []).
Proof.
  intros H. unfold exec, get_api_load_cards. now rewrite H.
Qed.

Lemma get_offer_runs (env : Env) (st : Store) :
  exec get_api_offers_latest env st
  = if db_rejects env 0
    then (Ok (mkResponse 500 (JError "Failed to load offer")),
          mkRun st [(OfferFindOne, Rejected)])
    else (Ok (mkResponse 200
                match find (Offer.of_key latestOffer) (offers st) with
                | Some o => offer_json o
                | None => JNull
                end),
          mkRun st [(OfferFindOne, Done)]).
Proof.
  unfold exec, get_api_offers_latest, try_catch, bind, Offer.findOne, db_call.
  simpl. destruct (db_rejects env 0); [reflexivity|].
  destruct (find (Offer.of_key latestOffer) (offers st)); reflexivity.
Qed.

Definition offer_deleted (st : Store) : Store :=
  mkStore (images st) (cardDatas st)
          (remove_first (Offer.of_key latestOffer) (offers st)) (inquiries st).

Lemma delete_offer_runs (env : Env) (st : Store) :
  exec delete_api_offers_latest env st
  = if db_rejects env 0
    then (Ok (mkResponse 500 (JError "Failed to delete offer")),
          mkRun st [(OfferDeleteOne, Rejected)])
    else (Ok (mkResponse 200 JSuccess),
          mkRun (offer_deleted st) [(OfferDeleteOne, Done)]).
Proof.
  unfold exec, delete_api_offers_latest, try_catch, bind, Offer.deleteOne,
    db_call.
  simpl. destruct (db_rejects env 0); reflexivity.
Qed.

Definition offer_checks (req : OfferReq.t) : bool :=
  truthy (OfferReq.title req) || truthy (OfferReq.details req)
  || truthy (OfferReq.imageUrl req).

(** The offer that a request saves at time [t]. *)
Definition offer_of (req : OfferReq.t) (t : Z) : offerSchema.doc :=
  offerSchema.Build latestOffer (or_empty (OfferReq.title req))
    (or_empty (OfferReq.details req)) (or_empty (OfferReq.imageUrl req)) t.

Definition offer_saved (d : offerSchema.doc) (st : Store) : Store :=
  mkStore (images st) (cardDatas st) (upserted latestOffer d (offers st))
          (inquiries st).

Lemma post_offer_refused (req : OfferReq.t) (env : Env) (st : Store) :
  offer_checks req = false ->
  exec (post_api_offers_latest req) env st
  = (Ok (mkResponse 400 (JError "Nothing to save")), mkRun st []).
Proof.
  unfold offer_checks, exec, post_api_offers_latest. intros H.
  rewrite !truthy_or_empty.
  destruct (truthy (OfferReq.title req)), (truthy (OfferReq.details req)),
    (truthy (OfferReq.imageUrl req)); simpl in *; try reflexivity;
    discriminate.
Qed.

Lemma post_offer_runs (req : OfferReq.t) (env : Env) (st : Store) :
  offer_checks req = true ->
  exec (post_api_offers_latest req) env st
  = if db_rejects env 0
    then (Ok (mkResponse 500 (JError "Failed to save offer")),
          mkRun st [(OfferFindOneAndUpdate, Rejected)])
    else (Ok (mkResponse 200 (offer_json (offer_of req (now env)))),
          mkRun (offer_saved (offer_of req (now env)) st)
                [(OfferFindOneAndUpdate, Done)]).
Proof.
  unfold offer_checks, exec, post_api_offers_latest. intros H.
  rewrite !truthy_or_empty.
  assert (G : negb (truthy (OfferReq.title req))
              && negb (truthy (OfferReq.details req))
              && negb (truthy (OfferReq.imageUrl req)) = false).
  { destruct (truthy (OfferReq.title req)), (truthy (OfferReq.details req)),
      (truthy (OfferReq.imageUrl req)); simpl in *; congruence. }
  rewrite G.
  unfold try_catch, bind, Date_now, Offer.findOneAndUpdate, db_call. simpl.
  destruct (db_rejects env 0); reflexivity.
Qed.

(** The filter that the image listing builds from a query. *)
Definition given (v : field) : field := if truthy v then v else None.

Lemma get_images_runs (q : ImagesQuery.t) (env : Env) (st : Store) :
  exec (get_api_images q) env st
  = match Image.cast_cardNum (given (ImagesQuery.cardNum q)) with
    | None => (Ok images_failed, mkRun st [(ImageFind, Invalid)])
    | Some tn =>
        if db_rejects env 0
        then (Ok images_failed, mkRun st [(ImageFind, Rejected)])
        else (Ok (mkResponse 200
                    (JImages
                       (sort_by imageSchema.createdAt
                          (filter
                             (fun d =>
                                Image.passes tn (imageSchema.cardNum d)
                                && Image.passes
                                     (Image.cast_slot (given (ImagesQuery.slot q)))
                                     (imageSchema.slot d))
                             (images st))))),
              mkRun st [(ImageFind, Done)])
    end.
Proof.
  unfold exec, get_api_images, try_catch, bind, Image.find_sorted, given.
  destruct (Image.cast_cardNum
              (if truthy (ImagesQuery.cardNum q) then ImagesQuery.cardNum q
               else None)) as [tn|]; [|reflexivity].
  unfold db_call. simpl. destruct (db_rejects env 0); reflexivity.
Qed.

(** An inquiry in any environment. *)
Definition inquiry_stored (d : contactInquirySchema.doc) (st : Store) : Store :=
  mkStore (images st) (cardDatas st) (offers st) (inquiries st ++ [d]).

Lemma inquiry_runs (cfg : Config) (req : InquiryReq.t) (env : Env) (st : Store) :
  inquiry_checks req = true ->
  exec (post_api_contact_inquiries cfg req) env st
  = if db_rejects env 0
    then (Ok (mkResponse 500 (JError "Failed to save inquiry")),
          mkRun st [(ContactInquiryCreate, Rejected)])
    else (Ok (mkResponse 201
                (JInquiry (inquiry_of req (now env))
                          (notifies cfg && negb (mail_rejects env)))),
          mkRun (inquiry_stored (inquiry_of req (now env)) st)
                ((ContactInquiryCreate, Done)
                 :: if notifies cfg
                    then [(SendMail,
                           if mail_rejects env then Rejected else Done)]
                    else [])).
Proof.
  intros H. destruct (db_rejects env 0) eqn:R.
  - now apply exec_inquiry_rejected.
  - now apply exec_inquiry.
Qed.

(** ** What every route does *)

Definition is_mail (c : Call) : bool :=
  match c with SendMail => true | _ => false end.
Definition is_done (o : Outcome) : bool :=
  match o with Done => true | _ => false end.

(** Some call other than the notification did not go through. *)
Definition failed (t : list Event) : bool :=
  existsb (fun e => negb (is_mail (fst e)) && negb (is_done (snd e))) t.

(** The routes that only read. *)
Definition is_get (r : Request) : bool :=
  match r with
  | GetImages _ | GetLoadCards _ | GetOffer => true
  | _ => false
  end.

(** The requests that no handler answers: an upload form that multer
    refuses, and a request to [/api/upload] or [/api/save-cards] that has
    no body, at which the handler throws before its [try]. *)
Definition escapes (r : Request) : bool :=
  match r with
  | PostUpload req => negb (is_some (UploadReq.body req))
  | PostSaveCards req => negb (is_some (SaveCardsReq.body req))
  | PostUploadForm form =>
      match upload_single "image" form with
      | Some req => negb (is_some (UploadReq.body req))
      | None => true
      end
  | _ => false
  end.

(** The facts common to all runs: an answer of the handler, with its
    status, or an error that escaped before any call. *)
Definition summary (escaped : bool) (st : Store) (x : Result Response * Run)
    : Prop :=
  match fst x with
  | Ok resp =>
      escaped = false
      /\ In (status resp) [200; 201; 400; 500]
      /\ (status resp =? 500) = failed (trace (snd x))
      /\ (status resp = 400 -> store (snd x) = st /\ trace (snd x) = [])
  | Throw => escaped = true /\ store (snd x) = st /\ trace (snd x) = []
  end.

Ltac summary_case :=
  unfold summary; cbn [fst snd store trace];
  first
    [ split; [reflexivity|]; split; [simpl; tauto|];
      split; [reflexivity|];
      simpl; intros; try discriminate; split; reflexivity
    | split; [reflexivity|]; split; reflexivity ].

Lemma upload_summary (req : UploadReq.t) (env : Env) (st : Store) :
  summary (negb (is_some (UploadReq.body req))) st
          (exec (post_api_upload req) env st).
Proof.
  destruct (upload_checks req) eqn:Hchk.
  - destruct (upload_checks_true req Hchk)
      as (buf & b & s & q & Hreq & Hb & Hs & Hq).
    rewrite Hreq.
    pose proof (upload_runs env st buf b s (UploadReq.cardNum req) q Hb Hs Hq)
      as R.
    inversion R; summary_case.
  - rewrite (upload_stopped req env st Hchk).
    destruct (UploadReq.body req); summary_case.
Qed.

(** The facts common to all routes, route by route. *)
Lemma route_summary (cfg : Config) (r : Request) (env : Env) (st : Store) :
  summary (escapes r) st (exec (route cfg r) env st)
  /\ (is_get r = true -> after (route cfg r) env st = st).
Proof.
  unfold after.
  destruct r as [req|q|req|v| |req| |req|form]; simpl route; cbn [escapes is_get];
    (split; [|try discriminate]).
  - apply upload_summary.
  - rewrite get_images_runs.
    destruct (Image.cast_cardNum (given (ImagesQuery.cardNum q)));
      [destruct (db_rejects env 0)|]; summary_case.
  - intros _. rewrite get_images_runs.
    destruct (Image.cast_cardNum (given (ImagesQuery.cardNum q)));
      [destruct (db_rejects env 0)|]; reflexivity.
  - destruct (save_checks req) eqn:Hchk.
    + destruct (save_cards_accepted req Hchk) as (b & cs & -> & Hb).
      rewrite (save_cards_runs b cs env st Hb).
      destruct (db_rejects env 0);
        [|destruct (cardSchema.cast_all cs); [destruct (db_rejects env 1)|]];
        summary_case.
    + rewrite (save_cards_stopped req env st Hchk).
      destruct (SaveCardsReq.body req); summary_case.
  - destruct (truthy v) eqn:Hv.
    + destruct v as [b|]; [|discriminate].
      rewrite (load_cards_runs b env st (proj1 (truthy_Some b) Hv)).
      destruct (db_rejects env 0); summary_case.
    + rewrite (load_cards_refused v env st Hv). summary_case.
  - intros _. destruct (truthy v) eqn:Hv.
    + destruct v as [b|]; [|discriminate].
      rewrite (load_cards_runs b env st (proj1 (truthy_Some b) Hv)).
      destruct (db_rejects env 0); reflexivity.
    + now rewrite (load_cards_refused v env st Hv).
  - rewrite get_offer_runs. destruct (db_rejects env 0); summary_case.
  - intros _. rewrite get_offer_runs. destruct (db_rejects env 0); reflexivity.
  - destruct (offer_checks req) eqn:Hchk.
    + rewrite (post_offer_runs req env st Hchk).
      destruct (db_rejects env 0); summary_case.
    + rewrite (post_offer_refused req env st Hchk). summary_case.
  - rewrite delete_offer_runs. destruct (db_rejects env 0); summary_case.
  - destruct (inquiry_checks req) eqn:Hchk.
    + rewrite (inquiry_runs cfg req env st Hchk).
      destruct (db_rejects env 0); [summary_case|].
      destruct (notifies cfg); [destruct (mail_rejects env)|]; summary_case.
    + rewrite (inquiry_refused cfg req env st Hchk). summary_case.
  - unfold app_post_api_upload.
    destruct (upload_single "image" form) as [req|];
      [apply upload_summary | summary_case].
Qed.

(** Every request is answered, whatever the services do, with status 200,
    201, 400 or 500.  An error escapes the handler exactly for an upload
    form that multer refuses and for a request to /api/upload or
    /api/save-cards without a body; no call has been made then, the store
    is unchanged and Express answers 500.  Otherwise the handler answers
    itself, and its status is 500 exactly when a store call or the
    Cloudinary upload did not go through; a notification that fails never
    makes it 500. *)
Theorem every_route_answers (cfg : Config) (r : Request) (env : Env) (st : Store) :
  let answer := reply (route cfg r) env st in
  In (http_status answer) [200; 201; 400; 500]
  /\ (answer = Throw <-> escapes r = true)
  /\ (answer = Throw ->
      calls (route cfg r) env st = [] /\ after (route cfg r) env st = st)
  /\ (forall resp, answer = Ok resp ->
      (status resp = 500 <-> failed (calls (route cfg r) env st) = true))
  /\ (http_status answer = 500
      <-> failed (calls (route cfg r) env st) = true \/ escapes r = true).
Proof.
  destruct (route_summary cfg r env st) as [S _]. revert S.
  unfold summary, reply, calls, after.
  destruct (exec (route cfg r) env st) as [[resp|] run]; cbn [fst snd http_status].
  - intros (He & Hin & H500 & _). rewrite He.
    split; [exact Hin|]. split; [split; discriminate|].
    split; [discriminate|]. split.
    + intros resp' E. injection E as <-. rewrite <- H500. symmetry.
      apply Z.eqb_eq.
    + rewrite <- H500, Z.eqb_eq. split; [now left | now intros [?|?]].
  - intros (He & Hst & Htr). rewrite He, Htr.
    split; [simpl; tauto|]. split; [tauto|]. split; [now intros _|].
    split; [discriminate|]. split; [now right | reflexivity].
Qed.

Lemma every_route_answers_witness :
  let r := PostUploadForm
             (UploadForm.Multipart [("photo", "PNG")]
                (UploadReq.Fields (Some "branch1") (Some "3") (Some "before"))) in
  calls (route no_relay r) (fine "https://res/new.png" 50) store_with_images = []
  /\ after (route no_relay r) (fine "https://res/new.png" 50) store_with_images
     = store_with_images.
Proof.
  apply (proj1 (proj2 (proj2 (every_route_answers no_relay
           (PostUploadForm
              (UploadForm.Multipart [("photo", "PNG")]
                 (UploadReq.Fields (Some "branch1") (Some "3")
                                   (Some "before"))))
           (fine "https://res/new.png" 50) store_with_images)))).
  reflexivity.
Defined.

(** A request that is answered 400 has made no external call and has left
    every collection as it was. *)
Theorem bad_request_touches_nothing
    (cfg : Config) (r : Request) (env : Env) (st : Store) :
  status_of (reply (route cfg r) env st) = Some 400 ->
  after (route cfg r) env st = st /\ calls (route cfg r) env st = [].
Proof.
  destruct (route_summary cfg r env st) as [S _]. revert S.
  unfold summary, reply, calls, after.
  destruct (exec (route cfg r) env st) as [[resp|] run];
    cbn [fst snd status_of]; [|discriminate].
  intros (_ & _ & _ & H4) H. apply H4. congruence.
Qed.

Lemma bad_request_touches_nothing_witness :
  after (route no_relay
           (PostUpload (UploadReq.Build (Some "PNG") (Some "branch1")
                          (Some "three") (Some "before"))))
        (fine "https://res/new.png" 50) store_with_images
  = store_with_images
  /\ calls (route no_relay
              (PostUpload (UploadReq.Build (Some "PNG") (Some "branch1")
                             (Some "three") (Some "before"))))
           (fine "https://res/new.png" 50) store_with_images
     = [].
Proof.
  apply (bad_request_touches_nothing no_relay
           (PostUpload (UploadReq.Build (Some "PNG") (Some "branch1")
                          (Some "three") (Some "before")))
           (fine "https://res/new.png" 50) store_with_images).
  reflexivity.
Defined.

(** The three GET routes never change a collection, whether the store
    answers or rejects the query. *)
Theorem get_routes_read_only
    (cfg : Config) (r : Request) (env : Env) (st : Store) :
  is_get r = true -> after (route cfg r) env st = st.
Proof.
  exact (proj2 (route_summary cfg r env st)).
Qed.

Lemma get_routes_read_only_witness :
  after (route no_relay
           (GetImages (ImagesQuery.Build (Some "3") (Some "before"))))
        (mkEnv None (fun _ => true) false 0) store_with_images
  = store_with_images.
Proof.
  apply (get_routes_read_only no_relay
           (GetImages (ImagesQuery.Build (Some "3") (Some "before")))
           (mkEnv None (fun _ => true) false 0) store_with_images).
  reflexivity.
Defined.

(** ** The changes a request can make to the store *)

(** Every store a request can leave behind, whatever the services do. *)
Inductive Effect (env : Env) (st : Store) : Store -> Prop :=
| eff_none : Effect env st st
| eff_image_purged s q : Effect env st (st_purged st s q)
| eff_image_replaced s q u :
    imageSchema.valid (new_image env s q u) = true ->
    Effect env st (st_image env st s q u)
| eff_uploaded b s q u :
    b <> "" -> imageSchema.valid (new_image env s q u) = true ->
    Effect env st (st_uploaded env st b s q u)
| eff_cards_purged b : Effect env st (cards_purged b st)
| eff_cards_replaced b cs : b <> "" -> Effect env st (cards_replaced b cs st)
| eff_offer_saved d :
    offerSchema.key d = latestOffer -> Effect env st (offer_saved d st)
| eff_offer_deleted : Effect env st (offer_deleted st)
| eff_inquiry d :
    contactInquirySchema.valid d = true -> Effect env st (inquiry_stored d st).

Lemma inquiry_of_valid (req : InquiryReq.t) (t : Z) :
  inquiry_checks req = true -> contactInquirySchema.valid (inquiry_of req t) = true.
Proof.
  unfold inquiry_checks, contactInquirySchema.valid, inquiry_of. simpl.
  intros H. apply andb_prop in H. destruct H as [H Hm].
  apply andb_prop in H. destruct H as [Hn He].
  now rewrite (truthy_required _ Hn), (truthy_required _ He),
    (truthy_required _ Hm).
Qed.

Lemma upload_effect (req : UploadReq.t) (env : Env) (st : Store) :
  Effect env st (after (post_api_upload req) env st).
Proof.
  unfold after. destruct (upload_checks req) eqn:Hchk.
  - destruct (upload_checks_true req Hchk)
      as (buf & b & s & q & Hreq & Hb & Hs & Hq).
    rewrite Hreq.
    pose proof (upload_runs env st buf b s (UploadReq.cardNum req) q Hb Hs Hq)
      as R.
    inversion R; simpl;
      first [ apply eff_none | apply eff_image_purged
            | now apply eff_image_replaced | now apply eff_uploaded ].
  - rewrite (upload_stopped req env st Hchk). apply eff_none.
Qed.

Lemma route_effect (cfg : Config) (r : Request) (env : Env) (st : Store) :
  Effect env st (after (route cfg r) env st).
Proof.
  destruct r as [req|q|req|v| |req| |req|form]; simpl route;
    [apply upload_effect | unfold after .. ].
  - rewrite get_images_runs.
    destruct (Image.cast_cardNum (given (ImagesQuery.cardNum q)));
      [destruct (db_rejects env 0)|]; apply eff_none.
  - destruct (save_checks req) eqn:Hchk.
    + destruct (save_cards_accepted req Hchk) as (b & cs & -> & Hb).
      rewrite (save_cards_runs b cs env st Hb).
      destruct (db_rejects env 0); [apply eff_none|].
      destruct (cardSchema.cast_all cs) as [ds|]; [|apply eff_cards_purged].
      destruct (db_rejects env 1);
        [apply eff_cards_purged | now apply eff_cards_replaced].
    + rewrite (save_cards_stopped req env st Hchk). apply eff_none.
  - destruct (truthy v) eqn:Hv.
    + destruct v as [b|]; [|discriminate].
      rewrite (load_cards_runs b env st (proj1 (truthy_Some b) Hv)).
      destruct (db_rejects env 0); apply eff_none.
    + rewrite (load_cards_refused v env st Hv). apply eff_none.
  - rewrite get_offer_runs. destruct (db_rejects env 0); apply eff_none.
  - destruct (offer_checks req) eqn:Hchk.
    + rewrite (post_offer_runs req env st Hchk).
      destruct (db_rejects env 0); [apply eff_none|].
      now apply eff_offer_saved.
    + rewrite (post_offer_refused req env st Hchk). apply eff_none.
  - rewrite delete_offer_runs.
    destruct (db_rejects env 0); [apply eff_none | apply eff_offer_deleted].
  - destruct (inquiry_checks req) eqn:Hchk.
    + rewrite (inquiry_runs cfg req env st Hchk).
      destruct (db_rejects env 0); [apply eff_none|].
      apply eff_inquiry. now apply inquiry_of_valid.
    + rewrite (inquiry_refused cfg req env st Hchk). apply eff_none.
  - unfold app_post_api_upload.
    destruct (upload_single "image" form) as [req|];
      [apply upload_effect | apply eff_none].
Qed.

(** A property kept by every effect holds in every reachable store. *)
Lemma reachable_by_effects (P : Store -> Prop) (cfg : Config) (st : Store) :
  P empty_store ->
  (forall env s s', Effect env s s' -> P s -> P s') ->
  Reachable cfg st -> P st.
Proof.
  intros H0 Hstep R. induction R as [|st r env R IH]; [exact H0|].
  exact (Hstep env st _ (route_effect cfg r env st) IH).
Qed.

(** *** One ImageSlot for each pair of card number and slot *)

Definition one_image_per_slot (st : Store) : Prop :=
  forall n s, (length (filter (Image.matches n s) (images st)) <= 1)%nat.

Lemma filter_remove_all_le {A : Type} (p r : A -> bool) (l : list A) :
  (length (filter p (remove_all r l)) <= length (filter p l))%nat.
Proof.
  unfold remove_all. induction l as [|x l IH]; simpl; [lia|].
  destruct (r x); simpl; destruct (p x); simpl; lia.
Qed.

Lemma num_eq_trans_l (a b c : jsnum) :
  num_eq a b = true -> num_eq c b = num_eq c a.
Proof.
  destruct a as [|sa|p], b as [|sb|q]; simpl; try discriminate.
  - intros H. apply Bool.eqb_prop in H. now subst.
  - intros H. apply Qeq_bool_iff in H. destruct c as [|sc|r]; simpl; auto.
    destruct (Qeq_bool r q) eqn:E1, (Qeq_bool r p) eqn:E2; auto.
    + apply Qeq_bool_iff in E1. apply Qeq_bool_neq in E2. destruct E2.
      now rewrite E1, H.
    + apply Qeq_bool_iff in E2. apply Qeq_bool_neq in E1. destruct E1.
      now rewrite E2, H.
Qed.

(** A filter that the new image passes selects the same images as the
    filter of its own pair. *)
Lemma matches_same (env : Env) (s : string) (q : Q) (u : string)
    (n2 : jsnum) (s2 : string) :
  Image.matches n2 s2 (new_image env s q u) = true ->
  forall x, Image.matches n2 s2 x = Image.matches (Finite q) s x.
Proof.
  unfold Image.matches, new_image.
  cbn [imageSchema.cardNum imageSchema.slot]. intros H x.
  apply andb_prop in H. destruct H as [Hn Hs]. apply String.eqb_eq in Hs.
  subst s2. now rewrite (num_eq_trans_l _ _ (imageSchema.cardNum x) Hn).
Qed.

Lemma one_image_after_replace (env : Env) (st : Store) (s : string) (q : Q)
    (u : string) :
  one_image_per_slot st ->
  forall n2 s2,
    (length (filter (Image.matches n2 s2)
               (images_purged st s q ++ [new_image env s q u])) <= 1)%nat.
Proof.
  intros I n2 s2. rewrite filter_app, length_app. simpl.
  destruct (Image.matches n2 s2 (new_image env s q u)) eqn:E; simpl.
  - rewrite (filter_ext _ _ (matches_same env s q u n2 s2 E)).
    unfold images_purged. rewrite filter_remove_all. simpl. lia.
  - pose proof (filter_remove_all_le (Image.matches n2 s2)
                  (Image.matches (Finite q) s) (images st)).
    unfold images_purged. specialize (I n2 s2). lia.
Qed.

Lemma effect_one_image_per_slot (env : Env) (s s' : Store) :
  Effect env s s' -> one_image_per_slot s -> one_image_per_slot s'.
Proof.
  intros E I. destruct E; try exact I.
  - intros n2 s2. simpl.
    pose proof (filter_remove_all_le (Image.matches n2 s2)
                  (Image.matches (Finite q) s0) (images s)).
    unfold images_purged. specialize (I n2 s2). lia.
  - intros n2 s2. simpl. now apply one_image_after_replace.
  - intros n2 s2. simpl. now apply one_image_after_replace.
Qed.

(** In every store the server can reach, each pair of card number and
    slot has at most one ImageSlot: an upload purges the pair before it
    inserts, and no other route writes images. *)
Theorem reachable_one_image_per_slot
    (cfg : Config) (st : Store) (n : jsnum) (s : string) :
  Reachable cfg st ->
  (length (filter (Image.matches n s) (images st)) <= 1)%nat.
Proof.
  intros R. revert n s. change (one_image_per_slot st).
  apply (reachable_by_effects one_image_per_slot cfg st); [| |exact R].
  - intros n s. simpl. lia.
  - exact effect_one_image_per_slot.
Qed.

(** A store reached by a save of cards and two uploads. *)
Definition reached_store : Store :=
  after (route no_relay
           (PostUpload (UploadReq.Build (Some "PNG2") (Some "branch1")
                          (Some "3") (Some "before"))))
        (fine "https://res/newer.png" 60)
        (after (route no_relay (PostUpload upload3))
               (fine "https://res/new.png" 50)
               (after (route no_relay
                         (PostSaveCards
                            (SaveCardsReq.Build (Some "branch1") (Some [card1]))))
                      (fine "" 7) empty_store)).

Lemma reachable_one_image_per_slot_witness :
  (length (filter (Image.matches (Finite (3 # 1)) "before")
             (images reached_store)) <= 1)%nat.
Proof.
  apply (reachable_one_image_per_slot no_relay reached_store).
  unfold reached_store. apply reach_step, reach_step, reach_step, reach_start.
Defined.

(** *** One BranchCardSet for each branch *)

Definition card_sets_unique (st : Store) : Prop :=
  NoDup (map cardDataSchema.branch (cardDatas st))
  /\ ~ In "" (map cardDataSchema.branch (cardDatas st)).

Lemma NoDup_map_remove_all {A B : Type} (key : A -> B) (r : A -> bool)
    (l : list A) (H : NoDup (map key l)) :
  NoDup (map key (remove_all r l)).
Proof.
  unfold remove_all. induction l as [|x l IH]; simpl; [exact H|].
  simpl in H. apply NoDup_cons_iff in H. destruct H as [Hx Hl].
  destruct (r x); simpl; [now apply IH|].
  apply NoDup_cons_iff. split; [|now apply IH].
  intros Hin. apply Hx. apply in_map_iff in Hin.
  destruct Hin as [y [Hy Hin]]. apply filter_In in Hin.
  apply in_map_iff. exists y. tauto.
Qed.

Lemma In_map_filter {A B : Type} (f : A -> B) (p : A -> bool) (l : list A) (b : B) :
  In b (map f (filter p l)) -> In b (map f l).
Proof.
  intros H. apply in_map_iff in H. destruct H as [y [Hy Hin]].
  apply filter_In in Hin. apply in_map_iff. exists y. tauto.
Qed.

Lemma branch_purged (b : string) (l : list cardDataSchema.doc) :
  ~ In b (map cardDataSchema.branch (remove_all (CardData.of_branch b) l)).
Proof.
  intros H. apply in_map_iff in H. destruct H as [y [Hy Hin]].
  apply remove_all_none in Hin. unfold CardData.of_branch in Hin.
  apply String.eqb_neq in Hin. contradiction.
Qed.

Lemma NoDup_snoc {A : Type} (l : list A) (x : A) :
  NoDup l -> ~ In x l -> NoDup (l ++ [x]).
Proof.
  intros Hl Hx. apply NoDup_rev in Hl. rewrite <- (rev_involutive (l ++ [x])).
  apply NoDup_rev. rewrite rev_app_distr. simpl. constructor; [|exact Hl].
  now rewrite <- in_rev.
Qed.

Lemma map_replace_at {A B : Type} (f : A -> B) (l : list A) (i : nat) (d x : A) :
  nth_error l i = Some d -> f x = f d -> map f (replace_at i x l) = map f l.
Proof.
  revert i. induction l as [|y l IH]; intros [|i]; simpl; try discriminate.
  - intros [= ->] E. now rewrite E.
  - intros H E. f_equal. now apply IH.
Qed.

Lemma branches_updated (st : Store) (b s : string) (q : Q) (u : string) :
  map cardDataSchema.branch (card_sets_updated st b s q u)
  = if is_some (find_index (CardData.of_branch b) (cardDatas st))
    then map cardDataSchema.branch (cardDatas st)
    else map cardDataSchema.branch (cardDatas st) ++ [b].
Proof.
  unfold card_sets_updated.
  destruct (find_index (CardData.of_branch b) (cardDatas st)) as [i|] eqn:F;
    simpl.
  - destruct (find_index_nth _ _ _ F) as [d [Hd _]]. rewrite Hd.
    now apply (map_replace_at cardDataSchema.branch _ i d).
  - now rewrite map_app.
Qed.

Lemma effect_card_sets_unique (env : Env) (s s' : Store) :
  Effect env s s' -> card_sets_unique s -> card_sets_unique s'.
Proof.
  intros E [U N]. destruct E; try (split; assumption); unfold card_sets_unique;
    simpl.
  - rewrite branches_updated.
    destruct (find_index (CardData.of_branch b) (cardDatas s)) eqn:F; simpl;
      [split; assumption|].
    split.
    + apply NoDup_snoc; [exact U|]. intros Hin. apply in_map_iff in Hin.
      destruct Hin as [y [Hy Hin]].
      pose proof (proj1 (find_index_None _ _) F y Hin) as G.
      unfold CardData.of_branch in G. apply String.eqb_neq in G. contradiction.
    + intros Hin. apply in_app_or in Hin. destruct Hin as [Hin|[Hin|[]]];
        [now apply N | congruence].
  - split; [now apply NoDup_map_remove_all|].
    intros Hin. apply N. now apply In_map_filter in Hin.
  - rewrite map_app. simpl. split.
    + apply NoDup_snoc; [now apply NoDup_map_remove_all | apply branch_purged].
    + intros Hin. apply in_app_or in Hin. destruct Hin as [Hin|[Hin|[]]];
        [|congruence].
      apply N. now apply In_map_filter in Hin.
Qed.

(** In every store the server can reach, no two BranchCardSets share a
    branch and none has an empty branch: a save deletes the sets of the
    branch before it inserts one, and an upload inserts a set only when it
    found none. *)
Theorem reachable_one_card_set_per_branch (cfg : Config) (st : Store) :
  Reachable cfg st ->
  NoDup (map cardDataSchema.branch (cardDatas st))
  /\ ~ In "" (map cardDataSchema.branch (cardDatas st)).
Proof.
  intros R. change (card_sets_unique st).
  apply (reachable_by_effects card_sets_unique cfg st); [| |exact R].
  - split; [constructor | intros []].
  - exact effect_card_sets_unique.
Qed.

Lemma reachable_one_card_set_per_branch_witness :
  NoDup (map cardDataSchema.branch (cardDatas reached_store))
  /\ ~ In "" (map cardDataSchema.branch (cardDatas reached_store)).
Proof.
  apply (reachable_one_card_set_per_branch no_relay reached_store).
  unfold reached_store. apply reach_step, reach_step, reach_step, reach_start.
Defined.

(** *** At most one offer *)

Definition offers_singleton (st : Store) : Prop :=
  map offerSchema.key (offers st) = []
  \/ map offerSchema.key (offers st) = [latestOffer].

Lemma effect_offers_singleton (env : Env) (s s' : Store) :
  Effect env s s' -> offers_singleton s -> offers_singleton s'.
Proof.
  intros E I. destruct E; try exact I; unfold offers_singleton in *; simpl.
  - unfold upserted.
    destruct (find_index (Offer.of_key latestOffer) (offers s)) as [i|] eqn:F.
    + now rewrite (map_key_replace_at latestOffer d (offers s) i F H).
    + rewrite map_app. simpl. rewrite H. destruct I as [I|I].
      * rewrite I. now right.
      * exfalso. destruct (offers s) as [|x l]; [discriminate|].
        injection I as Hx _. simpl in F. unfold Offer.of_key at 1 in F.
        rewrite Hx, String.eqb_refl in F. discriminate.
  - destruct I as [I|I].
    + left. destruct (offers s); [reflexivity | discriminate].
    + left. destruct (offers s) as [|x [|y l]]; try discriminate.
      injection I as Hx. simpl. unfold Offer.of_key.
      now rewrite Hx, String.eqb_refl.
Qed.

(** In every store the server can reach there is no offer or exactly one,
    and it sits under the fixed key: the only insert is the upsert under
    that key. *)
Theorem reachable_at_most_one_offer (cfg : Config) (st : Store) :
  Reachable cfg st ->
  (length (offers st) <= 1)%nat
  /\ forall d, In d (offers st) -> offerSchema.key d = latestOffer.
Proof.
  intros R.
  assert (I : offers_singleton st).
  { apply (reachable_by_effects offers_singleton cfg st); [| |exact R].
    - now left.
    - exact effect_offers_singleton. }
  destruct I as [I|I].
  - destruct (offers st); [|discriminate]. split; [simpl; lia | intros d []].
  - destruct (offers st) as [|x [|y l]]; try discriminate.
    injection I as Hx. split; [simpl; lia|].
    intros d [<-|[]]. exact Hx.
Qed.

Definition reached_offers : Store :=
  after (route no_relay (PostOffer (OfferReq.Build (Some "Monsoon") None None)))
        (fine "" 200)
        (after (route no_relay
                  (PostOffer (OfferReq.Build None (Some "10% off") None)))
               (fine "" 100) empty_store).

Lemma reachable_at_most_one_offer_witness :
  (length (offers reached_offers) <= 1)%nat
  /\ forall d, In d (offers reached_offers) -> offerSchema.key d = latestOffer.
Proof.
  apply (reachable_at_most_one_offer no_relay reached_offers).
  unfold reached_offers. apply reach_step, reach_step, reach_start.
Defined.

(** *** What the stored images and inquiries look like *)

Definition image_well_formed (d : imageSchema.doc) : Prop :=
  (imageSchema.slot d = "before" \/ imageSchema.slot d = "after")
  /\ imageSchema.url d <> ""
  /\ Number_isFinite (imageSchema.cardNum d) = true.

Lemma new_image_well_formed (env : Env) (s : string) (q : Q) (u : string) :
  imageSchema.valid (new_image env s q u) = true ->
  image_well_formed (new_image env s q u).
Proof.
  unfold imageSchema.valid, image_well_formed, new_image. simpl.
  intros H. apply andb_prop in H. destruct H as [H He].
  apply andb_prop in H. destruct H as [H _].
  rewrite andb_true_r in H. unfold required_string in H.
  apply negb_true_iff, String.eqb_neq in H. split; [|split; [exact H|reflexivity]].
  unfold imageSchema.in_enum in He. simpl in He.
  apply orb_prop in He. destruct He as [He|He].
  - left. now apply String.eqb_eq.
  - rewrite orb_false_r in He. right. now apply String.eqb_eq.
Qed.

Lemma effect_images_well_formed (env : Env) (s s' : Store) :
  Effect env s s' ->
  Forall image_well_formed (images s) -> Forall image_well_formed (images s').
Proof.
  intros E I. destruct E; try exact I; simpl.
  - unfold images_purged, remove_all. rewrite Forall_forall in *.
    intros d Hd. apply filter_In in Hd. now apply I.
  - apply Forall_app. split.
    + unfold images_purged, remove_all. rewrite Forall_forall in *.
      intros d Hd. apply filter_In in Hd. now apply I.
    + constructor; [now apply new_image_well_formed | constructor].
  - apply Forall_app. split.
    + unfold images_purged, remove_all. rewrite Forall_forall in *.
      intros d Hd. apply filter_In in Hd. now apply I.
    + constructor; [now apply new_image_well_formed | constructor].
Qed.

(** Every ImageSlot in a store the server can reach has the slot
    ["before"] or ["after"], a non-empty url and a finite card number:
    the upload checks the number, and the schema refuses the rest before
    the insert. *)
Theorem reachable_images_well_formed
    (cfg : Config) (st : Store) (d : imageSchema.doc) :
  Reachable cfg st -> In d (images st) ->
  (imageSchema.slot d = "before" \/ imageSchema.slot d = "after")
  /\ imageSchema.url d <> ""
  /\ Number_isFinite (imageSchema.cardNum d) = true.
Proof.
  intros R Hin.
  assert (I : Forall image_well_formed (images st)).
  { apply (reachable_by_effects
             (fun s => Forall image_well_formed (images s)) cfg st);
      [constructor | exact effect_images_well_formed | exact R]. }
  rewrite Forall_forall in I. exact (I d Hin).
Qed.

Lemma reachable_images_well_formed_witness :
  let d := imageSchema.Build "https://res/newer.png" (Finite (3 # 1)) "before" 60 in
  (imageSchema.slot d = "before" \/ imageSchema.slot d = "after")
  /\ imageSchema.url d <> ""
  /\ Number_isFinite (imageSchema.cardNum d) = true.
Proof.
  apply (reachable_images_well_formed no_relay reached_store).
  - unfold reached_store. apply reach_step, reach_step, reach_step, reach_start.
  - vm_compute. left. reflexivity.
Defined.

(** No route removes or changes a stored inquiry: whatever the request and
    whatever the services do, the inquiries afterwards are the ones before,
    in the same order, followed by at most one new inquiry whose name,
    email and message are non-empty. *)
Theorem inquiries_append_only
    (cfg : Config) (r : Request) (env : Env) (st : Store) :
  inquiries (after (route cfg r) env st) = inquiries st
  \/ exists d,
       inquiries (after (route cfg r) env st) = inquiries st ++ [d]
       /\ contactInquirySchema.name d <> ""
       /\ contactInquirySchema.email d <> ""
       /\ contactInquirySchema.message d <> "".
Proof.
  destruct (route_effect cfg r env st); try (now left).
  right. exists d. split; [reflexivity|].
  unfold contactInquirySchema.valid, required_string in H.
  apply andb_prop in H. destruct H as [H Hm].
  apply andb_prop in H. destruct H as [Hn He].
  repeat split; apply String.eqb_neq; now apply negb_true_iff.
Qed.

(** ** The upload and the gallery cards *)

(** The card after [if (slot === 'before') ...; if (slot === 'after') ...]. *)
Definition with_slot_image (slot url : string) (card : cardSchema.doc)
    : cardSchema.doc :=
  let card1 :=
    if String.eqb slot "before" then cardSchema.set_beforeImg url card
    else card in
  if String.eqb slot "after" then cardSchema.set_afterImg url card1 else card1.

(** The card an upload for number [n] writes to: the first with the
    number, or a new one. *)
Definition target_card (n : jsnum) (cs : list cardSchema.doc) : cardSchema.doc :=
  match find (cardSchema.has_cardNum n) cs with
  | Some c => c
  | None => cardSchema.of_cardNum n
  end.

Lemma length_replace_at {A : Type} (i : nat) (x : A) (l : list A) :
  length (replace_at i x l) = length l.
Proof.
  revert i. induction l as [|y l IH]; intros [|i]; simpl; auto.
Qed.

Lemma nth_error_replace_at_ne {A : Type} (i j : nat) (x : A) (l : list A) :
  i <> j -> nth_error (replace_at i x l) j = nth_error l j.
Proof.
  revert i j. induction l as [|y l IH]; intros [|i] [|j] H; simpl; auto;
    try contradiction.
Qed.

Lemma replace_at_last {A : Type} (l : list A) (x y : A) :
  replace_at (length l) x (l ++ [y]) = l ++ [x].
Proof.
  induction l as [|z l IH]; simpl; [reflexivity | now rewrite IH].
Qed.

Lemma has_cardNum_with_slot_image (n : jsnum) (s u : string) (c : cardSchema.doc) :
  cardSchema.has_cardNum n (with_slot_image s u c) = cardSchema.has_cardNum n c.
Proof.
  unfold with_slot_image.
  destruct (String.eqb s "before"), (String.eqb s "after"); reflexivity.
Qed.

Lemma set_card_image_found (n : jsnum) (s u : string) (cs : list cardSchema.doc)
    (i : nat) :
  find_index (cardSchema.has_cardNum n) cs = Some i ->
  set_card_image n s u cs = replace_at i (with_slot_image s u (target_card n cs)) cs.
Proof.
  intros F. unfold set_card_image, target_card. rewrite F.
  pose proof (find_index_find (cardSchema.has_cardNum n) cs) as G.
  rewrite F in G. rewrite <- G.
  destruct (find_index_nth _ _ _ F) as [c [Hc _]]. now rewrite Hc.
Qed.

Lemma set_card_image_new (n : jsnum) (s u : string) (cs : list cardSchema.doc) :
  find_index (cardSchema.has_cardNum n) cs = None ->
  set_card_image n s u cs = cs ++ [with_slot_image s u (target_card n cs)].
Proof.
  intros F. unfold set_card_image, target_card. rewrite F.
  pose proof (find_index_find (cardSchema.has_cardNum n) cs) as G.
  rewrite F in G. rewrite G, nth_error_app_last. apply replace_at_last.
Qed.

(** After the update the first card with the number is the target card
    with the image set. *)
Lemma find_set_card_image (q : Q) (s u : string) (cs : list cardSchema.doc) :
  find (cardSchema.has_cardNum (Finite q)) (set_card_image (Finite q) s u cs)
  = Some (with_slot_image s u (target_card (Finite q) cs)).
Proof.
  destruct (find_index (cardSchema.has_cardNum (Finite q)) cs) as [i|] eqn:F.
  - rewrite (set_card_image_found _ s u cs i F).
    apply find_replace_at; [exact F|].
    rewrite has_cardNum_with_slot_image. unfold target_card.
    pose proof (find_index_find (cardSchema.has_cardNum (Finite q)) cs) as G.
    rewrite F in G. destruct (find_index_nth _ _ _ F) as [c [Hc Hp]].
    rewrite <- G, Hc. exact Hp.
  - rewrite (set_card_image_new _ s u cs F).
    apply find_app_first_hit; [exact F|].
    rewrite has_cardNum_with_slot_image. unfold target_card.
    pose proof (find_index_find (cardSchema.has_cardNum (Finite q)) cs) as G.
    rewrite F in G. rewrite G. unfold cardSchema.has_cardNum. simpl.
    apply Qeq_bool_iff. reflexivity.
Qed.

(** The cards with another number stay where they are, unchanged. *)
Lemma nth_set_card_image_other (n : jsnum) (s u : string)
    (cs : list cardSchema.doc) (j : nat) (c : cardSchema.doc) :
  nth_error cs j = Some c -> cardSchema.has_cardNum n c = false ->
  nth_error (set_card_image n s u cs) j = Some c.
Proof.
  intros Hj Hc.
  destruct (find_index (cardSchema.has_cardNum n) cs) as [i|] eqn:F.
  - rewrite (set_card_image_found _ s u cs i F).
    rewrite nth_error_replace_at_ne; [exact Hj|].
    intros ->. destruct (find_index_nth _ _ _ F) as [c' [Hc' Hp]]. congruence.
  - rewrite (set_card_image_new _ s u cs F).
    rewrite nth_error_app1; [exact Hj|].
    apply nth_error_Some. congruence.
Qed.

Lemma length_set_card_image (n : jsnum) (s u : string) (cs : list cardSchema.doc) :
  length (set_card_image n s u cs)
  = if is_some (find (cardSchema.has_cardNum n) cs) then length cs
    else S (length cs).
Proof.
  pose proof (find_index_find (cardSchema.has_cardNum n) cs) as G.
  destruct (find_index (cardSchema.has_cardNum n) cs) as [i|] eqn:F.
  - rewrite (set_card_image_found _ s u cs i F), length_replace_at.
    destruct (find_index_nth _ _ _ F) as [c [Hc _]]. rewrite <- G, Hc.
    reflexivity.
  - rewrite (set_card_image_new _ s u cs F), length_app, G. simpl. lia.
Qed.

(** The cards that [/api/load-cards] shows for a branch. *)
Definition cards_of (b : string) (st : Store) : list cardSchema.doc :=
  match find (CardData.of_branch b) (cardDatas st) with
  | Some d => cardDataSchema.cards d
  | None => []
  end.

Lemma find_replace_at_other {A : Type} (p : A -> bool) (l : list A) (i : nat)
    (d x : A) :
  nth_error l i = Some d -> p d = false -> p x = false ->
  find p (replace_at i x l) = find p l.
Proof.
  revert i. induction l as [|y l IH]; intros [|i]; simpl; try discriminate.
  - intros [= ->] Hd Hx. now rewrite Hd, Hx.
  - intros H Hd Hx. destruct (p y); [reflexivity|]. now apply IH.
Qed.

Lemma find_app_miss {A : Type} (p : A -> bool) (l : list A) (x : A) :
  p x = false -> find p (l ++ [x]) = find p l.
Proof.
  intros Hx. induction l as [|y l IH]; simpl; [now rewrite Hx|].
  destruct (p y); [reflexivity | exact IH].
Qed.

(** The cards of the uploaded branch after the upload. *)
Lemma cards_of_uploaded (env : Env) (st : Store) (b s : string) (q : Q)
    (u : string) :
  cards_of b (st_uploaded env st b s q u)
  = set_card_image (Finite q) s u (cards_of b st).
Proof.
  unfold cards_of, st_uploaded, card_sets_updated. simpl.
  pose proof (find_index_find (CardData.of_branch b) (cardDatas st)) as G.
  destruct (find_index (CardData.of_branch b) (cardDatas st)) as [i|] eqn:F.
  - destruct (find_index_nth _ _ _ F) as [d [Hd Hp]]. rewrite Hd.
    rewrite (find_replace_at _ _ i _ F); [|exact Hp].
    rewrite <- G, Hd. reflexivity.
  - rewrite find_app_first_hit; [|exact F|].
    + rewrite G. reflexivity.
    + unfold CardData.of_branch. simpl. apply String.eqb_refl.
Qed.

(** The cards of the other branches after the upload. *)
Lemma cards_of_uploaded_other (env : Env) (st : Store) (b b' s : string) (q : Q)
    (u : string) :
  b' <> b ->
  find (CardData.of_branch b') (cardDatas (st_uploaded env st b s q u))
  = find (CardData.of_branch b') (cardDatas st).
Proof.
  intros Hb. unfold st_uploaded, card_sets_updated. simpl.
  assert (Hn : forall cs, CardData.of_branch b' (cardDataSchema.Build b cs) = false).
  { intros cs. unfold CardData.of_branch. simpl. apply String.eqb_neq. congruence. }
  destruct (find_index (CardData.of_branch b) (cardDatas st)) as [i|] eqn:F.
  - destruct (find_index_nth _ _ _ F) as [d [Hd Hp]]. rewrite Hd.
    apply String.eqb_eq in Hp.
    apply (find_replace_at_other _ _ i d); [exact Hd| |].
    + unfold CardData.of_branch. rewrite Hp. apply String.eqb_neq. congruence.
    + rewrite Hp. apply Hn.
  - apply find_app_miss. apply Hn.
Qed.

(** An upload that answers 201, in full. *)
Lemma upload_status_201_full (req : UploadReq.t) (env : Env) (st : Store) :
  status_of (reply (post_api_upload req) env st) = Some 201 ->
  exists buf b s q u,
    req = UploadReq.Build (Some buf) (Some b) (UploadReq.cardNum req) (Some s)
    /\ b <> "" /\ Number (UploadReq.cardNum req) = Finite q
    /\ imageSchema.valid (new_image env s q u) = true
    /\ cloud env = Some u
    /\ exec (post_api_upload req) env st
       = (Ok (mkResponse 201 (JUploaded u (Finite q) s b)),
          mkRun (st_uploaded env st b s q u)
                [(CloudinaryUpload, Done); (ImageDeleteMany, Done);
                 (ImageSave, Done); (CardDataFindOne, Done);
                 (CardDataSave, Done)]).
Proof.
  intros H201. destruct (upload_checks req) eqn:Hchk.
  - destruct (upload_checks_true req Hchk) as (buf & b & s & q & Hreq & Hb & Hs & Hq).
    exists buf, b, s, q.
    pose proof (upload_runs env st buf b s (UploadReq.cardNum req) q Hb Hs Hq)
      as R.
    rewrite <- Hreq in R.
    unfold reply in H201. revert H201.
    inversion R as [ | | | | | |u Hu R1 V R2 R3 R4 E]; simpl;
      try discriminate.
    intros _. exists u. repeat (split; [assumption || reflexivity|]).
    reflexivity.
  - unfold reply in H201. rewrite (upload_stopped req env st Hchk) in H201.
    now destruct (UploadReq.body req).
Qed.

Lemma in_enum_cases (s : string) :
  imageSchema.in_enum s = true -> s = "before" \/ s = "after".
Proof.
  unfold imageSchema.in_enum. simpl. intros H. apply orb_prop in H.
  destruct H as [H|H].
  - left. now apply String.eqb_eq.
  - rewrite orb_false_r in H. right. now apply String.eqb_eq.
Qed.

Lemma valid_in_enum (env : Env) (s : string) (q : Q) (u : string) :
  imageSchema.valid (new_image env s q u) = true -> s = "before" \/ s = "after".
Proof.
  unfold imageSchema.valid, new_image. simpl. intros H.
  apply andb_prop in H. destruct H as [_ H]. now apply in_enum_cases.
Qed.

(** After an upload that answered 201, [/api/load-cards] for the branch
    of the upload shows, as the first card with the uploaded number, a
    card whose [beforeImg] (for slot "before") or [afterImg] (for slot
    "after") is the url the upload answered. *)
Theorem upload_shows_in_load_cards
    (req : UploadReq.t) (env env2 : Env) (st : Store) :
  status_of (reply (post_api_upload req) env st) = Some 201 ->
  db_rejects env2 0 = false ->
  let n := Number (UploadReq.cardNum req) in
  let s := str (UploadReq.slot req) in
  exists u cards card,
    reply (post_api_upload req) env st
    = Ok (mkResponse 201 (JUploaded u n s (str (UploadReq.branch req))))
    /\ reply (get_api_load_cards (UploadReq.branch req)) env2
         (after (post_api_upload req) env st)
       = Ok (mkResponse 200 (JCards cards))
    /\ find (cardSchema.has_cardNum n) cards = Some card
    /\ (s = "before" /\ cardSchema.beforeImg card = Some u
        \/ s = "after" /\ cardSchema.afterImg card = Some u).
Proof.
  intros H201 H2 n s. subst n s.
  destruct (upload_status_201_full req env st H201)
    as (buf & b & s & q & u & Hreq & Hb & Hq & V & Hu & E).
  unfold reply, after. rewrite E, Hq. rewrite Hreq.
  cbn [fst snd store]; upload_fields.
  rewrite (load_cards_runs b env2 _ Hb), H2. cbn [fst].
  fold (cards_of b (st_uploaded env st b s q u)).
  rewrite cards_of_uploaded.
  exists u, (set_card_image (Finite q) s u (cards_of b st)),
    (with_slot_image s u (target_card (Finite q) (cards_of b st))).
  split; [reflexivity|]. split; [reflexivity|].
  split; [apply find_set_card_image|].
  destruct (valid_in_enum env s q u V) as [->| ->]; [left | right];
    split; reflexivity.
Qed.

Lemma upload_shows_in_load_cards_witness :
  exists u cards card,
    reply (post_api_upload upload3) (fine "https://res/new.png" 50)
          store_with_images
    = Ok (mkResponse 201 (JUploaded u (Finite (3 # 1)) "before" "branch1"))
    /\ reply (get_api_load_cards (Some "branch1")) (fine "" 60)
         (after (post_api_upload upload3) (fine "https://res/new.png" 50)
            store_with_images)
       = Ok (mkResponse 200 (JCards cards))
    /\ find (cardSchema.has_cardNum (Finite (3 # 1))) cards = Some card
    /\ ("before" = "before" /\ cardSchema.beforeImg card = Some u
        \/ "before" = "after" /\ cardSchema.afterImg card = Some u).
Proof.
  exact (upload_shows_in_load_cards upload3 (fine "https://res/new.png" 50)
           (fine "" 60) store_with_images eq_refl eq_refl).
Defined.

(** An upload that answered 201 changes nothing else in the gallery: the
    cards of the other branches, and in its own branch the cards with
    another number, stay as they are; the branch gains one card when none
    had the number and none otherwise; and the card written to keeps its
    number, name, details, weights and the image of the other slot. *)
Theorem upload_keeps_the_rest (req : UploadReq.t) (env : Env) (st : Store) :
  status_of (reply (post_api_upload req) env st) = Some 201 ->
  let n := Number (UploadReq.cardNum req) in
  let s := str (UploadReq.slot req) in
  let b := str (UploadReq.branch req) in
  let st' := after (post_api_upload req) env st in
  (forall b', b' <> b -> cards_of b' st' = cards_of b' st)
  /\ (forall j c, nth_error (cards_of b st) j = Some c ->
                  cardSchema.has_cardNum n c = false ->
                  nth_error (cards_of b st') j = Some c)
  /\ length (cards_of b st')
     = (if is_some (find (cardSchema.has_cardNum n) (cards_of b st))
        then length (cards_of b st) else S (length (cards_of b st)))
  /\ (forall c0, find (cardSchema.has_cardNum n) (cards_of b st) = Some c0 ->
      exists c1,
        find (cardSchema.has_cardNum n) (cards_of b st') = Some c1
        /\ cardSchema.cardNum c1 = cardSchema.cardNum c0
        /\ cardSchema.name c1 = cardSchema.name c0
        /\ cardSchema.details c1 = cardSchema.details c0
        /\ cardSchema.beforeWeight c1 = cardSchema.beforeWeight c0
        /\ cardSchema.afterWeight c1 = cardSchema.afterWeight c0
        /\ (s = "before" -> cardSchema.afterImg c1 = cardSchema.afterImg c0)
        /\ (s = "after" -> cardSchema.beforeImg c1 = cardSchema.beforeImg c0))
  /\ offers st' = offers st /\ inquiries st' = inquiries st.
Proof.
  intros H201 n s b st'. subst n s b st'.
  destruct (upload_status_201_full req env st H201)
    as (buf & b & s & q & u & Hreq & Hb & Hq & V & Hu & E).
  unfold after. rewrite E, Hq. rewrite Hreq.
  cbn [fst snd store]; upload_fields.
  split; [|split; [|split; [|split; [|split; reflexivity]]]].
  - intros b' Hb'. unfold cards_of.
    now rewrite (cards_of_uploaded_other env st b b' s q u Hb').
  - intros j c Hj Hc. rewrite cards_of_uploaded.
    now apply nth_set_card_image_other.
  - rewrite cards_of_uploaded. apply length_set_card_image.
  - intros c0 Hc0. rewrite cards_of_uploaded, find_set_card_image.
    unfold target_card. rewrite Hc0.
    exists (with_slot_image s u c0). split; [reflexivity|].
    destruct (valid_in_enum env s q u V) as [->| ->]; simpl;
      repeat split; try reflexivity; intros; discriminate.
Qed.

Lemma upload_keeps_the_rest_witness :
  let st' := after (post_api_upload upload3) (fine "https://res/new.png" 50)
                   store_two_branches in
  cards_of "branch2" st' = cards_of "branch2" store_two_branches
  /\ nth_error (cards_of "branch1" st') 0 = Some card2
  /\ length (cards_of "branch1" st') = 2%nat.
Proof.
  intros st'.
  destruct (upload_keeps_the_rest upload3 (fine "https://res/new.png" 50)
              store_two_branches eq_refl) as (H1 & H2 & H3 & _).
  split; [apply H1; discriminate|].
  split; [apply (H2 0%nat card2); reflexivity | exact H3].
Defined.

(** Two uploads for the same branch and card number that both answered
    201, the first for slot "before" and the second for slot "after",
    leave one card that carries both urls. *)
Theorem upload_before_then_after
    (req1 req2 : UploadReq.t) (env1 env2 : Env) (st : Store) :
  let st1 := after (post_api_upload req1) env1 st in
  let st2 := after (post_api_upload req2) env2 st1 in
  status_of (reply (post_api_upload req1) env1 st) = Some 201 ->
  status_of (reply (post_api_upload req2) env2 st1) = Some 201 ->
  UploadReq.branch req2 = UploadReq.branch req1 ->
  Number (UploadReq.cardNum req2) = Number (UploadReq.cardNum req1) ->
  UploadReq.slot req1 = Some "before" -> UploadReq.slot req2 = Some "after" ->
  exists u1 u2 card,
    cloud env1 = Some u1 /\ cloud env2 = Some u2
    /\ find (cardSchema.has_cardNum (Number (UploadReq.cardNum req1)))
            (cards_of (str (UploadReq.branch req1)) st2)
       = Some card
    /\ cardSchema.beforeImg card = Some u1
    /\ cardSchema.afterImg card = Some u2.
Proof.
  intros st1 st2 H1 H2 Hbr Hn Hs1 Hs2. subst st1 st2.
  destruct (upload_status_201_full req1 env1 st H1)
    as (buf1 & b1 & s1 & q1 & u1 & Hreq1 & Hb1 & Hq1 & V1 & Hu1 & E1).
  assert (A1 : after (post_api_upload req1) env1 st
               = st_uploaded env1 st b1 s1 q1 u1)
    by (unfold after; now rewrite E1).
  rewrite A1 in *.
  destruct (upload_status_201_full req2 env2 _ H2)
    as (buf2 & b2 & s2 & q2 & u2 & Hreq2 & Hb2 & Hq2 & V2 & Hu2 & E2).
  assert (A2 : after (post_api_upload req2) env2
                 (st_uploaded env1 st b1 s1 q1 u1)
               = st_uploaded env2 (st_uploaded env1 st b1 s1 q1 u1) b2 s2 q2 u2)
    by (unfold after; now rewrite E2).
  rewrite A2.
  rewrite Hq1 in *. rewrite Hq2 in Hn. injection Hn as ->.
  rewrite Hreq1 in Hbr, Hs1. rewrite Hreq2 in Hbr, Hs2. simpl in Hbr, Hs1, Hs2.
  injection Hbr as ->. injection Hs1 as ->. injection Hs2 as ->.
  rewrite Hreq1. upload_fields.
  exists u1, u2. rewrite !cards_of_uploaded, find_set_card_image.
  eexists. split; [exact Hu1|]. split; [exact Hu2|]. split; [reflexivity|].
  unfold target_card. rewrite find_set_card_image. split; reflexivity.
Qed.

Lemma upload_before_then_after_witness :
  exists u1 u2 card,
    Some "https://res/b.png" = Some u1 /\ Some "https://res/a.png" = Some u2
    /\ find (cardSchema.has_cardNum (Finite (3 # 1)))
            (cards_of "branch1"
               (after (post_api_upload
                         (UploadReq.Build (Some "PNG") (Some "branch1")
                            (Some "3.0") (Some "after")))
                      (fine "https://res/a.png" 60)
                      (after (post_api_upload upload3)
                             (fine "https://res/b.png" 50) empty_store)))
       = Some card
    /\ cardSchema.beforeImg card = Some u1
    /\ cardSchema.afterImg card = Some u2.
Proof.
  exact (upload_before_then_after upload3
           (UploadReq.Build (Some "PNG") (Some "branch1") (Some "3.0")
              (Some "after"))
           (fine "https://res/b.png" 50) (fine "https://res/a.png" 60)
           empty_store eq_refl eq_refl eq_refl eq_refl eq_refl eq_refl).
Defined.

(** ** Uploads that fail half way *)

(** When the insert of the ImageSlot does not go through (rejected by the
    store or refused by the schema), the upload answers 500 and the pair
    is left without any ImageSlot: the old one was already deleted and is
    not put back.  The card sets are untouched. *)
Theorem upload_image_insert_fails
    (req : UploadReq.t) (env : Env) (st : Store) (o : Outcome) :
  In (ImageSave, o) (calls (post_api_upload req) env st) -> o <> Done ->
  reply (post_api_upload req) env st = Ok upload_failed
  /\ filter (Image.matches (Number (UploadReq.cardNum req))
                           (str (UploadReq.slot req)))
            (images (after (post_api_upload req) env st)) = []
  /\ cardDatas (after (post_api_upload req) env st) = cardDatas st.
Proof.
  unfold reply, after, calls. destruct (upload_checks req) eqn:Hchk.
  - destruct (upload_checks_true req Hchk) as (buf & b & s & q & Hreq & Hb & Hs & Hq).
    rewrite Hq. rewrite Hreq.
    upload_fields.
    pose proof (upload_runs env st buf b s (UploadReq.cardNum req) q Hb Hs Hq) as R.
    inversion R; cbn [fst snd store trace]; intros Hin Ho;
      repeat (destruct Hin as [Hin|Hin];
              [try discriminate; injection Hin as <-; try contradiction|]);
      try destruct Hin;
      (split; [reflexivity|]); (split; [|reflexivity]);
      unfold st_purged, images_purged; cbn [images]; apply filter_remove_all.
  - rewrite (upload_stopped req env st Hchk). intros [].
Qed.

Definition image_store_down (u : string) (t : Z) : Env :=
  mkEnv (Some u) (fun k => Nat.eqb k 2) false t.

Lemma upload_image_insert_fails_witness :
  reply (post_api_upload upload3) (image_store_down "https://res/new.png" 50)
        store_with_images
  = Ok upload_failed
  /\ filter (Image.matches (Finite (3 # 1)) "before")
            (images (after (post_api_upload upload3)
                       (image_store_down "https://res/new.png" 50)
                       store_with_images))
     = []
  /\ cardDatas (after (post_api_upload upload3)
                  (image_store_down "https://res/new.png" 50) store_with_images)
     = cardDatas store_with_images.
Proof.
  apply (upload_image_insert_fails upload3
           (image_store_down "https://res/new.png" 50) store_with_images
           Rejected).
  - right. right. left. reflexivity.
  - discriminate.
Defined.

(** When the save of the card set is rejected, the upload answers 500
    although the new ImageSlot is already stored: [/api/images] shows the
    new url for the pair while the card sets, and so [/api/load-cards],
    are as before. *)
Theorem upload_card_save_fails (req : UploadReq.t) (env : Env) (st : Store) :
  In (CardDataSave, Rejected) (calls (post_api_upload req) env st) ->
  let n := Number (UploadReq.cardNum req) in
  let s := str (UploadReq.slot req) in
  exists u,
    cloud env = Some u
    /\ reply (post_api_upload req) env st = Ok upload_failed
    /\ filter (Image.matches n s) (images (after (post_api_upload req) env st))
       = [imageSchema.Build u n s (now env)]
    /\ cardDatas (after (post_api_upload req) env st) = cardDatas st.
Proof.
  unfold reply, after, calls. destruct (upload_checks req) eqn:Hchk.
  - destruct (upload_checks_true req Hchk) as (buf & b & s & q & Hreq & Hb & Hs & Hq).
    rewrite Hq. rewrite Hreq.
    upload_fields.
    pose proof (upload_runs env st buf b s (UploadReq.cardNum req) q Hb Hs Hq) as R.
    inversion R as [Hu E|u Hu R1 E|u Hu R1 V E|u Hu R1 V R2 E|u Hu R1 V R2 R3 E
                    |u Hu R1 V R2 R3 R4 E|u Hu R1 V R2 R3 R4 E];
      cbn [fst snd store trace]; intros Hin;
      repeat (destruct Hin as [Hin|Hin]; [try discriminate|]);
      try destruct Hin.
    exists u. split; [exact Hu|]. split; [reflexivity|]. split; [|reflexivity].
    unfold st_image. cbn [images]. apply filter_purged.
  - rewrite (upload_stopped req env st Hchk). intros [].
Qed.

Definition card_store_down (u : string) (t : Z) : Env :=
  mkEnv (Some u) (fun k => Nat.eqb k 4) false t.

Lemma upload_card_save_fails_witness :
  exists u,
    Some "https://res/new.png" = Some u
    /\ reply (post_api_upload upload3) (card_store_down "https://res/new.png" 50)
             store_with_images
       = Ok upload_failed
    /\ filter (Image.matches (Finite (3 # 1)) "before")
              (images (after (post_api_upload upload3)
                         (card_store_down "https://res/new.png" 50)
                         store_with_images))
       = [imageSchema.Build u (Finite (3 # 1)) "before" 50]
    /\ cardDatas (after (post_api_upload upload3)
                    (card_store_down "https://res/new.png" 50)
                    store_with_images)
       = cardDatas store_with_images.
Proof.
  apply (upload_card_save_fails upload3
           (card_store_down "https://res/new.png" 50) store_with_images).
  do 4 right. left. reflexivity.
Defined.

(** ** More on the gallery cards *)



Lemma remove_all_idem_snoc {A : Type} (p : A -> bool) (l : list A) (x y : A) :
  p x = true ->
  remove_all p (remove_all p l ++ [x]) ++ [y] = remove_all p l ++ [y].
Proof.
  intros Hx. unfold remove_all. rewrite filter_app. simpl. rewrite Hx. simpl.
  rewrite app_nil_r. f_equal.
  induction l as [|z l IH]; simpl; [reflexivity|].
  destruct (p z) eqn:E; simpl; [exact IH|]. rewrite E. simpl. now rewrite IH.
Qed.

(** Saving the same cards for a branch a second time leaves the store as
    the first save left it. *)
Theorem save_cards_idempotent
    (b : string) (cs : list cardSchema.doc) (env1 env2 : Env) (st : Store) :
  b <> "" -> db_ok env1 -> db_ok env2 ->
  let post := post_api_save_cards (SaveCardsReq.Build (Some b) (Some cs)) in
  reply post env2 (after post env1 st) = Ok (mkResponse 200 JSuccess)
  /\ after post env2 (after post env1 st) = after post env1 st.
Proof.
  intros Hb H1 H2 post. unfold post, reply, after.
  destruct (cast_all_to_json cs) as [ds E].
  unfold SaveCardsReq.Build. cbn [option_map].
  rewrite (save_cards_runs b _ env1 st Hb), E, !H1. cbn [snd store].
  rewrite (save_cards_runs b _ env2 _ Hb), E, !H2. cbn [fst snd store].
  split; [reflexivity|]. unfold cards_replaced. cbn [images cardDatas offers inquiries].
  f_equal. apply remove_all_idem_snoc. unfold CardData.of_branch. simpl.
  apply String.eqb_refl.
Qed.

Lemma save_cards_idempotent_witness :
  let post := post_api_save_cards
                (SaveCardsReq.Build (Some "branch1") (Some [card1])) in
  reply post (fine "" 8) (after post (fine "" 7) store_two_branches)
  = Ok (mkResponse 200 JSuccess)
  /\ after post (fine "" 8) (after post (fine "" 7) store_two_branches)
     = after post (fine "" 7) store_two_branches.
Proof.
  apply (save_cards_idempotent "branch1" [card1] (fine "" 7) (fine "" 8)
           store_two_branches).
  - discriminate.
  - apply db_ok_fine.
  - apply db_ok_fine.
Defined.

Lemma find_remove_all_other {A : Type} (p r : A -> bool) (l : list A) :
  (forall x, p x = true -> r x = false) ->
  find p (remove_all r l) = find p l.
Proof.
  intros H. unfold remove_all. induction l as [|x l IH]; simpl; [reflexivity|].
  destruct (p x) eqn:E.
  - rewrite (H x E). simpl. now rewrite E.
  - destruct (r x); simpl; [exact IH|]. now rewrite E.
Qed.

Lemma of_branch_other (b b' : string) (x : cardDataSchema.doc) :
  b' <> b -> CardData.of_branch b' x = true -> CardData.of_branch b x = false.
Proof.
  unfold CardData.of_branch. intros Hb H. apply String.eqb_eq in H.
  apply String.eqb_neq. congruence.
Qed.

(** A save for one branch never changes what the other branches show, nor
    the images, the offers or the inquiries, whether it succeeds, is
    refused, or fails half way. *)
Theorem save_cards_leaves_other_branches
    (req : SaveCardsReq.t) (env : Env) (st : Store) (b' : string) :
  Some b' <> SaveCardsReq.branch req ->
  let st' := after (post_api_save_cards req) env st in
  cards_of b' st' = cards_of b' st
  /\ images st' = images st /\ offers st' = offers st
  /\ inquiries st' = inquiries st.
Proof.
  intros Hb'. unfold after.
  destruct (save_checks req) eqn:Hchk.
  - destruct (save_cards_accepted req Hchk) as (b & cs & -> & Hb).
    cbv in Hb'. assert (Hne : b' <> b) by congruence.
    rewrite (save_cards_runs b cs env st Hb).
    assert (Hp : find (CardData.of_branch b')
                   (remove_all (CardData.of_branch b) (cardDatas st))
                 = find (CardData.of_branch b') (cardDatas st)).
    { rewrite find_remove_all_other; [reflexivity|].
      intros x. now apply of_branch_other. }
    destruct (db_rejects env 0);
      [|destruct (cardSchema.cast_all cs) as [ds|];
        [destruct (db_rejects env 1)|]]; simpl;
      (split; [|repeat split]); unfold cards_of; simpl;
      try reflexivity; try (now rewrite Hp).
    rewrite find_app_miss.
    + now rewrite Hp.
    + unfold CardData.of_branch. simpl. apply String.eqb_neq. congruence.
  - rewrite (save_cards_stopped req env st Hchk). simpl. repeat split.
Qed.

Lemma save_cards_leaves_other_branches_witness :
  let st' := after (post_api_save_cards
                      (SaveCardsReq.Build (Some "branch1") (Some [card1])))
                   (fine "" 7) store_two_branches in
  cards_of "branch2" st' = cards_of "branch2" store_two_branches
  /\ images st' = images store_two_branches
  /\ offers st' = offers store_two_branches
  /\ inquiries st' = inquiries store_two_branches.
Proof.
  apply (save_cards_leaves_other_branches
           (SaveCardsReq.Build (Some "branch1") (Some [card1])) (fine "" 7)
           store_two_branches "branch2").
  discriminate.
Defined.

(** The replacement is not atomic: when the delete goes through and the
    insert is rejected, the save answers 500 and the cards the branch had
    are gone; a following [/api/load-cards] shows an empty array. *)
Theorem save_cards_insert_rejected
    (b : string) (cs : list cardSchema.doc) (env env2 : Env) (st : Store) :
  b <> "" -> db_rejects env 0 = false -> db_rejects env 1 = true ->
  db_rejects env2 0 = false ->
  let post := post_api_save_cards (SaveCardsReq.Build (Some b) (Some cs)) in
  reply post env st = Ok save_failed
  /\ calls post env st = [(CardDataDeleteMany, Done); (CardDataSave, Rejected)]
  /\ reply (get_api_load_cards (Some b)) env2 (after post env st)
     = Ok (mkResponse 200 (JCards [])).
Proof.
  intros Hb R0 R1 R2 post. unfold post, reply, calls, after.
  destruct (save_cards_runs_stored b cs env st Hb) as (ds & _ & ->).
  rewrite R0, R1. cbn [fst snd store trace].
  split; [reflexivity|]. split; [reflexivity|].
  rewrite (load_cards_runs b env2 _ Hb), R2. cbn [fst].
  unfold cards_purged. cbn [cardDatas].
  destruct (find (CardData.of_branch b)
              (remove_all (CardData.of_branch b) (cardDatas st))) as [d|] eqn:F;
    [|reflexivity].
  apply find_some in F. destruct F as [Hin Hd].
  apply remove_all_none in Hin. congruence.
Qed.

Definition insert_down : Env := mkEnv None (fun k => Nat.eqb k 1) false 7.

Lemma save_cards_insert_rejected_witness :
  let post := post_api_save_cards
                (SaveCardsReq.Build (Some "branch2") (Some [card1])) in
  reply post insert_down store_two_branches = Ok save_failed
  /\ calls post insert_down store_two_branches
     = [(CardDataDeleteMany, Done); (CardDataSave, Rejected)]
  /\ reply (get_api_load_cards (Some "branch2")) (fine "" 8)
       (after post insert_down store_two_branches)
     = Ok (mkResponse 200 (JCards [])).
Proof.
  apply (save_cards_insert_rejected "branch2" [card1] insert_down (fine "" 8)
           store_two_branches); [discriminate | reflexivity ..].
Defined.

(** ** More on the offer and the inquiries *)

Lemma length_upserted_again (k : string) (d d0 : offerSchema.doc)
    (l : list offerSchema.doc) :
  offerSchema.key d0 = k ->
  length (upserted k d (upserted k d0 l)) = length (upserted k d0 l).
Proof.
  intros Hk. unfold upserted at 1.
  pose proof (find_index_find (Offer.of_key k) (upserted k d0 l)) as G.
  destruct (find_index (Offer.of_key k) (upserted k d0 l)) as [i|].
  - apply length_replace_at.
  - rewrite (find_upserted k d0 l Hk) in G. discriminate.
Qed.

(** A second POST of an offer overwrites the first: no second offer is
    stored, the GET shows the second request only, and a field the second
    request leaves out is shown empty, not with the value of the first. *)
Theorem post_offer_overwrites
    (req1 req2 : OfferReq.t) (env1 env2 env3 : Env) (st : Store) :
  offer_checks req1 = true -> offer_checks req2 = true ->
  db_ok env1 -> db_ok env2 -> db_ok env3 ->
  let st1 := after (post_api_offers_latest req1) env1 st in
  let st2 := after (post_api_offers_latest req2) env2 st1 in
  length (offers st2) = length (offers st1)
  /\ reply get_api_offers_latest env3 st2
     = Ok (mkResponse 200
             (JOffer (or_empty (OfferReq.title req2))
                     (or_empty (OfferReq.details req2))
                     (or_empty (OfferReq.imageUrl req2)) (now env2))).
Proof.
  intros C1 C2 H1 H2 H3 st1 st2. subst st1 st2. unfold after, reply.
  rewrite (post_offer_runs req1 env1 st C1), H1. cbn [snd store].
  rewrite (post_offer_runs req2 env2 _ C2), H2. cbn [snd store].
  unfold offer_saved. cbn [offers]. split.
  - now apply length_upserted_again.
  - rewrite get_offer_runs, H3. cbn [fst offers].
    now rewrite find_upserted.
Qed.

Lemma post_offer_overwrites_witness :
  let req1 := OfferReq.Build (Some "Summer") (Some "10% off") (Some "s.png") in
  let req2 := OfferReq.Build (Some "Monsoon") None None in
  let st1 := after (post_api_offers_latest req1) (fine "" 100) empty_store in
  let st2 := after (post_api_offers_latest req2) (fine "" 200) st1 in
  length (offers st2) = length (offers st1)
  /\ reply get_api_offers_latest (fine "" 300) st2
     = Ok (mkResponse 200 (JOffer "Monsoon" "" "" 200)).
Proof.
  apply (post_offer_overwrites
           (OfferReq.Build (Some "Summer") (Some "10% off") (Some "s.png"))
           (OfferReq.Build (Some "Monsoon") None None)
           (fine "" 100) (fine "" 200) (fine "" 300) empty_store);
    first [reflexivity | apply db_ok_fine].
Defined.

(** The notification is sent only for an inquiry that is already stored:
    if the handler called the mail relay, the insert had gone through and
    the answer is 201 whatever the relay did; and if the store rejects the
    insert, the answer is 500, nothing is stored and no mail is sent. *)
Theorem notification_only_after_insert
    (cfg : Config) (req : InquiryReq.t) (env : Env) (st : Store) :
  let post := post_api_contact_inquiries cfg req in
  (forall o, In (SendMail, o) (calls post env st) ->
     nth_error (calls post env st) 0 = Some (ContactInquiryCreate, Done)
     /\ inquiries (after post env st)
        = inquiries st ++ [inquiry_of req (now env)]
     /\ status_of (reply post env st) = Some 201)
  /\ (In (ContactInquiryCreate, Rejected) (calls post env st) ->
      reply post env st
      = Ok (mkResponse 500 (JError "Failed to save inquiry"))
      /\ after post env st = st
      /\ calls post env st = [(ContactInquiryCreate, Rejected)]).
Proof.
  intros post. unfold post, reply, after, calls.
  destruct (inquiry_checks req) eqn:Hchk.
  - rewrite (inquiry_runs cfg req env st Hchk).
    destruct (db_rejects env 0); cbn [fst snd store trace].
    + split; [|intros _; repeat split].
      intros o [H|[]]. discriminate.
    + split; [intros o _; repeat split|].
      intros [H|H]; [discriminate|].
      destruct (notifies cfg); [|destruct H].
      destruct H as [H|[]]. discriminate.
  - rewrite (inquiry_refused cfg req env st Hchk). cbn [fst snd store trace].
    split; [intros o [] | intros []].
Qed.

Lemma notification_only_after_insert_witness :
  (nth_error (calls (post_api_contact_inquiries relay inquiry_A) (mail_down 9)
                empty_store) 0
   = Some (ContactInquiryCreate, Done)
   /\ inquiries (after (post_api_contact_inquiries relay inquiry_A)
                   (mail_down 9) empty_store)
      = [contactInquirySchema.Build "A" "a@b.com" "" "hi" 9]
   /\ status_of (reply (post_api_contact_inquiries relay inquiry_A)
                   (mail_down 9) empty_store)
      = Some 201)
  /\ (reply (post_api_contact_inquiries relay inquiry_A)
        (mkEnv None (fun _ => true) false 9) empty_store
      = Ok (mkResponse 500 (JError "Failed to save inquiry"))
      /\ after (post_api_contact_inquiries relay inquiry_A)
           (mkEnv None (fun _ => true) false 9) empty_store
         = empty_store
      /\ calls (post_api_contact_inquiries relay inquiry_A)
           (mkEnv None (fun _ => true) false 9) empty_store
         = [(ContactInquiryCreate, Rejected)]).
Proof.
  split.
  - apply (proj1 (notification_only_after_insert relay inquiry_A (mail_down 9)
                    empty_store) Rejected).
    right. left. reflexivity.
  - apply (proj2 (notification_only_after_insert relay inquiry_A
                    (mkEnv None (fun _ => true) false 9) empty_store)).
    left. reflexivity.
Defined.

(** ** The image listing *)

Lemma insert_by_perm {A : Type} (k : A -> Z) (x : A) (l : list A) :
  Permutation (insert_by k x l) (x :: l).
Proof.
  induction l as [|y l IH]; simpl; [reflexivity|].
  destruct (k y <=? k x); [|reflexivity].
  rewrite IH. apply perm_swap.
Qed.

Lemma sort_by_perm {A : Type} (k : A -> Z) (l : list A) :
  Permutation (sort_by k l) l.
Proof.
  unfold sort_by.
  assert (G : forall acc,
             Permutation (fold_left (fun acc x => insert_by k x acc) l acc)
                         (acc ++ l)).
  { induction l as [|x l IH]; intros acc; simpl.
    - now rewrite app_nil_r.
    - rewrite IH, insert_by_perm. simpl. apply Permutation_middle. }
  exact (G []).
Qed.

(** Ascending order of the keys. *)
Definition ascending {A : Type} (k : A -> Z) : list A -> Prop :=
  StronglySorted (fun a b => k a <= k b).

Lemma insert_by_ascending {A : Type} (k : A -> Z) (x : A) (l : list A) :
  ascending k l -> ascending k (insert_by k x l).
Proof.
  unfold ascending. induction l as [|y l IH]; simpl; intros H.
  - constructor; constructor.
  - inversion H as [|? ? Hl Hy]; subst.
    destruct (k y <=? k x) eqn:E.
    + constructor; [now apply IH|].
      apply Z.leb_le in E. rewrite Forall_forall in *. intros z Hz.
      apply (Permutation_in _ (insert_by_perm k x l)) in Hz.
      destruct Hz as [<-|Hz]; [exact E | now apply Hy].
    + apply Z.leb_gt in E. constructor; [exact H|].
      constructor; [lia|]. rewrite Forall_forall in *. intros z Hz.
      specialize (Hy z Hz). lia.
Qed.

Lemma sort_by_ascending {A : Type} (k : A -> Z) (l : list A) :
  ascending k (sort_by k l).
Proof.
  unfold sort_by.
  assert (G : forall acc, ascending k acc ->
             ascending k (fold_left (fun acc x => insert_by k x acc) l acc)).
  { induction l as [|x l IH]; intros acc Hacc; simpl; [exact Hacc|].
    apply IH. now apply insert_by_ascending. }
  apply G. constructor.
Qed.

(** What a query asks of an image: each filter that is given and not
    empty must hold, the card number after the cast to a number. *)
Definition wanted (q : ImagesQuery.t) (d : imageSchema.doc) : Prop :=
  (truthy (ImagesQuery.cardNum q) = true ->
   num_eq (imageSchema.cardNum d) (Number (ImagesQuery.cardNum q)) = true)
  /\ (truthy (ImagesQuery.slot q) = true ->
      Some (imageSchema.slot d) = ImagesQuery.slot q).

(** The filter of the listing as a test on an image. *)
Definition passes_query (q : ImagesQuery.t) (d : imageSchema.doc) : bool :=
  (negb (truthy (ImagesQuery.cardNum q))
   || num_eq (imageSchema.cardNum d) (Number (ImagesQuery.cardNum q)))
  && (negb (truthy (ImagesQuery.slot q))
      || String.eqb (imageSchema.slot d) (str (ImagesQuery.slot q))).

Lemma cast_cardNum_given (c : field) :
  (truthy c = true -> Number c <> NaN) ->
  exists tn,
    Image.cast_cardNum (given c) = Some tn
    /\ forall x, Image.passes tn x = negb (truthy c) || num_eq x (Number c).
Proof.
  intros H. unfold given. destruct (truthy c) eqn:T.
  - destruct c as [X|]; [|discriminate]. specialize (H eq_refl).
    unfold Image.cast_cardNum, castNumber.
    rewrite (proj2 (String.eqb_neq X "") (proj1 (truthy_Some X) T)).
    simpl in H |- *. destruct (StringToNumber X); [contradiction| |];
      eexists; split; reflexivity.
  - exists None. split; reflexivity.
Qed.

Lemma cast_slot_given (sl : field) (y : string) :
  Image.passes (Image.cast_slot (given sl)) y
  = negb (truthy sl) || String.eqb y (str sl).
Proof.
  unfold given. destruct (truthy sl) eqn:T.
  - destruct sl as [Y|]; [reflexivity | discriminate].
  - reflexivity.
Qed.

Lemma passes_query_wanted (q : ImagesQuery.t) (d : imageSchema.doc) :
  passes_query q d = true <-> wanted q d.
Proof.
  unfold passes_query, wanted. rewrite andb_true_iff, !orb_true_iff.
  rewrite !negb_true_iff, String.eqb_eq.
  destruct (truthy (ImagesQuery.cardNum q)),
    (truthy (ImagesQuery.slot q)) eqn:TS.
  - destruct (ImagesQuery.slot q) as [Y|]; [|discriminate]. simpl.
    split.
    + intros [[H|H] [G|G]]; try discriminate. split; intros _; congruence.
    + intros [H G]. split; right; [now apply H|].
      specialize (G eq_refl). congruence.
  - split; [intros [[H|H] _]; try discriminate; split; intros; congruence|].
    intros [H _]. split; [right; now apply H | now left].
  - destruct (ImagesQuery.slot q) as [Y|]; [|discriminate]. simpl.
    split.
    + intros [_ [G|G]]; try discriminate. split; intros; congruence.
    + intros [_ G]. split; [now left | right].
      specialize (G eq_refl). congruence.
  - split; [intros _; split; intros; discriminate|].
    intros _. split; now left.
Qed.

Lemma filter_all {A : Type} (p : A -> bool) (l : list A) :
  (forall x, p x = true) -> filter p l = l.
Proof.
  intros H. induction l as [|x l IH]; simpl; [reflexivity|].
  now rewrite H, IH.
Qed.

(** [/api/images] on a working store, with a card number filter that is
    absent, empty or a number: the answer lists exactly the stored images
    that pass the filters given, each as often as it is stored, in
    ascending order of creation; an empty filter counts as absent, and
    without filters every image is listed. *)
Theorem get_images_lists_wanted (q : ImagesQuery.t) (env : Env) (st : Store) :
  db_rejects env 0 = false ->
  (truthy (ImagesQuery.cardNum q) = true ->
   Number (ImagesQuery.cardNum q) <> NaN) ->
  exists l,
    reply (get_api_images q) env st = Ok (mkResponse 200 (JImages l))
    /\ Permutation l (filter (passes_query q) (images st))
    /\ (forall d, In d l <-> In d (images st) /\ wanted q d)
    /\ (truthy (ImagesQuery.cardNum q) = false ->
        truthy (ImagesQuery.slot q) = false -> Permutation l (images st))
    /\ ascending imageSchema.createdAt l.
Proof.
  intros Hdb Hnum. unfold reply. rewrite get_images_runs.
  destruct (cast_cardNum_given (ImagesQuery.cardNum q) Hnum) as (tn & -> & Htn).
  rewrite Hdb. cbn [fst].
  assert (F : filter
                (fun d =>
                   Image.passes tn (imageSchema.cardNum d)
                   && Image.passes (Image.cast_slot (given (ImagesQuery.slot q)))
                                   (imageSchema.slot d))
                (images st)
              = filter (passes_query q) (images st)).
  { apply filter_ext. intros d. unfold passes_query.
    now rewrite Htn, cast_slot_given. }
  rewrite F. eexists. split; [reflexivity|].
  assert (P : Permutation
                (sort_by imageSchema.createdAt
                   (filter (passes_query q) (images st)))
                (filter (passes_query q) (images st)))
    by apply sort_by_perm.
  split; [exact P|]. split; [|split].
  - intros d. rewrite <- passes_query_wanted, <- filter_In.
    split; intros H.
    + exact (Permutation_in d P H).
    + exact (Permutation_in d (Permutation_sym P) H).
  - intros T1 T2. rewrite P. rewrite filter_all; [reflexivity|].
    intros d. unfold passes_query. now rewrite T1, T2.
  - apply sort_by_ascending.
Qed.

Lemma get_images_lists_wanted_witness :
  exists l,
    reply (get_api_images (ImagesQuery.Build (Some "") (Some "after")))
          (fine "" 60) store_with_images
    = Ok (mkResponse 200 (JImages l))
    /\ Permutation l
         (filter (passes_query (ImagesQuery.Build (Some "") (Some "after")))
                 (images store_with_images))
    /\ (In other_image l
        <-> In other_image (images store_with_images)
            /\ wanted (ImagesQuery.Build (Some "") (Some "after")) other_image)
    /\ ascending imageSchema.createdAt l.
Proof.
  destruct (get_images_lists_wanted
              (ImagesQuery.Build (Some "") (Some "after")) (fine "" 60)
              store_with_images eq_refl)
    as (l & H1 & H2 & H3 & _ & H5).
  - discriminate.
  - exists l. split; [exact H1|]. split; [exact H2|].
    split; [exact (H3 other_image) | exact H5].
Defined.

(** [/api/images] with a card number filter that is not a number: the
    cast of the filter fails before the store is asked, and the answer is
    500. *)
Theorem get_images_bad_cardNum (q : ImagesQuery.t) (env : Env) (st : Store) :
  truthy (ImagesQuery.cardNum q) = true ->
  Number (ImagesQuery.cardNum q) = NaN ->
  reply (get_api_images q) env st = Ok images_failed
  /\ calls (get_api_images q) env st = [(ImageFind, Invalid)]
  /\ after (get_api_images q) env st = st.
Proof.
  intros T N. unfold reply, calls, after. rewrite get_images_runs.
  unfold given. rewrite T. destruct (ImagesQuery.cardNum q) as [X|];
    [|discriminate].
  unfold Image.cast_cardNum, castNumber.
  rewrite (proj2 (String.eqb_neq X "") (proj1 (truthy_Some X) T)).
  simpl in N. rewrite N. repeat split.
Qed.

Lemma get_images_bad_cardNum_witness :
  reply (get_api_images (ImagesQuery.Build (Some "abc") None)) (fine "" 60)
        store_with_images
  = Ok images_failed
  /\ calls (get_api_images (ImagesQuery.Build (Some "abc") None)) (fine "" 60)
           store_with_images
     = [(ImageFind, Invalid)]
  /\ after (get_api_images (ImagesQuery.Build (Some "abc") None)) (fine "" 60)
           store_with_images
     = store_with_images.
Proof.
  apply (get_images_bad_cardNum (ImagesQuery.Build (Some "abc") None)
           (fine "" 60) store_with_images).
  - reflexivity.
  - vm_compute. reflexivity.
Defined.

(** ** Start-up: the process environment and the mail settings *)

(** [process.env]: the value of a variable, if it is set. *)
Definition ProcessEnv : Type := string -> field.

(** [a || b] on a field and a string. *)
Definition or_else (a : field) (b : string) : string :=
  if truthy a then str a else b.

(** [s.toLowerCase()] on code units below 256: the letters A-Z, and the
    capital letters from U+00C0 to U+00DE but for the sign U+00D7. *)
Definition lower_char (c : ascii) : ascii :=
  let n := nat_of_ascii c in
  if ((65 <=? n) && (n <=? 90))%nat then ascii_of_nat (n + 32)
  else if ((192 <=? n) && (n <=? 222) && negb (n =? 215))%nat
  then ascii_of_nat (n + 32)
  else c.

Fixpoint toLowerCase (s : string) : string :=
  match s with
  | EmptyString => EmptyString
  | String c r => String (lower_char c) (toLowerCase r)
  end.

(** [String(v || '').toLowerCase() === 'true'] *)
Definition says_true (v : field) : bool :=
  String.eqb (toLowerCase (or_else v "")) "true".

Section Startup.

Variable penv : ProcessEnv.

Definition CONTACT_TO_EMAIL_of : string := or_else (penv "CONTACT_TO_EMAIL") "".
Definition CONTACT_FROM_EMAIL_of : string :=
  or_else (penv "CONTACT_FROM_EMAIL") (or_else (penv "SMTP_USER") "").
Definition SMTP_HOST_of : string := or_else (penv "SMTP_HOST") "".

(** [Number(process.env.SMTP_PORT || 587)] *)
Definition SMTP_PORT : jsnum :=
  if truthy (penv "SMTP_PORT") then Number (penv "SMTP_PORT")
  else Finite (587 # 1).

Definition SMTP_SECURE : bool :=
  says_true (penv "SMTP_SECURE") || num_eq SMTP_PORT (Finite (465 # 1)).

(** The options given to [nodemailer.createTransport]. *)
Record TransportOptions : Type := mkOptions {
  host : string;
  port : jsnum;
  secure : bool;
  auth : option (string * string);
  tls_rejectUnauthorized_false : bool
}.

Definition transporterOptions : TransportOptions :=
  mkOptions SMTP_HOST_of SMTP_PORT SMTP_SECURE
    (if truthy (penv "SMTP_USER") && truthy (penv "SMTP_PASS")
     then Some (str (penv "SMTP_USER"), str (penv "SMTP_PASS"))
     else None)
    (says_true (penv "SMTP_IGNORE_TLS_ERRORS")).

(** The mail settings the handlers use; [created] says that
    [nodemailer.createTransport] did not throw. *)
Definition mail_config (created : bool) : Config :=
  mkConfig CONTACT_TO_EMAIL_of CONTACT_FROM_EMAIL_of SMTP_HOST_of created.



End Startup.


Lemma truthy_or_else (a : field) (b : string) :
  truthy (Some (or_else a b)) = truthy a || truthy (Some b).
Proof.
  unfold or_else. destruct (truthy a) eqn:T; [|reflexivity].
  destruct a as [s|]; [exact T | discriminate].
Qed.

(** When the handler tries to notify, in terms of the process
    environment. *)
Lemma notifies_iff (penv : ProcessEnv) (created : bool) :
  notifies (mail_config penv created) = true
  <-> truthy (penv "SMTP_HOST") = true
      /\ truthy (penv "CONTACT_TO_EMAIL") = true
      /\ (truthy (penv "CONTACT_FROM_EMAIL") = true
          \/ truthy (penv "SMTP_USER") = true)
      /\ created = true.
Proof.
  unfold notifies, mailTransporter, mail_config. simpl.
  fold (truthy (Some (SMTP_HOST_of penv))).
  fold (truthy (Some (CONTACT_TO_EMAIL_of penv))).
  fold (truthy (Some (CONTACT_FROM_EMAIL_of penv))).
  unfold SMTP_HOST_of, CONTACT_TO_EMAIL_of, CONTACT_FROM_EMAIL_of.
  rewrite !truthy_or_else. simpl. rewrite !orb_false_r.
  destruct (truthy (penv "SMTP_HOST")), (truthy (penv "CONTACT_TO_EMAIL")),
    (truthy (penv "CONTACT_FROM_EMAIL")), (truthy (penv "SMTP_USER")), created;
    simpl; intuition discriminate.
Qed.

(** For an inquiry that is stored, the answer says [emailSent: true]
    exactly when [SMTP_HOST] and [CONTACT_TO_EMAIL] are set and not empty,
    a sender is known from [CONTACT_FROM_EMAIL] or else from [SMTP_USER],
    the transport could be created at start-up and the relay accepts the
    mail; [SMTP_PASS] plays no part. *)
Theorem email_sent_iff
    (penv : ProcessEnv) (created : bool) (req : InquiryReq.t) (env : Env)
    (st : Store) :
  inquiry_checks req = true -> db_rejects env 0 = false ->
  exists emailSent : bool,
    reply (post_api_contact_inquiries (mail_config penv created) req) env st
    = Ok (mkResponse 201 (JInquiry (inquiry_of req (now env)) emailSent))
    /\ (emailSent = true
        <-> truthy (penv "SMTP_HOST") = true
            /\ truthy (penv "CONTACT_TO_EMAIL") = true
            /\ (truthy (penv "CONTACT_FROM_EMAIL") = true
                \/ truthy (penv "SMTP_USER") = true)
            /\ created = true
            /\ mail_rejects env = false).
Proof.
  intros Hchk Hdb. unfold reply.
  rewrite (inquiry_runs (mail_config penv created) req env st Hchk), Hdb.
  eexists. split; [reflexivity|].
  rewrite andb_true_iff, notifies_iff, negb_true_iff. tauto.
Qed.

(** A process environment with a relay and no password. *)
Definition penv_relay : ProcessEnv :=
  fun v =>
    if String.eqb v "SMTP_HOST" then Some "smtp.zumba.example"
    else if String.eqb v "CONTACT_TO_EMAIL" then Some "owner@zumba.example"
    else if String.eqb v "SMTP_USER" then Some "site@zumba.example"
    else if String.eqb v "MONGODB_URI" then Some "mongodb://db"
    else None.

Lemma email_sent_iff_witness :
  exists emailSent : bool,
    reply (post_api_contact_inquiries (mail_config penv_relay true) inquiry_A)
          (fine "" 9) empty_store
    = Ok (mkResponse 201
            (JInquiry (contactInquirySchema.Build "A" "a@b.com" "" "hi" 9)
                      emailSent))
    /\ emailSent = true.
Proof.
  destruct (email_sent_iff penv_relay true inquiry_A (fine "" 9) empty_store
              eq_refl eq_refl) as (sent & H1 & H2).
  exists sent. split; [exact H1|]. apply H2.
  repeat split; try reflexivity. right. reflexivity.
Defined.

(** ** The listing of inquiries, and the video reviews *)

Module videoReviewSchema.
Record doc : Type := Build {
  url : string;
  title : string;
  fileName : string;
  mimeType : string;
  publicId : string;
  uploadedAt : Z
}.

Definition valid (d : doc) : bool := required_string (url d).
End videoReviewSchema.

(** The store with the collection of video reviews beside the others. *)
Record Archive : Type := mkArchive {
  core : Store;
  videos : list videoReviewSchema.doc
}.

(** The store calls of these routes. *)
Inductive ArchiveCall : Type :=
| ContactInquiryFind
| VideoReviewCreate
| VideoReviewFind.

Record ARun : Type := mkARun {
  world : Archive;
  atrace : list (ArchiveCall * Outcome)
}.

(** The handler monad over the wider store. *)
Definition AM (A : Type) : Type := Env -> ARun -> Result A * ARun.

Definition aret {A : Type} (a : A) : AM A := fun _ r => (Ok a, r).

Definition abind {A B : Type} (m : AM A) (k : A -> AM B) : AM B :=
  fun env r =>
    match m env r with
    | (Ok a, r') => k a env r'
    | (Throw, r') => (Throw, r')
    end.

Definition atry_catch {A : Type} (body handler : AM A) : AM A :=
  fun env r =>
    match body env r with
    | (Ok a, r') => (Ok a, r')
    | (Throw, r') => handler env r'
    end.

Definition adb_call {A : Type} (c : ArchiveCall) (f : Archive -> A * Archive)
    : AM A :=
  fun env r =>
    if db_rejects env (length (atrace r))
    then (Throw, mkARun (world r) (atrace r ++ [(c, Rejected)]))
    else
      let (a, w') := f (world r) in
      (Ok a, mkARun w' (atrace r ++ [(c, Done)])).

Definition arefuse {A : Type} (c : ArchiveCall) : AM A :=
  fun _ r => (Throw, mkARun (world r) (atrace r ++ [(c, Invalid)])).

(** The JSON bodies of these routes. *)
Inductive ABody : Type :=
| AError (error : string)
| AInquiries (inquiries : list contactInquirySchema.doc)
| AVideo (video : videoReviewSchema.doc)
| AVideos (videos : list videoReviewSchema.doc).

Record AResponse : Type := mkAResponse {
  astatus : Z;
  abody : ABody
}.

(** Stable sort by an integer key, descending: [sort({ key: -1 })]. *)
Definition sort_by_desc {A : Type} (k : A -> Z) (l : list A) : list A :=
  sort_by (fun x => - k x) l.

(** [ContactInquiry.find().sort({ createdAt: -1 })] *)
Definition ContactInquiry_find_sorted : AM (list contactInquirySchema.doc) :=
  adb_call ContactInquiryFind (fun w =>
    (sort_by_desc contactInquirySchema.createdAt (inquiries (core w)), w)).

(** [VideoReview.create({ url, title, fileName, mimeType, publicId })];
    [uploadedAt] defaults to [Date.now]. *)
Definition VideoReview_create (u t f m p : string)
    : AM videoReviewSchema.doc :=
  fun env =>
    let d := videoReviewSchema.Build u t f m p (now env) in
    (if videoReviewSchema.valid d then
       adb_call VideoReviewCreate (fun w =>
         (d, mkArchive (core w) (videos w ++ [d])))
     else arefuse VideoReviewCreate) env.

(** [VideoReview.find().sort({ uploadedAt: -1 })] *)
Definition VideoReview_find_sorted : AM (list videoReviewSchema.doc) :=
  adb_call VideoReviewFind (fun w =>
    (sort_by_desc videoReviewSchema.uploadedAt (videos w), w)).

(** The JSON body of [POST /api/videos]. *)
Module VideoReq.
Record t : Type := Build {
  url : field;
  title : field;
  fileName : field;
  mimeType : field;
  publicId : field
}.
End VideoReq.

(** [app.get('/api/contact/inquiries', ...)] *)
Definition get_api_contact_inquiries : AM AResponse :=
  atry_catch
    (abind ContactInquiry_find_sorted (fun inquiries =>
       aret (mkAResponse 200 (AInquiries inquiries))))
    (aret (mkAResponse 500 (AError "Failed to load inquiries"))).

(** [app.post('/api/videos', ...)] *)
Definition post_api_videos (req : VideoReq.t) : AM AResponse :=
  let url := VideoReq.url req in
  let title := or_empty (VideoReq.title req) in
  let fileName := or_empty (VideoReq.fileName req) in
  let mimeType := or_empty (VideoReq.mimeType req) in
  let publicId := or_empty (VideoReq.publicId req) in
  if negb (truthy url)
  then aret (mkAResponse 400 (AError "Missing video URL"))
  else
    atry_catch
      (abind (VideoReview_create (str url) title fileName mimeType publicId)
         (fun video => aret (mkAResponse 201 (AVideo video))))
      (aret (mkAResponse 500 (AError "Failed to save video"))).

(** [app.get('/api/videos', ...)] *)
Definition get_api_videos : AM AResponse :=
  atry_catch
    (abind VideoReview_find_sorted (fun videos =>
       aret (mkAResponse 200 (AVideos videos))))
    (aret (mkAResponse 500 (AError "Failed to load videos"))).

Definition aexec (h : AM AResponse) (env : Env) (w : Archive)
    : Result AResponse * ARun :=
  h env (mkARun w []).
Definition areply (h : AM AResponse) (env : Env) (w : Archive)
    : Result AResponse :=
  fst (aexec h env w).
Definition aafter (h : AM AResponse) (env : Env) (w : Archive) : Archive :=
  world (snd (aexec h env w)).

(** Descending order of the keys. *)
Definition descending {A : Type} (k : A -> Z) : list A -> Prop :=
  StronglySorted (fun a b => k b <= k a).

Lemma sort_by_desc_perm {A : Type} (k : A -> Z) (l : list A) :
  Permutation (sort_by_desc k l) l.
Proof. apply sort_by_perm. Qed.

Lemma sort_by_desc_descending {A : Type} (k : A -> Z) (l : list A) :
  descending k (sort_by_desc k l).
Proof.
  unfold descending, sort_by_desc.
  pose proof (sort_by_ascending (fun x => - k x) l) as H. unfold ascending in H.
  induction H as [|a r Hr IH Ha]; constructor; [exact IH|].
  rewrite Forall_forall in *. intros x Hx. specialize (Ha x Hx). lia.
Qed.

(** In a descending list an element with a larger key stands before one
    with a smaller key. *)
Lemma descending_before {A : Type} (k : A -> Z) (l : list A) (x y : A) :
  descending k l -> In x l -> In y l -> k x < k y ->
  exists l1 l2 l3, l = l1 ++ y :: l2 ++ x :: l3.
Proof.
  unfold descending. intros S Hx Hy Hlt.
  induction S as [|a r Hr IH Ha].
  - destruct Hx.
  - rewrite Forall_forall in Ha.
    destruct Hy as [->|Hy].
    + destruct Hx as [->|Hx]; [lia|].
      apply in_split in Hx. destruct Hx as (l2 & l3 & ->).
      now exists [], l2, l3.
    + destruct Hx as [->|Hx].
      * specialize (Ha y Hy). lia.
      * destruct (IH Hx Hy) as (l1 & l2 & l3 & ->).
        now exists (a :: l1), l2, l3.
Qed.

(** The video that a request stores at time [t]. *)
Definition video_of (req : VideoReq.t) (t : Z) : videoReviewSchema.doc :=
  videoReviewSchema.Build (str (VideoReq.url req))
    (or_empty (VideoReq.title req)) (or_empty (VideoReq.fileName req))
    (or_empty (VideoReq.mimeType req)) (or_empty (VideoReq.publicId req)) t.

Lemma post_videos_runs (req : VideoReq.t) (env : Env) (w : Archive) :
  aexec (post_api_videos req) env w
  = if negb (truthy (VideoReq.url req))
    then (Ok (mkAResponse 400 (AError "Missing video URL")), mkARun w [])
    else if db_rejects env 0
    then (Ok (mkAResponse 500 (AError "Failed to save video")),
          mkARun w [(VideoReviewCreate, Rejected)])
    else (Ok (mkAResponse 201 (AVideo (video_of req (now env)))),
          mkARun (mkArchive (core w) (videos w ++ [video_of req (now env)]))
                 [(VideoReviewCreate, Done)]).
Proof.
  unfold aexec, post_api_videos.
  destruct (truthy (VideoReq.url req)) eqn:T; [|reflexivity]. simpl.
  unfold atry_catch, abind, VideoReview_create, videoReviewSchema.valid.
  simpl. rewrite (truthy_required _ T). unfold adb_call. simpl.
  destruct (db_rejects env 0); reflexivity.
Qed.

(** [POST /api/videos] answers 400 exactly when the url is missing or
    empty.  Otherwise, on a working store, it answers 201 with the stored
    record: the url as given, the fields left out as empty strings and
    [uploadedAt] the current time; the record is added after the videos
    already stored and nothing else changes.  When the store rejects the
    insert the answer is 500 and nothing changes. *)
Theorem post_videos_answers (req : VideoReq.t) (env : Env) (w : Archive) :
  (exists r, areply (post_api_videos req) env w = Ok r
             /\ (astatus r = 400 <-> truthy (VideoReq.url req) = false))
  /\ (truthy (VideoReq.url req) = true -> db_rejects env 0 = false ->
      areply (post_api_videos req) env w
      = Ok (mkAResponse 201 (AVideo (video_of req (now env))))
      /\ videos (aafter (post_api_videos req) env w)
         = videos w ++ [video_of req (now env)]
      /\ core (aafter (post_api_videos req) env w) = core w)
  /\ (truthy (VideoReq.url req) = true -> db_rejects env 0 = true ->
      areply (post_api_videos req) env w
      = Ok (mkAResponse 500 (AError "Failed to save video"))
      /\ aafter (post_api_videos req) env w = w).
Proof.
  unfold areply, aafter. rewrite post_videos_runs.
  destruct (truthy (VideoReq.url req)); simpl.
  - split; [|split].
    + destruct (db_rejects env 0); eexists; (split; [reflexivity|]); simpl;
        split; discriminate.
    + intros _ ->. repeat split.
    + intros _ ->. split; [reflexivity | now destruct w].
  - split; [|split; intros; discriminate].
    eexists. split; [reflexivity|]. simpl. tauto.
Qed.

Definition video_req : VideoReq.t :=
  VideoReq.Build (Some "https://res/v.mp4") (Some "Asha") None None None.

Lemma post_videos_answers_witness :
  (areply (post_api_videos video_req) (fine "" 5) (mkArchive empty_store [])
   = Ok (mkAResponse 201
           (AVideo (videoReviewSchema.Build "https://res/v.mp4" "Asha" "" "" "" 5)))
   /\ videos (aafter (post_api_videos video_req) (fine "" 5)
                (mkArchive empty_store []))
      = [videoReviewSchema.Build "https://res/v.mp4" "Asha" "" "" "" 5]
   /\ core (aafter (post_api_videos video_req) (fine "" 5)
              (mkArchive empty_store []))
      = empty_store)
  /\ (areply (post_api_videos video_req) (mkEnv None (fun _ => true) false 5)
        (mkArchive empty_store [])
      = Ok (mkAResponse 500 (AError "Failed to save video"))
      /\ aafter (post_api_videos video_req) (mkEnv None (fun _ => true) false 5)
           (mkArchive empty_store [])
         = mkArchive empty_store []).
Proof.
  split.
  - apply (proj1 (proj2 (post_videos_answers video_req (fine "" 5)
                           (mkArchive empty_store []))));
      reflexivity.
  - apply (proj2 (proj2 (post_videos_answers video_req
                           (mkEnv None (fun _ => true) false 5)
                           (mkArchive empty_store []))));
      reflexivity.
Defined.

(** [GET /api/videos] on a working store lists every stored video, each
    as often as it is stored, newest upload first, and changes nothing;
    when the store rejects the query the answer is 500. *)
Theorem get_videos_newest_first (env : Env) (w : Archive) :
  aafter get_api_videos env w = w
  /\ (db_rejects env 0 = true ->
      areply get_api_videos env w
      = Ok (mkAResponse 500 (AError "Failed to load videos")))
  /\ (db_rejects env 0 = false ->
      exists l,
        areply get_api_videos env w = Ok (mkAResponse 200 (AVideos l))
        /\ Permutation l (videos w)
        /\ descending videoReviewSchema.uploadedAt l).
Proof.
  unfold areply, aafter, aexec, get_api_videos, atry_catch, abind,
    VideoReview_find_sorted, adb_call. simpl.
  destruct (db_rejects env 0); simpl.
  - split; [reflexivity|]. split; [reflexivity | discriminate].
  - split; [reflexivity|]. split; [discriminate|]. intros _.
    eexists. split; [reflexivity|].
    split; [apply sort_by_desc_perm | apply sort_by_desc_descending].
Qed.

Lemma get_videos_newest_first_witness :
  let v1 := videoReviewSchema.Build "https://res/1.mp4" "" "" "" "" 5 in
  let v2 := videoReviewSchema.Build "https://res/2.mp4" "" "" "" "" 9 in
  exists l,
    areply get_api_videos (fine "" 10) (mkArchive empty_store [v1; v2])
    = Ok (mkAResponse 200 (AVideos l))
    /\ Permutation l [v1; v2]
    /\ descending videoReviewSchema.uploadedAt l.
Proof.
  intros v1 v2.
  exact (proj2 (proj2 (get_videos_newest_first (fine "" 10)
                         (mkArchive empty_store [v1; v2]))) eq_refl).
Defined.

(** The listing of the inquiries on a working store. *)
Lemma get_inquiries_listing (env : Env) (w : Archive) :
  db_rejects env 0 = false ->
  exists l,
    areply get_api_contact_inquiries env w
    = Ok (mkAResponse 200 (AInquiries l))
    /\ Permutation l (inquiries (core w))
    /\ descending contactInquirySchema.createdAt l.
Proof.
  unfold areply, aexec, get_api_contact_inquiries, atry_catch, abind,
    ContactInquiry_find_sorted, adb_call. simpl. intros ->. simpl.
  eexists. split; [reflexivity|].
  split; [apply sort_by_desc_perm | apply sort_by_desc_descending].
Qed.

(** [GET /api/contact/inquiries] on a working store lists every stored
    inquiry, each as often as it is stored, newest first, and changes
    nothing; when the store rejects the query the answer is 500. *)
Theorem get_inquiries_newest_first (env : Env) (w : Archive) :
  aafter get_api_contact_inquiries env w = w
  /\ (db_rejects env 0 = true ->
      areply get_api_contact_inquiries env w
      = Ok (mkAResponse 500 (AError "Failed to load inquiries")))
  /\ (db_rejects env 0 = false ->
      exists l,
        areply get_api_contact_inquiries env w
        = Ok (mkAResponse 200 (AInquiries l))
        /\ Permutation l (inquiries (core w))
        /\ descending contactInquirySchema.createdAt l).
Proof.
  unfold areply, aafter, aexec, get_api_contact_inquiries, atry_catch, abind,
    ContactInquiry_find_sorted, adb_call. simpl.
  destruct (db_rejects env 0); simpl.
  - split; [reflexivity|]. split; [reflexivity | discriminate].
  - split; [reflexivity|]. split; [discriminate|]. intros _.
    eexists. split; [reflexivity|].
    split; [apply sort_by_desc_perm | apply sort_by_desc_descending].
Qed.

Lemma get_inquiries_newest_first_witness :
  let d1 := contactInquirySchema.Build "A" "a@b.com" "" "hi" 5 in
  let d2 := contactInquirySchema.Build "B" "b@b.com" "" "ho" 9 in
  exists l,
    areply get_api_contact_inquiries (fine "" 10)
           (mkArchive (mkStore [] [] [] [d1; d2]) [])
    = Ok (mkAResponse 200 (AInquiries l))
    /\ Permutation l [d1; d2]
    /\ descending contactInquirySchema.createdAt l.
Proof.
  intros d1 d2.
  exact (proj2 (proj2 (get_inquiries_newest_first (fine "" 10)
                         (mkArchive (mkStore [] [] [] [d1; d2]) []))) eq_refl).
Defined.

(** Two inquiries submitted one after the other, the second at a later
    time, are listed by [GET /api/contact/inquiries] with the second
    before the first. *)
Theorem inquiries_listed_newest_first
    (cfg : Config) (req1 req2 : InquiryReq.t) (env1 env2 env3 : Env)
    (st : Store) (vs : list videoReviewSchema.doc) :
  inquiry_checks req1 = true -> inquiry_checks req2 = true ->
  db_rejects env1 0 = false -> db_rejects env2 0 = false ->
  db_rejects env3 0 = false -> now env1 < now env2 ->
  let st1 := after (post_api_contact_inquiries cfg req1) env1 st in
  let st2 := after (post_api_contact_inquiries cfg req2) env2 st1 in
  exists l1 l2 l3,
    areply get_api_contact_inquiries env3 (mkArchive st2 vs)
    = Ok (mkAResponse 200
            (AInquiries (l1 ++ inquiry_of req2 (now env2)
                            :: l2 ++ inquiry_of req1 (now env1) :: l3))).
Proof.
  intros C1 C2 R1 R2 R3 Hlt st1 st2. subst st1 st2. unfold after.
  rewrite (inquiry_runs cfg req1 env1 st C1), R1. cbn [snd store].
  rewrite (inquiry_runs cfg req2 env2 _ C2), R2. cbn [snd store].
  destruct (get_inquiries_listing env3
              (mkArchive (inquiry_stored (inquiry_of req2 (now env2))
                            (inquiry_stored (inquiry_of req1 (now env1)) st))
                         vs) R3)
    as (l & Hl & P & D).
  rewrite Hl.
  destruct (descending_before contactInquirySchema.createdAt l
              (inquiry_of req1 (now env1)) (inquiry_of req2 (now env2)) D)
    as (l1 & l2 & l3 & ->).
  - apply (Permutation_in _ (Permutation_sym P)). simpl.
    apply in_or_app. left. apply in_or_app. right. now left.
  - apply (Permutation_in _ (Permutation_sym P)). simpl.
    apply in_or_app. right. now left.
  - exact Hlt.
  - now exists l1, l2, l3.
Qed.

Definition inquiry_B : InquiryReq.t :=
  InquiryReq.Build (Some "B") (Some "b@b.com") (Some "555") (Some "ho").

Lemma inquiries_listed_newest_first_witness :
  exists l1 l2 l3,
    areply get_api_contact_inquiries (fine "" 30)
           (mkArchive
              (after (post_api_contact_inquiries no_relay inquiry_B) (fine "" 20)
                 (after (post_api_contact_inquiries no_relay inquiry_A)
                    (fine "" 10) empty_store))
              [])
    = Ok (mkAResponse 200
            (AInquiries
               (l1 ++ contactInquirySchema.Build "B" "b@b.com" "555" "ho" 20
                   :: l2 ++ contactInquirySchema.Build "A" "a@b.com" "" "hi" 10
                   :: l3))).
Proof.
  exact (inquiries_listed_newest_first no_relay inquiry_A inquiry_B
           (fine "" 10) (fine "" 20) (fine "" 30) empty_store []
           eq_refl eq_refl eq_refl eq_refl eq_refl eq_refl).
Defined.


(** ** Each route keeps to its own collections *)

(** The collections a route may write. *)
Definition writes_images (r : Request) : bool :=
  match r with PostUpload _ | PostUploadForm _ => true | _ => false end.
Definition writes_cards (r : Request) : bool :=
  match r with
  | PostUpload _ | PostUploadForm _ | PostSaveCards _ => true
  | _ => false
  end.
Definition writes_offers (r : Request) : bool :=
  match r with PostOffer _ | DeleteOffer => true | _ => false end.
Definition writes_inquiries (r : Request) : bool :=
  match r with PostInquiry _ => true | _ => false end.

(** Whatever the services do, only the upload changes the images, only
    the upload and the save of cards change the card sets, only the POST
    and the DELETE of the offer change the offers, and only the inquiry
    submission changes the inquiries. *)
Theorem routes_keep_to_their_collections
    (cfg : Config) (r : Request) (env : Env) (st : Store) :
  let st' := after (route cfg r) env st in
  (writes_images r = false -> images st' = images st)
  /\ (writes_cards r = false -> cardDatas st' = cardDatas st)
  /\ (writes_offers r = false -> offers st' = offers st)
  /\ (writes_inquiries r = false -> inquiries st' = inquiries st).
Proof.
  assert (U : forall req,
             offers (after (post_api_upload req) env st) = offers st
             /\ inquiries (after (post_api_upload req) env st) = inquiries st).
  { intros req. unfold after. destruct (upload_checks req) eqn:Hchk.
    - destruct (upload_checks_true req Hchk)
        as (buf & b & s & q & Hreq & Hb & Hs & Hq).
      rewrite Hreq.
      pose proof (upload_runs env st buf b s (UploadReq.cardNum req) q Hb Hs Hq)
        as R.
      inversion R; simpl; split; reflexivity.
    - rewrite (upload_stopped req env st Hchk). simpl. split; reflexivity. }
  destruct r as [req|q|req|v| |req| |req|form]; simpl route;
    [ destruct (U req) as [U1 U2]; cbn [writes_images writes_cards];
      repeat split; intros; try discriminate; assumption
    | unfold after .. ].
  - rewrite get_images_runs.
    destruct (Image.cast_cardNum (given (ImagesQuery.cardNum q)));
      [destruct (db_rejects env 0)|]; simpl; repeat split.
  - destruct (save_checks req) eqn:Hchk.
    + destruct (save_cards_accepted req Hchk) as (b & cs & -> & Hb).
      rewrite (save_cards_runs b cs env st Hb).
      destruct (db_rejects env 0);
        [|destruct (cardSchema.cast_all cs); [destruct (db_rejects env 1)|]];
        simpl; repeat split; intros; try discriminate; reflexivity.
    + rewrite (save_cards_stopped req env st Hchk). simpl. repeat split.
  - destruct (truthy v) eqn:Hv.
    + destruct v as [b|]; [|discriminate].
      rewrite (load_cards_runs b env st (proj1 (truthy_Some b) Hv)).
      destruct (db_rejects env 0); simpl; repeat split.
    + rewrite (load_cards_refused v env st Hv). simpl. repeat split.
  - rewrite get_offer_runs. destruct (db_rejects env 0); simpl; repeat split.
  - destruct (offer_checks req) eqn:Hchk.
    + rewrite (post_offer_runs req env st Hchk).
      destruct (db_rejects env 0); simpl; repeat split; intros;
        try discriminate; reflexivity.
    + rewrite (post_offer_refused req env st Hchk). simpl. repeat split.
  - rewrite delete_offer_runs.
    destruct (db_rejects env 0); simpl; repeat split; intros;
      try discriminate; reflexivity.
  - destruct (inquiry_checks req) eqn:Hchk.
    + rewrite (inquiry_runs cfg req env st Hchk).
      destruct (db_rejects env 0); simpl; repeat split; intros;
        try discriminate; reflexivity.
    + rewrite (inquiry_refused cfg req env st Hchk). simpl. repeat split.
  - unfold app_post_api_upload.
    destruct (upload_single "image" form) as [req|].
    + destruct (U req) as [U1 U2]. cbn [writes_images writes_cards].
      repeat split; intros; try discriminate; assumption.
    + simpl. repeat split.
Qed.

Lemma routes_keep_to_their_collections_witness :
  let st' := after (route no_relay
                      (PostOffer (OfferReq.Build (Some "Monsoon") None None)))
                   (fine "" 200) store_with_images in
  images st' = images store_with_images
  /\ cardDatas st' = cardDatas store_with_images
  /\ inquiries st' = inquiries store_with_images.
Proof.
  intros st'.
  destruct (routes_keep_to_their_collections no_relay
              (PostOffer (OfferReq.Build (Some "Monsoon") None None))
              (fine "" 200) store_with_images) as (H1 & H2 & _ & H4).
  split; [exact (H1 eq_refl) | split; [exact (H2 eq_refl) | exact (H4 eq_refl)]].
Defined.

(** ** The transport options *)

(** The spellings of a letter, given in lower case, that [toLowerCase]
    maps to it. *)
Definition spells (l : ascii) (c : ascii) : Prop :=
  c = l \/ c = ascii_of_nat (nat_of_ascii l - 32).

Lemma lower_char_t (c : ascii) : lower_char c = "t"%char <-> spells "t" c.
Proof.
  unfold spells.
  destruct c as [[] [] [] [] [] [] [] []]; vm_compute;
    (split; [intros H; try discriminate; auto
            | intros [H|H]; try discriminate; reflexivity]).
Qed.

Lemma lower_char_r (c : ascii) : lower_char c = "r"%char <-> spells "r" c.
Proof.
  unfold spells.
  destruct c as [[] [] [] [] [] [] [] []]; vm_compute;
    (split; [intros H; try discriminate; auto
            | intros [H|H]; try discriminate; reflexivity]).
Qed.

Lemma lower_char_u (c : ascii) : lower_char c = "u"%char <-> spells "u" c.
Proof.
  unfold spells.
  destruct c as [[] [] [] [] [] [] [] []]; vm_compute;
    (split; [intros H; try discriminate; auto
            | intros [H|H]; try discriminate; reflexivity]).
Qed.

Lemma lower_char_e (c : ascii) : lower_char c = "e"%char <-> spells "e" c.
Proof.
  unfold spells.
  destruct c as [[] [] [] [] [] [] [] []]; vm_compute;
    (split; [intros H; try discriminate; auto
            | intros [H|H]; try discriminate; reflexivity]).
Qed.

(** A value that reads as true: the word "true" in any mix of upper and
    lower case, and nothing else. *)
Definition reads_true (v : field) : Prop :=
  exists a b c d,
    v = Some (String a (String b (String c (String d EmptyString))))
    /\ spells "t" a /\ spells "r" b /\ spells "u" c /\ spells "e" d.

Lemma says_true_iff (v : field) : says_true v = true <-> reads_true v.
Proof.
  unfold says_true, reads_true. rewrite String.eqb_eq. split.
  - intros H. unfold or_else in H. destruct (truthy v) eqn:T;
      [|discriminate].
    destruct v as [s|]; [|discriminate]. simpl in H.
    destruct s as [|a [|b [|c [|d [|e s]]]]]; try discriminate.
    simpl in H. injection H as Ha Hb Hc Hd.
    exists a, b, c, d. split; [reflexivity|].
    split; [now apply lower_char_t|]. split; [now apply lower_char_r|].
    split; [now apply lower_char_u | now apply lower_char_e].
  - intros (a & b & c & d & -> & Ha & Hb & Hc & Hd).
    apply lower_char_t in Ha. apply lower_char_r in Hb.
    apply lower_char_u in Hc. apply lower_char_e in Hd.
    unfold or_else. simpl. now rewrite Ha, Hb, Hc, Hd.
Qed.

(** The options of the mail transport: the port is 587 unless [SMTP_PORT]
    is set and not empty; the connection is secure exactly when
    [SMTP_SECURE] is the word "true" in any letter case or the port is
    the number 465; the login is given exactly when both [SMTP_USER] and
    [SMTP_PASS] are set and not empty; and certificate errors are ignored
    exactly when [SMTP_IGNORE_TLS_ERRORS] is the word "true" in any letter
    case. *)
Theorem transport_options_read (penv : ProcessEnv) :
  let o := transporterOptions penv in
  (truthy (penv "SMTP_PORT") = false -> port o = Finite (587 # 1))
  /\ (secure o = true
      <-> reads_true (penv "SMTP_SECURE")
          \/ num_eq (port o) (Finite (465 # 1)) = true)
  /\ (auth o <> None
      <-> truthy (penv "SMTP_USER") = true /\ truthy (penv "SMTP_PASS") = true)
  /\ (tls_rejectUnauthorized_false o = true
      <-> reads_true (penv "SMTP_IGNORE_TLS_ERRORS")).
Proof.
  unfold transporterOptions. cbn [port secure auth tls_rejectUnauthorized_false].
  split; [|split; [|split]].
  - unfold SMTP_PORT. now intros ->.
  - unfold SMTP_SECURE. now rewrite orb_true_iff, says_true_iff.
  - destruct (truthy (penv "SMTP_USER")), (truthy (penv "SMTP_PASS")); simpl;
      split; try discriminate; try tauto; intros [H1 H2]; discriminate.
  - apply says_true_iff.
Qed.

Lemma transport_options_read_witness :
  let penv : ProcessEnv :=
    fun v => if String.eqb v "SMTP_PORT" then Some " 465 "
             else if String.eqb v "SMTP_SECURE" then Some "false"
             else if String.eqb v "SMTP_IGNORE_TLS_ERRORS" then Some "TRUE"
             else None in
  secure (transporterOptions penv) = true
  /\ tls_rejectUnauthorized_false (transporterOptions penv) = true.
Proof.
  intros penv.
  destruct (transport_options_read penv) as (_ & H2 & _ & H4).
  split.
  - apply H2. right. vm_compute. reflexivity.
  - apply H4. exists "T"%char, "R"%char, "U"%char, "E"%char.
    split; [reflexivity|]. unfold spells. repeat split; right; reflexivity.
Defined.
